(** * Lead agent service: payload classification, enrichment merge and dual scoring

    A shallow embedding of the TypeScript sources of the service:
      - the scoring engine: [scoreLeadDual], [scoreLead], [computeScore],
        [computeDimensions], the ten signal scorers and [determineTier]
        (services/scoring.ts);
      - [mergeEnrichment] (services/enrichment.ts);
      - [detectAndMap] of the enrich-lead route;
      - the detectors [isSalesforcePayload], [isHubSpotPayload],
        [isPipedrivePayload] and the band conversions
        [mapEmployeeCountToBand], [mapRevenueToBand] of the Salesforce and
        HubSpot mappers (mappers/*.ts);
      - [getDefaultScoringConfig] (db/tenants.ts);
      - the typed mappers [mapSalesforceToUniversal],
        [mapPipedriveToUniversal] and [mapRawToUniversal], with
        [buildRegion] and [mapValueToDealBand];
      - [stubEnrichment] with [inferSeniorityFromTitle], the pure core of
        the enrich-lead handler ([enrichAndScore]) and
        [universalInputToLeadInsert] (db/leads.ts);
      - the two versions of the first scoring function over
        [EnrichLeadRequest] (module [Legacy]);
    followed by the properties of the written specification and by further
    properties of the code.

    The scoring engine is embedded twice.
      - At top level it computes with exact numbers: weights are rationals,
        weighted points and scores are integers, and [toLowerCase] folds
        the ASCII letters.  This agrees with the code as long as no
        product or sum rounds or overflows and the strings that are
        lower-cased are ASCII; it carries the properties that do not
        depend on either.
      - Module [Doubles] computes as the code does: numbers are IEEE 754
        doubles ([F64], on the Standard Library's [SpecFloat]), a breakdown
        is the list of its entries in insertion order, and the engine takes
        [toLowerCase] as a parameter.  The properties that depend on
        rounding, on overflow, on NaN or on the letters of other scripts
        are stated on [Doubles].

    Conventions of the model.
      - Outside [Doubles] a finite JavaScript number is an exact rational
        ([Q]); [Math.round] is [floor (x + 1/2)].  Where the source tests
        for NaN itself (the band conversions of the mappers, fed by
        [parseInt] and [parseFloat]) the number type has an explicit NaN.
      - A JavaScript string is a [string] of bytes; [length] counts bytes.
      - An optional field is [opt A]: [undefined], [null] or a value.
      - A plain object used as a dictionary is a [gmap string _].
      - A scorer returns its points paired with the strings it pushes on the
        shared [reasons] array; [computeScore] concatenates them in call
        order. *)

From Stdlib Require Import ZArith QArith Qround Lia Ascii String SpecFloat.
From stdpp Require Import gmap strings list fin_maps pretty.

#[local] Set Warnings "-register-all".
#[local] Open Scope Z_scope.
#[local] Open Scope string_scope.

(* ===================================================================== *)
(** ** JavaScript values *)
(* ===================================================================== *)

Module JS.

(** A field that may be missing: [undefined], [null] or a value. *)
Inductive opt (A : Type) : Type :=
| undefined : opt A
| null : opt A
| val : A -> opt A.
#[global] Arguments undefined {A}.
#[global] Arguments null {A}.
#[global] Arguments val {A} _.

(** [a ?? b] *)
Definition nullish {A} (a b : opt A) : opt A :=
  match a with
  | val _ => a
  | _ => b
  end.

(** Neither [undefined] nor [null]. *)
Definition present {A} (a : opt A) : Prop :=
  match a with
  | val _ => True
  | _ => False
  end.

(** Truthiness of an optional string: the empty string is falsy. *)
Definition truthy (a : opt string) : option string :=
  match a with
  | val s => if String.eqb s EmptyString then None else Some s
  | _ => None
  end.

(** [a || b] on optional strings. *)
Definition or_else (a b : opt string) : opt string :=
  match truthy a with
  | Some _ => a
  | None => b
  end.

(** [Math.round]: the nearest integer, halves towards plus infinity. *)
Definition Math_round (x : Q) : Z := Qfloor (x + (1 # 2)).

(** A number that may be NaN. *)
Inductive num : Type :=
| NaN : num
| Fin : Q -> num.

(** [isNaN(x)] *)
Definition isNaN (x : num) : bool :=
  match x with
  | NaN => true
  | Fin _ => false
  end.

(** [x <= c] and [x < c]: every comparison with NaN is false. *)
Definition le (x : num) (c : Q) : bool :=
  match x with
  | NaN => false
  | Fin q => Qle_bool q c
  end.

Definition lt (x : num) (c : Q) : bool :=
  match x with
  | NaN => false
  | Fin q => negb (Qle_bool c q)
  end.

(** *** Strings *)

Definition lower_ascii (c : ascii) : ascii :=
  let n := Ascii.N_of_ascii c in
  if ((65 <=? n) && (n <=? 90))%N then Ascii.ascii_of_N (n + 32) else c.

(** [s.toLowerCase()] *)
Fixpoint toLowerCase (s : string) : string :=
  match s with
  | EmptyString => EmptyString
  | String c s' => String (lower_ascii c) (toLowerCase s')
  end.

(** [s.startsWith(p)] *)
Fixpoint startsWith (s p : string) : bool :=
  match p, s with
  | EmptyString, _ => true
  | String _ _, EmptyString => false
  | String a p', String b s' => if Ascii.eqb a b then startsWith s' p' else false
  end.

(** [s.includes(sub)] *)
Fixpoint includes (s sub : string) : bool :=
  startsWith s sub ||
  match s with
  | EmptyString => false
  | String _ s' => includes s' sub
  end.

(** [s.split(sep)] for a one-character separator. *)
Fixpoint split (sep : ascii) (s : string) : list string :=
  match s with
  | EmptyString => [EmptyString]
  | String c s' =>
      if Ascii.eqb c sep then EmptyString :: split sep s'
      else match split sep s' with
           | [] => [String c EmptyString]
           | p :: ps => String c p :: ps
           end
  end.

(** [xs.some(k => s.includes(k))] *)
Definition some_includes (s : string) (xs : list string) : bool :=
  existsb (fun k => includes s k) xs.

(** [xs.includes(s)] on an array of strings. *)
Definition array_includes (xs : list string) (s : string) : bool :=
  existsb (String.eqb s) xs.

(** A JSON value, as [express.json()] hands it to the route. *)
Inductive json : Type :=
| JNull : json
| JBool : bool -> json
| JNum : Q -> json
| JStr : string -> json
| JArr : list json -> json
| JObj : list (string * json) -> json.

(** [typeof v]; a missing property is [undefined], and [null] and arrays
    answer ["object"]. *)
Inductive jstype : Type := TString | TNumber | TObject | TBoolean | TUndefined.

Definition typeof (v : option json) : jstype :=
  match v with
  | None => TUndefined
  | Some JNull => TObject
  | Some (JBool _) => TBoolean
  | Some (JNum _) => TNumber
  | Some (JStr _) => TString
  | Some (JArr _) => TObject
  | Some (JObj _) => TObject
  end.

Definition is_string (v : option json) : bool :=
  match typeof v with TString => true | _ => false end.
Definition is_number (v : option json) : bool :=
  match typeof v with TNumber => true | _ => false end.
Definition is_object (v : option json) : bool :=
  match typeof v with TObject => true | _ => false end.

(** Property read on a nested object: the last binding of a key wins. *)
Fixpoint get_prop (key : string) (kvs : list (string * json)) : option json :=
  match kvs with
  | [] => None
  | (k, v) :: rest =>
      match get_prop key rest with
      | Some w => Some w
      | None => if String.eqb k key then Some v else None
      end
  end.

(** Truthiness of a JSON value. *)
Definition json_truthy (v : json) : bool :=
  match v with
  | JNull => false
  | JBool b => b
  | JNum q => negb (Qeq_bool q 0)
  | JStr s => negb (String.eqb s EmptyString)
  | _ => true
  end.

End JS.
Import JS.

(* ===================================================================== *)
(** ** Data model (types/universal.ts) *)
(* ===================================================================== *)

(** [UniversalLeadInput], with the type of [company_domain] left open: it is
    a [string] in a lead and optional in a [Partial<UniversalLeadInput>].
    The enumerated bands are strings at run time; a value outside the
    enumeration reaches the scorers through the raw pass-through mapper. *)
Record LeadFields (D : Type) : Type := mkLead {
  company_domain : D;
  company_name : opt string;
  company_industry : opt string;
  company_employee_band : opt string;
  company_revenue_band : opt string;
  company_region : opt string;
  company_tech_stack_summary : opt json;
  contact_email : opt string;
  contact_first_name : opt string;
  contact_last_name : opt string;
  contact_role_function : opt string;
  contact_role_seniority : opt string;
  contact_title_raw : opt string;
  contact_geo : opt string;
  contact_phone : opt string;
  primary_use_case : opt string;
  estimated_deal_band : opt string;
  urgency_band : opt string;
  lead_source : opt string
}.
Arguments mkLead {D}.
Arguments company_domain {D} _.
Arguments company_name {D} _.
Arguments company_industry {D} _.
Arguments company_employee_band {D} _.
Arguments company_revenue_band {D} _.
Arguments company_region {D} _.
Arguments company_tech_stack_summary {D} _.
Arguments contact_email {D} _.
Arguments contact_first_name {D} _.
Arguments contact_last_name {D} _.
Arguments contact_role_function {D} _.
Arguments contact_role_seniority {D} _.
Arguments contact_title_raw {D} _.
Arguments contact_geo {D} _.
Arguments contact_phone {D} _.
Arguments primary_use_case {D} _.
Arguments estimated_deal_band {D} _.
Arguments urgency_band {D} _.
Arguments lead_source {D} _.

Abbreviation UniversalLeadInput := (LeadFields string).
Abbreviation PartialLeadInput := (LeadFields (opt string)).

(** A lead that only names its domain. *)
Definition bare_lead {D} (d : D) : LeadFields D :=
  mkLead d undefined undefined undefined undefined undefined undefined
         undefined undefined undefined undefined undefined undefined
         undefined undefined undefined undefined undefined undefined.

Inductive LeadTier : Type := Hot | Warm | Cold.

Inductive Phase : Type := raw | enriched.

(** [TenantScoringConfig] without the bookkeeping columns ([id],
    [tenant_id], [created_at], [updated_at]) that scoring never reads. *)
Record TenantScoringConfig : Type := mkConfig {
  scoring_version : string;
  weight_overrides : gmap string Q;
  priority_industries : list string;
  excluded_regions : list string;
  priority_use_cases : list string;
  hot_threshold : Q;
  warm_threshold : Q
}.

(** db/tenants.ts, [getDefaultScoringConfig]. *)
Definition getDefaultScoringConfig : TenantScoringConfig :=
  {| scoring_version := "v1";
     weight_overrides := ∅;
     priority_industries := [];
     excluded_regions := [];
     priority_use_cases := [];
     hot_threshold := 70;
     warm_threshold := 40 |}.

Record DimensionBreakdown : Type := mkDimensions {
  fit : Z;
  intent : Z;
  timing : Z
}.

Record ScoringResult : Type := mkScoringResult {
  score : Z;
  tier : LeadTier;
  raw_score : Z;
  raw_tier : LeadTier;
  enriched_score : Z;
  enriched_tier : LeadTier;
  lift : Z;
  result_scoring_version : string;
  score_breakdown : gmap string Z;
  raw_breakdown : gmap string Z;
  dimensions : DimensionBreakdown;
  reasons : list string
}.

(* ===================================================================== *)
(** ** Enrichment merge (services/enrichment.ts) *)
(* ===================================================================== *)

(** [mergeEnrichment]: every optional field is [original.f ?? enriched.f];
    [company_domain] is copied from the original. *)
Definition mergeEnrichment (original : UniversalLeadInput)
    (enr : PartialLeadInput) : UniversalLeadInput :=
  {| company_domain := company_domain original;
     company_name := nullish (company_name original) (company_name enr);
     company_industry := nullish (company_industry original) (company_industry enr);
     company_employee_band :=
       nullish (company_employee_band original) (company_employee_band enr);
     company_revenue_band :=
       nullish (company_revenue_band original) (company_revenue_band enr);
     company_region := nullish (company_region original) (company_region enr);
     company_tech_stack_summary :=
       nullish (company_tech_stack_summary original) (company_tech_stack_summary enr);
     contact_email := nullish (contact_email original) (contact_email enr);
     contact_first_name :=
       nullish (contact_first_name original) (contact_first_name enr);
     contact_last_name := nullish (contact_last_name original) (contact_last_name enr);
     contact_role_function :=
       nullish (contact_role_function original) (contact_role_function enr);
     contact_role_seniority :=
       nullish (contact_role_seniority original) (contact_role_seniority enr);
     contact_title_raw := nullish (contact_title_raw original) (contact_title_raw enr);
     contact_geo := nullish (contact_geo original) (contact_geo enr);
     contact_phone := nullish (contact_phone original) (contact_phone enr);
     primary_use_case := nullish (primary_use_case original) (primary_use_case enr);
     estimated_deal_band :=
       nullish (estimated_deal_band original) (estimated_deal_band enr);
     urgency_band := nullish (urgency_band original) (urgency_band enr);
     lead_source := nullish (lead_source original) (lead_source enr) |}.

(* ===================================================================== *)
(** ** Scoring engine (services/scoring.ts) *)
(* ===================================================================== *)

Definition SCORING_VERSION : string := "v1".

Definition BASE_WEIGHTS : gmap string Q :=
  list_to_map
    [("email_domain", 1%Q); ("company_size", 1%Q); ("revenue", 1%Q);
     ("seniority", 1%Q); ("industry", 1%Q); ("lead_source", 1%Q);
     ("use_case", 1%Q); ("urgency", 1%Q); ("deal_band", 1%Q)].

Inductive Dimension : Type := DFit | DIntent | DTiming.

Definition DIMENSION_MAPPING : gmap string Dimension :=
  list_to_map
    [("email_domain", DFit); ("company_size", DFit); ("revenue", DFit);
     ("seniority", DFit); ("industry", DFit); ("region_penalty", DFit);
     ("lead_source", DIntent); ("use_case", DIntent); ("deal_band", DIntent);
     ("urgency", DTiming)].

Definition FREE_EMAIL_DOMAINS : list string :=
  ["gmail.com"; "yahoo.com"; "outlook.com"; "hotmail.com";
   "icloud.com"; "aol.com"; "proton.me"; "protonmail.com";
   "live.com"; "msn.com"; "ymail.com"].

Definition HIGH_VALUE_INDUSTRIES : list string :=
  ["technology"; "software"; "finance"; "healthcare"; "saas";
   "fintech"; "biotech"; "ai"; "machine learning"].

Definition MEDIUM_VALUE_INDUSTRIES : list string :=
  ["manufacturing"; "retail"; "consulting"; "professional services";
   "media"; "education"; "real estate"].

Definition HIGH_QUALITY_SOURCES : list string :=
  ["referral"; "partner"; "event"; "conference"; "demo request"; "inbound"].

Definition MEDIUM_QUALITY_SOURCES : list string :=
  ["website"; "webinar"; "content download"; "organic"; "seo"].

(** The point tables that the scorers declare as object literals. *)
Definition employeeBandScores : gmap string Z :=
  list_to_map [("1-10", 5); ("11-50", 10); ("51-200", 15);
               ("201-1000", 20); ("1000+", 25)].

Definition revenueBandScores : gmap string Z :=
  list_to_map [("<1M", 5); ("1-10M", 10); ("10-50M", 15);
               ("50-250M", 20); ("250M+", 25)].

Definition seniorityScores : gmap string Z :=
  list_to_map [("IC", 5); ("Manager", 10); ("Director", 15);
               ("VP", 20); ("C-Level", 30)].

Definition urgencyScores : gmap string Z :=
  list_to_map [("Exploring", 5); ("ThisQuarter", 10); ("ThisMonth", 20)].

Definition dealScores : gmap string Z :=
  list_to_map [("Small", 5); ("Mid", 10); ("Enterprise", 15)].

(** [table[key] ?? 0] *)
Definition points_of (table : gmap string Z) (key : string) : Z :=
  default 0 (table !! key).

(** A scorer returns its points together with the strings it pushes on
    [reasons]; [say] is the push guarded by [phase === "enriched"]. *)
Definition say (phase : Phase) (msg : string) : list string :=
  match phase with
  | enriched => [msg]
  | raw => []
  end.

Definition say_if (b : bool) (phase : Phase) (msg : string) : list string :=
  if b then say phase msg else [].

Definition scoreEmailDomain (input : UniversalLeadInput) (phase : Phase)
  : Z * list string :=
  match truthy (contact_email input) with
  | None => (0, [])
  | Some email =>
      let domain :=
        match split "@" email !! 1%nat with
        | Some d => toLowerCase d
        | None => EmptyString
        end in
      if String.eqb domain EmptyString then (0, [])
      else if array_includes FREE_EMAIL_DOMAINS domain
      then (0, say phase ("Free email: " +:+ domain +:+ " (+0)"))
      else (15, say phase ("Corporate email: " +:+ domain +:+ " (+15)"))
  end.

Definition scoreCompanySize (input : UniversalLeadInput) (phase : Phase)
  : Z * list string :=
  match truthy (company_employee_band input) with
  | None => (0, [])
  | Some band =>
      let score := points_of employeeBandScores band in
      (score, say_if (0 <? score)%Z phase
                ("Company size: " +:+ band +:+ " employees (+" +:+ pretty score +:+ ")"))
  end.

Definition scoreRevenue (input : UniversalLeadInput) (phase : Phase)
  : Z * list string :=
  match truthy (company_revenue_band input) with
  | None => (0, [])
  | Some band =>
      let score := points_of revenueBandScores band in
      (score, say_if (0 <? score)%Z phase
                ("Revenue: " +:+ band +:+ " (+" +:+ pretty score +:+ ")"))
  end.

Definition cSuiteKeywords : list string :=
  ["ceo"; "cto"; "cfo"; "coo"; "cmo"; "chief"; "founder"; "owner"; "president"].
Definition vpKeywords : list string := ["vp"; "vice president"; "head of"].
Definition directorKeywords : list string := ["director"].
Definition managerKeywords : list string := ["manager"; "lead"; "senior"].

Definition scoreSeniority (input : UniversalLeadInput) (phase : Phase)
  : Z * list string :=
  match truthy (contact_role_seniority input) with
  | Some seniority =>
      let score := points_of seniorityScores seniority in
      (score, say_if (0 <? score)%Z phase
                ("Seniority: " +:+ seniority +:+ " (+" +:+ pretty score +:+ ")"))
  | None =>
      match truthy (contact_title_raw input) with
      | None => (0, [])
      | Some title =>
          let titleLower := toLowerCase title in
          if some_includes titleLower cSuiteKeywords
          then (30, say phase ("Title: " +:+ title +:+ " → C-Level (+30)"))
          else if some_includes titleLower vpKeywords
          then (20, say phase ("Title: " +:+ title +:+ " → VP (+20)"))
          else if some_includes titleLower directorKeywords
          then (15, say phase ("Title: " +:+ title +:+ " → Director (+15)"))
          else if some_includes titleLower managerKeywords
          then (10, say phase ("Title: " +:+ title +:+ " → Manager (+10)"))
          else (0, [])
      end
  end.

(** [list.some(x => s.includes(x.toLowerCase()))] behind [list.length > 0]. *)
Definition matches_any (s : string) (entries : list string) : bool :=
  (0 <? length entries)%nat &&
  existsb (fun e => includes s (toLowerCase e)) entries.

Definition scoreIndustry (input : UniversalLeadInput)
    (priorityIndustries : list string) (phase : Phase) : Z * list string :=
  match truthy (company_industry input) with
  | None => (0, [])
  | Some industry =>
      let industryLower := toLowerCase industry in
      if matches_any industryLower priorityIndustries
      then (20, say phase ("Priority industry: " +:+ industry +:+ " (+20)"))
      else if some_includes industryLower HIGH_VALUE_INDUSTRIES
      then (15, say phase ("High-value industry: " +:+ industry +:+ " (+15)"))
      else if some_includes industryLower MEDIUM_VALUE_INDUSTRIES
      then (8, say phase ("Industry: " +:+ industry +:+ " (+8)"))
      else (0, [])
  end.

Definition scoreLeadSource (input : UniversalLeadInput) (phase : Phase)
  : Z * list string :=
  match truthy (lead_source input) with
  | None => (0, [])
  | Some source =>
      let sourceLower := toLowerCase source in
      if some_includes sourceLower HIGH_QUALITY_SOURCES
      then (15, say phase ("Lead source: " +:+ source +:+ " (+15)"))
      else if some_includes sourceLower MEDIUM_QUALITY_SOURCES
      then (8, say phase ("Lead source: " +:+ source +:+ " (+8)"))
      else (0, [])
  end.

Definition scoreUseCase (input : UniversalLeadInput)
    (priorityUseCases : list string) (phase : Phase) : Z * list string :=
  match truthy (primary_use_case input) with
  | None => (0, [])
  | Some useCase =>
      let useCaseLower := toLowerCase useCase in
      if matches_any useCaseLower priorityUseCases
      then (15, say phase ("Priority use case: " +:+ useCase +:+ " (+15)"))
      else (5, say phase ("Use case provided: " +:+ useCase +:+ " (+5)"))
  end.

Definition scoreUrgency (input : UniversalLeadInput) (phase : Phase)
  : Z * list string :=
  match truthy (urgency_band input) with
  | None => (0, [])
  | Some band =>
      let score := points_of urgencyScores band in
      (score, say_if (0 <? score)%Z phase
                ("Urgency: " +:+ band +:+ " (+" +:+ pretty score +:+ ")"))
  end.

Definition scoreDealBand (input : UniversalLeadInput) (phase : Phase)
  : Z * list string :=
  match truthy (estimated_deal_band input) with
  | None => (0, [])
  | Some band =>
      let score := points_of dealScores band in
      (score, say_if (0 <? score)%Z phase
                ("Deal size: " +:+ band +:+ " (+" +:+ pretty score +:+ ")"))
  end.

Definition scoreRegion (input : UniversalLeadInput)
    (excludedRegions : list string) (phase : Phase) : Z * list string :=
  if (length excludedRegions =? 0)%nat then (0, [])
  else
    match truthy (or_else (company_region input) (contact_geo input)) with
    | None => (0, [])
    | Some region =>
        let regionLower := toLowerCase region in
        if existsb (fun er => includes regionLower (toLowerCase er)) excludedRegions
        then (-20, say phase ("Excluded region: " +:+ region +:+ " (-20)"))
        else (0, [])
    end.

Definition determineTier (score : Z) (hotThreshold warmThreshold : Q) : LeadTier :=
  if Qle_bool hotThreshold (inject_Z score) then Hot
  else if Qle_bool warmThreshold (inject_Z score) then Warm
  else Cold.

Record ScoreComputeResult : Type := mkScoreComputeResult {
  cs_score : Z;
  cs_tier : LeadTier;
  cs_breakdown : gmap string Z;
  cs_reasons : list string
}.

(** [weights.key].  [scoreLeadDual], the only caller of [computeScore],
    passes [{...BASE_WEIGHTS, ...overrides}], in which every key that is
    read is bound; the default is the [BASE_WEIGHTS] entry. *)
Definition weight_of (weights : gmap string Q) (key : string) : Q :=
  default 1%Q (weights !! key).

(** [Math.round(points * weights.key)] *)
Definition weighted (weights : gmap string Q) (key : string) (points : Z) : Z :=
  Math_round (inject_Z points * weight_of weights key).

(** One block of [computeScore]:
    [if (guard) { breakdown.key = value; totalScore += value; }]
    on the pair of the breakdown and the running total. *)
Definition record_signal (key : string) (guard : bool) (value : Z)
    (st : gmap string Z * Z) : gmap string Z * Z :=
  if guard then (<[key := value]> st.1, st.2 + value) else st.

(** The breakdown and [totalScore] of [computeScore] before clamping. *)
Definition accumulate (input : UniversalLeadInput) (config : TenantScoringConfig)
    (weights : gmap string Q) (phase : Phase) : gmap string Z * Z :=
  let emailScore := (scoreEmailDomain input phase).1 in
  let st := record_signal "email_domain" (0 <? emailScore)%Z
              (weighted weights "email_domain" emailScore) (∅, 0) in
  let sizeScore := (scoreCompanySize input phase).1 in
  let st := record_signal "company_size" (0 <? sizeScore)%Z
              (weighted weights "company_size" sizeScore) st in
  let revenueScore := (scoreRevenue input phase).1 in
  let st := record_signal "revenue" (0 <? revenueScore)%Z
              (weighted weights "revenue" revenueScore) st in
  let seniorityScore := (scoreSeniority input phase).1 in
  let st := record_signal "seniority" (0 <? seniorityScore)%Z
              (weighted weights "seniority" seniorityScore) st in
  let industryScore :=
    (scoreIndustry input (priority_industries config) phase).1 in
  let st := record_signal "industry" (negb (industryScore =? 0)%Z)
              (weighted weights "industry" industryScore) st in
  let sourceScore := (scoreLeadSource input phase).1 in
  let st := record_signal "lead_source" (0 <? sourceScore)%Z
              (weighted weights "lead_source" sourceScore) st in
  let useCaseScore :=
    (scoreUseCase input (priority_use_cases config) phase).1 in
  let st := record_signal "use_case" (0 <? useCaseScore)%Z
              (weighted weights "use_case" useCaseScore) st in
  let urgencyScore := (scoreUrgency input phase).1 in
  let st := record_signal "urgency" (0 <? urgencyScore)%Z
              (weighted weights "urgency" urgencyScore) st in
  let dealScore := (scoreDealBand input phase).1 in
  let st := record_signal "deal_band" (0 <? dealScore)%Z
              (weighted weights "deal_band" dealScore) st in
  let regionPenalty :=
    (scoreRegion input (excluded_regions config) phase).1 in
  record_signal "region_penalty" (regionPenalty <? 0)%Z regionPenalty st.

(** What the ten scorers push on [reasons], in call order. *)
Definition collect_reasons (input : UniversalLeadInput)
    (config : TenantScoringConfig) (phase : Phase) : list string :=
  (scoreEmailDomain input phase).2 ++
  (scoreCompanySize input phase).2 ++
  (scoreRevenue input phase).2 ++
  (scoreSeniority input phase).2 ++
  (scoreIndustry input (priority_industries config) phase).2 ++
  (scoreLeadSource input phase).2 ++
  (scoreUseCase input (priority_use_cases config) phase).2 ++
  (scoreUrgency input phase).2 ++
  (scoreDealBand input phase).2 ++
  (scoreRegion input (excluded_regions config) phase).2.

Definition computeScore (input : UniversalLeadInput)
    (config : TenantScoringConfig) (weights : gmap string Q) (phase : Phase)
  : ScoreComputeResult :=
  let st := accumulate input config weights phase in
  let finalScore := Z.max 0 (Z.min 100 st.2) in
  {| cs_score := finalScore;
     cs_tier := determineTier finalScore (hot_threshold config) (warm_threshold config);
     cs_breakdown := st.1;
     cs_reasons := collect_reasons input config phase |}.

(** The loop of [computeDimensions]: one entry of the breakdown. *)
Definition add_to_dimension (key : string) (value : Z)
    (sums : DimensionBreakdown) : DimensionBreakdown :=
  match DIMENSION_MAPPING !! key with
  | Some dimension =>
      if (0 <? value)%Z then
        match dimension with
        | DFit => mkDimensions (fit sums + value) (intent sums) (timing sums)
        | DIntent => mkDimensions (fit sums) (intent sums + value) (timing sums)
        | DTiming => mkDimensions (fit sums) (intent sums) (timing sums + value)
        end
      else sums
  | None => sums
  end.

(** [dimensionSums] after the loop over [Object.entries(breakdown)]. *)
Definition dimensionSums (breakdown : gmap string Z) : DimensionBreakdown :=
  map_fold add_to_dimension (mkDimensions 0 0 0) breakdown.

(** [Math.min(100, Math.round((sum / max) * 100))] *)
Definition normalize (sum : Z) (max : Q) : Z :=
  Z.min 100 (Math_round ((inject_Z sum / max) * 100)).

Definition computeDimensions (breakdown : gmap string Z) : DimensionBreakdown :=
  let sums := dimensionSums breakdown in
  {| fit := normalize (fit sums) 95;
     intent := normalize (intent sums) 35;
     timing := normalize (timing sums) 20 |}.

(** [scoreLeadDual]; [tenantConfig] is optional. *)
Definition scoreLeadDual (rawLead enrichedLead : UniversalLeadInput)
    (tenantConfig : opt TenantScoringConfig) : ScoringResult :=
  let config :=
    match tenantConfig with
    | val c => c
    | _ => getDefaultScoringConfig
    end in
  let weights := weight_overrides config ∪ BASE_WEIGHTS in
  let rawResult := computeScore rawLead config weights raw in
  let enrichedResult := computeScore enrichedLead config weights enriched in
  let lift := cs_score enrichedResult - cs_score rawResult in
  let dimensions := computeDimensions (cs_breakdown enrichedResult) in
  {| score := cs_score enrichedResult;
     tier := cs_tier enrichedResult;
     raw_score := cs_score rawResult;
     raw_tier := cs_tier rawResult;
     enriched_score := cs_score enrichedResult;
     enriched_tier := cs_tier enrichedResult;
     lift := lift;
     result_scoring_version := SCORING_VERSION;
     score_breakdown := cs_breakdown enrichedResult;
     raw_breakdown := cs_breakdown rawResult;
     dimensions := dimensions;
     reasons := cs_reasons enrichedResult |}.

(** The legacy single-record entry point. *)
Definition scoreLead (input : UniversalLeadInput)
    (tenantConfig : opt TenantScoringConfig) : ScoringResult :=
  scoreLeadDual input input tenantConfig.

(* ===================================================================== *)
(** ** Schema mappers: detectors and band conversions (mappers/*.ts) *)
(* ===================================================================== *)

(** What a mapper returns: the canonical record and the external id
    ([JNull] when there is none). *)
Record MapResult : Type := mkMapResult {
  universal : UniversalLeadInput;
  externalId : json
}.

Module Salesforce.

Definition isSalesforcePayload (payload : gmap string json) : bool :=
  is_string (payload !! "LastName") ||
  is_string (payload !! "Company") ||
  is_number (payload !! "NumberOfEmployees") ||
  is_number (payload !! "AnnualRevenue") ||
  match payload !! "Id" with
  | Some (JStr id) => (String.length id =? 18)%nat
  | _ => false
  end.

Definition mapEmployeeCountToBand (count : opt num) : opt string :=
  match count with
  | undefined | null => undefined
  | val count =>
      if le count 10 then val "1-10"
      else if le count 50 then val "11-50"
      else if le count 200 then val "51-200"
      else if le count 1000 then val "201-1000"
      else val "1000+"
  end.

Definition mapRevenueToBand (revenue : opt num) : opt string :=
  match revenue with
  | undefined | null => undefined
  | val revenue =>
      if lt revenue 1000000 then val "<1M"
      else if lt revenue 10000000 then val "1-10M"
      else if lt revenue 50000000 then val "10-50M"
      else if lt revenue 250000000 then val "50-250M"
      else val "250M+"
  end.

End Salesforce.

Module HubSpot.

Definition isHubSpotPayload (payload : gmap string json) : bool :=
  is_number (payload !! "vid") ||
  is_object (payload !! "properties") ||
  is_string (payload !! "firstname") ||
  is_string (payload !! "lastname") ||
  is_string (payload !! "jobtitle") ||
  is_string (payload !! "lifecyclestage") ||
  is_string (payload !! "hs_lead_status").

Definition mapEmployeeCountToBand (count : opt num) : opt string :=
  match count with
  | undefined | null => undefined
  | val count =>
      if isNaN count then undefined
      else if le count 10 then val "1-10"
      else if le count 50 then val "11-50"
      else if le count 200 then val "51-200"
      else if le count 1000 then val "201-1000"
      else val "1000+"
  end.

Definition mapRevenueToBand (revenue : opt num) : opt string :=
  match revenue with
  | undefined | null => undefined
  | val revenue =>
      if isNaN revenue then undefined
      else if lt revenue 1000000 then val "<1M"
      else if lt revenue 10000000 then val "1-10M"
      else if lt revenue 50000000 then val "10-50M"
      else if lt revenue 250000000 then val "50-250M"
      else val "250M+"
  end.

End HubSpot.

Module Pipedrive.

(** [Array.isArray(v) && v[0]?.value !== undefined] *)
Definition first_has_value (v : option json) : bool :=
  match v with
  | Some (JArr (JObj kvs :: _)) => bool_decide (is_Some (get_prop "value" kvs))
  | _ => false
  end.

Definition isPipedrivePayload (payload : gmap string json) : bool :=
  is_number (payload !! "person_id") ||
  is_number (payload !! "org_id") ||
  match payload !! "org_id" with
  | Some (JArr _) | Some (JObj _) => true
  | _ => false
  end ||
  is_string (payload !! "org_name") ||
  is_number (payload !! "owner_id") ||
  first_has_value (payload !! "email") ||
  first_has_value (payload !! "phone").

End Pipedrive.

(* ===================================================================== *)
(** ** Payload classifier (routes/enrichLead.ts) *)
(* ===================================================================== *)

Inductive SourceCRM : Type := salesforce | hubspot | pipedrive | api.

Definition source_name (s : SourceCRM) : string :=
  match s with
  | salesforce => "salesforce"
  | hubspot => "hubspot"
  | pipedrive => "pipedrive"
  | api => "api"
  end.

Record Detected : Type := mkDetected {
  source : SourceCRM;
  universalInput : UniversalLeadInput;
  detectedExternalId : json
}.

(** [hintedSource === name], with [hintedSource = payload._source]. *)
Definition hinted (payload : gmap string json) (name : string) : bool :=
  match payload !! "_source" with
  | Some (JStr s) => String.eqb s name
  | _ => false
  end.

Section Classifier.

(** The four mapping functions.  Their bodies (URL parsing, regular
    expressions) play no part in the selection, which is what is studied
    here: the classifier is stated for arbitrary mappers. *)
Variable mapSalesforceToUniversal : gmap string json -> MapResult.
Variable mapHubSpotToUniversal : gmap string json -> MapResult.
Variable mapPipedriveToUniversal : gmap string json -> MapResult.
Variable mapRawToUniversal : gmap string json -> UniversalLeadInput.

Definition detectAndMap (payload : gmap string json) : Detected :=
  if hinted payload "salesforce" || Salesforce.isSalesforcePayload payload then
    let result := mapSalesforceToUniversal payload in
    mkDetected salesforce (universal result) (externalId result)
  else if hinted payload "hubspot" || HubSpot.isHubSpotPayload payload then
    let result := mapHubSpotToUniversal payload in
    mkDetected hubspot (universal result) (externalId result)
  else if hinted payload "pipedrive" || Pipedrive.isPipedrivePayload payload then
    let result := mapPipedriveToUniversal payload in
    mkDetected pipedrive (universal result) (externalId result)
  else
    mkDetected api (mapRawToUniversal payload)
      match payload !! "external_id" with
      | Some v => if json_truthy v then v else JNull
      | None => JNull
      end.

End Classifier.

(* ===================================================================== *)
(** ** Definitions used by the statements, and example inputs *)
(* ===================================================================== *)

(** The weighted points one block adds to [totalScore]. *)
Definition contribution (guard : bool) (value : Z) : Z :=
  if guard then value else 0.

(** The sum of the weighted points of the ten signals. *)
Definition weighted_points_sum (input : UniversalLeadInput)
    (config : TenantScoringConfig) (weights : gmap string Q) (phase : Phase) : Z :=
  let email := (scoreEmailDomain input phase).1 in
  let size := (scoreCompanySize input phase).1 in
  let revenue := (scoreRevenue input phase).1 in
  let seniority := (scoreSeniority input phase).1 in
  let industry := (scoreIndustry input (priority_industries config) phase).1 in
  let source := (scoreLeadSource input phase).1 in
  let useCase := (scoreUseCase input (priority_use_cases config) phase).1 in
  let urgency := (scoreUrgency input phase).1 in
  let deal := (scoreDealBand input phase).1 in
  let region := (scoreRegion input (excluded_regions config) phase).1 in
  contribution (0 <? email)%Z (weighted weights "email_domain" email) +
  contribution (0 <? size)%Z (weighted weights "company_size" size) +
  contribution (0 <? revenue)%Z (weighted weights "revenue" revenue) +
  contribution (0 <? seniority)%Z (weighted weights "seniority" seniority) +
  contribution (negb (industry =? 0)%Z) (weighted weights "industry" industry) +
  contribution (0 <? source)%Z (weighted weights "lead_source" source) +
  contribution (0 <? useCase)%Z (weighted weights "use_case" useCase) +
  contribution (0 <? urgency)%Z (weighted weights "urgency" urgency) +
  contribution (0 <? deal)%Z (weighted weights "deal_band" deal) +
  contribution (region <? 0)%Z region.

(** A positive signal awards nothing or between 5 and 30 points. *)
Definition signal_range (z : Z) : Prop := z = 0 \/ 5 <= z <= 30.

(** The unweighted points of the signal that is recorded under [key]. *)
Definition signal_points (input : UniversalLeadInput)
    (config : TenantScoringConfig) (phase : Phase) (key : string) : Z :=
  if String.eqb key "email_domain" then (scoreEmailDomain input phase).1
  else if String.eqb key "company_size" then (scoreCompanySize input phase).1
  else if String.eqb key "revenue" then (scoreRevenue input phase).1
  else if String.eqb key "seniority" then (scoreSeniority input phase).1
  else if String.eqb key "industry"
  then (scoreIndustry input (priority_industries config) phase).1
  else if String.eqb key "lead_source" then (scoreLeadSource input phase).1
  else if String.eqb key "use_case"
  then (scoreUseCase input (priority_use_cases config) phase).1
  else if String.eqb key "urgency" then (scoreUrgency input phase).1
  else if String.eqb key "deal_band" then (scoreDealBand input phase).1
  else if String.eqb key "region_penalty"
  then (scoreRegion input (excluded_regions config) phase).1
  else 0.

(** What [computeScore] stores for a signal: the rounded weighted points,
    and the penalty itself for the region. *)
Definition recorded_value (weights : gmap string Q) (key : string)
    (points : Z) : Z :=
  if String.eqb key "region_penalty" then points
  else weighted weights key points.

(** A lead with a corporate address, scored by a tenant that switches the
    e-mail signal off with a weight of 0. *)
Definition corporate_lead : UniversalLeadInput :=
  mkLead "acme.com" undefined undefined undefined undefined undefined
    undefined (val "john@acme.com") undefined undefined undefined undefined
    undefined undefined undefined undefined undefined undefined undefined.

Definition email_off_config : TenantScoringConfig :=
  {| scoring_version := "v1";
     weight_overrides := {[ "email_domain" := 0%Q ]};
     priority_industries := [];
     excluded_regions := [];
     priority_use_cases := [];
     hot_threshold := 70;
     warm_threshold := 40 |}.

(** The region as the specification words it: [company_region], and
    [contact_geo] when [company_region] is absent. *)
Definition stated_region (input : UniversalLeadInput) : opt string :=
  nullish (company_region input) (contact_geo input).

(** A lead whose [company_region] is the empty string, and one whose
    [contact_geo] is. *)
Definition empty_region_lead : UniversalLeadInput :=
  mkLead "acme.com" undefined undefined undefined undefined (val EmptyString)
    undefined undefined undefined undefined undefined undefined
    undefined undefined undefined undefined undefined undefined undefined.

Definition empty_geo_lead : UniversalLeadInput :=
  mkLead "acme.com" undefined undefined undefined undefined undefined
    undefined undefined undefined undefined undefined undefined
    undefined (val EmptyString) undefined undefined undefined undefined undefined.

(** The excluded-region lead of the test suite. *)
Definition russian_lead : UniversalLeadInput :=
  mkLead "acme.com" (val "Acme Corp") (val "Technology") (val "201-1000")
    (val "50-250M") (val "Russia") undefined (val "john@acme.com") undefined
    undefined undefined (val "Manager") (val "Sales Manager") undefined
    undefined undefined undefined (val "ThisQuarter") (val "Demo Request").

(** A breakdown with a corporate address and a triggered region penalty. *)
Definition penalised_breakdown : gmap string Z :=
  {[ "email_domain" := 15; "region_penalty" := -20 ]}.

(** The merged field is the original when that is present, and the
    enrichment's otherwise. *)
Definition fills {A} (original enr merged : opt A) : Prop :=
  (present original -> merged = original) /\
  (~ present original -> merged = enr).

(** The breakpoints, as the specification lists them. *)
Definition employee_band_of (q : Q) : string :=
  if Qle_bool q 10 then "1-10"
  else if Qle_bool q 50 then "11-50"
  else if Qle_bool q 200 then "51-200"
  else if Qle_bool q 1000 then "201-1000"
  else "1000+".

Definition revenue_band_of (q : Q) : string :=
  if negb (Qle_bool 1000000 q) then "<1M"
  else if negb (Qle_bool 10000000 q) then "1-10M"
  else if negb (Qle_bool 50000000 q) then "10-50M"
  else if negb (Qle_bool 250000000 q) then "50-250M"
  else "250M+".

(** A payload hinted as HubSpot that carries a [Company] string, and one
    hinted as Pipedrive that carries a [firstname] string. *)
Definition hubspot_hinted_payload : gmap string json :=
  {[ "_source" := JStr "hubspot"; "Company" := JStr "Acme" ]}.

Definition pipedrive_hinted_payload : gmap string json :=
  {[ "_source" := JStr "pipedrive"; "firstname" := JStr "Jane" ]}.

(** A founder, and an enrichment that labels the contact an individual
    contributor. *)
Definition founder_lead : UniversalLeadInput :=
  mkLead "startup.io" undefined undefined undefined undefined undefined
    undefined undefined undefined undefined undefined undefined
    (val "Founder") undefined undefined undefined undefined undefined undefined.

Definition ic_enrichment : PartialLeadInput :=
  mkLead undefined undefined undefined undefined undefined undefined
    undefined undefined undefined undefined undefined (val "IC")
    undefined undefined undefined undefined undefined undefined undefined.

(** The records of the test suite (services/__tests__/scoring.test.ts). *)
Definition baseRawLead : UniversalLeadInput :=
  mkLead "acme.com" (val "Acme Corp") (val "Technology") undefined undefined
    undefined undefined (val "john@acme.com") undefined undefined undefined
    undefined (val "Sales Manager") undefined undefined undefined undefined
    undefined undefined.

Definition enrichedTestLead : UniversalLeadInput :=
  mkLead "acme.com" (val "Acme Corp") (val "Technology") (val "201-1000")
    (val "50-250M") (val "US") undefined (val "john@acme.com") undefined
    undefined undefined (val "Manager") (val "Sales Manager") undefined
    undefined undefined undefined (val "ThisQuarter") (val "Demo Request").

Definition freeEmailLead : UniversalLeadInput :=
  mkLead "gmail.com" undefined undefined undefined undefined undefined
    undefined (val "john@gmail.com") undefined undefined undefined undefined
    undefined undefined undefined undefined undefined undefined undefined.

Definition maxLead : UniversalLeadInput :=
  mkLead "enterprise.com" undefined (val "SaaS") (val "1000+") (val "250M+")
    undefined undefined (val "ceo@enterprise.com") undefined undefined
    undefined (val "C-Level") undefined undefined undefined
    (val "Enterprise automation") (val "Enterprise") (val "ThisMonth")
    (val "Demo Request").

Definition maxBreakdown : gmap string Z :=
  list_to_map
    [("email_domain", 15); ("company_size", 25); ("revenue", 25);
     ("seniority", 30); ("industry", 20); ("lead_source", 15);
     ("use_case", 15); ("deal_band", 15); ("urgency", 20)].

(** The Salesforce-shaped payload of the specification's scenario. *)
Definition salesforce_payload : gmap string json :=
  {[ "LastName" := JStr "Doe"; "Company" := JStr "Acme";
     "NumberOfEmployees" := JNum 5000 ]}.

(* ===================================================================== *)
(** ** The mapping functions on typed payloads (mappers/*.ts, the route) *)
(* ===================================================================== *)

(** [detectAndMap] above treats the mappers as opaque.  Their bodies are
    modelled here on payloads that have the shape their TypeScript
    interfaces declare ([SalesforceLeadPayload], [PipedrivePayload], and
    the canonical field names for the raw pass-through). *)

(** [parts.join(sep)] *)
Fixpoint join (sep : string) (parts : list string) : string :=
  match parts with
  | [] => EmptyString
  | [p] => p
  | p :: rest => p +:+ sep +:+ join sep rest
  end.

(** The characters that [/[^a-z0-9]/g] keeps. *)
Definition is_lower_alnum (c : ascii) : bool :=
  let n := Ascii.N_of_ascii c in
  (((97 <=? n) && (n <=? 122)) || ((48 <=? n) && (n <=? 57)))%N.

(** [s.replace(/[^a-z0-9]/g, "")] *)
Fixpoint strip_non_alnum (s : string) : string :=
  match s with
  | EmptyString => EmptyString
  | String c s' =>
      if is_lower_alnum c then String c (strip_non_alnum s')
      else strip_non_alnum s'
  end.

(** [name.toLowerCase().replace(/[^a-z0-9]/g, "") + ".com"] *)
Definition slug_domain (name : string) : string :=
  strip_non_alnum (toLowerCase name) +:+ ".com".

(** [email.split("@")[1] || ""] *)
Definition email_domain_part (email : string) : string :=
  default EmptyString (split "@" email !! 1%nat).

(** [buildRegion], the same function in the Salesforce and the HubSpot
    mapper. *)
Definition buildRegion (country state : opt string) : opt string :=
  match truthy country, truthy state with
  | Some c, Some s => val (s +:+ ", " +:+ c)
  | Some _, None => country
  | None, Some _ => state
  | None, None => undefined
  end.

Module SalesforceLead.

(** [SalesforceLeadPayload] *)
Record SalesforceLeadPayload : Type := mkPayload {
  Id : opt string;
  FirstName : opt string;
  LastName : opt string;
  Company : opt string;
  Email : opt string;
  Phone : opt string;
  Title : opt string;
  Industry : opt string;
  NumberOfEmployees : opt num;
  AnnualRevenue : opt num;
  LeadSource : opt string;
  Street : opt string;
  City : opt string;
  State : opt string;
  PostalCode : opt string;
  Country : opt string;
  Website : opt string;
  Description : opt string
}.

Section Mapper.

(** [extractDomainFromUrl] rests on the platform's URL parser and is left
    open. *)
Variable extractDomainFromUrl : string -> string.

Definition mapSalesforceToUniversal (sf : SalesforceLeadPayload) : MapResult :=
  let domain :=
    match truthy (Email sf) with
    | Some email => email_domain_part email
    | None =>
        match truthy (Website sf) with
        | Some website => extractDomainFromUrl website
        | None =>
            match truthy (Company sf) with
            | Some company => slug_domain company
            | None => EmptyString
            end
        end
    end in
  let employeeBand := Salesforce.mapEmployeeCountToBand (NumberOfEmployees sf) in
  let revenueBand := Salesforce.mapRevenueToBand (AnnualRevenue sf) in
  let region := buildRegion (Country sf) (State sf) in
  {| universal :=
       {| company_domain := domain;
          company_name := Company sf;
          company_industry := Industry sf;
          company_employee_band := employeeBand;
          company_revenue_band := revenueBand;
          company_region := region;
          company_tech_stack_summary := undefined;
          contact_email := Email sf;
          contact_first_name := FirstName sf;
          contact_last_name := LastName sf;
          contact_role_function := undefined;
          contact_role_seniority := undefined;
          contact_title_raw := Title sf;
          contact_geo := region;
          contact_phone := Phone sf;
          primary_use_case := undefined;
          estimated_deal_band := undefined;
          urgency_band := undefined;
          lead_source := LeadSource sf |};
     externalId :=
       match truthy (Id sf) with
       | Some id => JStr id
       | None => JNull
       end |}.

End Mapper.

End SalesforceLead.

Module PipedriveDeal.

(** One entry of an [email] or [phone] array: [{ value, primary }]. *)
Record ContactEntry : Type := mkEntry {
  entry_value : string;
  entry_primary : bool
}.

(** [string | Array<{ value, primary }>] *)
Inductive Contact : Type :=
| ContactString : string -> Contact
| ContactArray : list ContactEntry -> Contact.

(** [number | { value, name }] *)
Inductive OrgId : Type :=
| OrgNumber : num -> OrgId
| OrgObject : num -> string -> OrgId.

Record Organization : Type := mkOrganization {
  organization_name : opt string;
  organization_address : opt string;
  organization_cc_email : opt string
}.

(** [PipedrivePayload]; the fields carry the prefix [pd_]. *)
Record PipedrivePayload : Type := mkPayload {
  pd_id : opt num;
  pd_person_id : opt num;
  pd_org_id : opt OrgId;
  pd_name : opt string;
  pd_first_name : opt string;
  pd_last_name : opt string;
  pd_email : opt Contact;
  pd_phone : opt Contact;
  pd_title : opt string;
  pd_org_name : opt string;
  pd_organization : opt Organization;
  pd_owner_id : opt num;
  pd_value : opt num;
  pd_currency : opt string
}.

(** [entries.find(e => e.primary) || entries[0]], then [?.value], for a
    non-empty array. *)
Definition primary_value (entries : list ContactEntry) : opt string :=
  match List.find entry_primary entries with
  | Some e => val (entry_value e)
  | None =>
      match entries with
      | e :: _ => val (entry_value e)
      | [] => undefined
      end
  end.

(** The extraction shared by [email] and [phone]. *)
Definition extract_contact (c : opt Contact) : opt string :=
  match c with
  | val (ContactString s) => val s
  | val (ContactArray entries) =>
      if (0 <? length entries)%nat then primary_value entries else undefined
  | _ => undefined
  end.

Definition mapValueToDealBand (value : opt num) : opt string :=
  match value with
  | undefined | null => undefined
  | val value =>
      if lt value 10000 then val "Small"
      else if lt value 100000 then val "Mid"
      else val "Enterprise"
  end.

Section Mapper.

(** [Number.prototype.toString], left open. *)
Variable number_toString : num -> string.

(** [n?.toString()], as an optional string. *)
Definition toString_opt (n : opt num) : opt string :=
  match n with
  | val n => val (number_toString n)
  | _ => undefined
  end.

Definition mapPipedriveToUniversal (pd : PipedrivePayload) : MapResult :=
  let email := extract_contact (pd_email pd) in
  let phone := extract_contact (pd_phone pd) in
  let companyName :=
    match truthy (pd_org_name pd) with
    | Some _ => pd_org_name pd
    | None =>
        match pd_org_id pd with
        | val (OrgObject _ name) =>
            if negb (String.eqb name EmptyString) then val name
            else
              match pd_organization pd with
              | val org =>
                  match truthy (organization_name org) with
                  | Some _ => organization_name org
                  | None => undefined
                  end
              | _ => undefined
              end
        | _ =>
            match pd_organization pd with
            | val org =>
                match truthy (organization_name org) with
                | Some _ => organization_name org
                | None => undefined
                end
            | _ => undefined
            end
        end
    end in
  let domain :=
    match truthy email with
    | Some e => email_domain_part e
    | None =>
        match truthy companyName with
        | Some c => slug_domain c
        | None => EmptyString
        end
    end in
  let names :=
    match truthy (pd_first_name pd), truthy (pd_last_name pd), truthy (pd_name pd) with
    | None, None, Some name =>
        let parts := split " " name in
        let rest := join " " (tail parts) in
        (match parts with
         | p :: _ => val p
         | [] => undefined
         end,
         if String.eqb rest EmptyString then undefined else val rest)
    | _, _, _ => (pd_first_name pd, pd_last_name pd)
    end in
  let dealBand := mapValueToDealBand (pd_value pd) in
  {| universal :=
       {| company_domain := domain;
          company_name := companyName;
          company_industry := undefined;
          company_employee_band := undefined;
          company_revenue_band := undefined;
          company_region := undefined;
          company_tech_stack_summary := undefined;
          contact_email := email;
          contact_first_name := names.1;
          contact_last_name := names.2;
          contact_role_function := undefined;
          contact_role_seniority := undefined;
          contact_title_raw := pd_title pd;
          contact_geo := undefined;
          contact_phone := phone;
          primary_use_case := undefined;
          estimated_deal_band := dealBand;
          urgency_band := undefined;
          lead_source := undefined |};
     externalId :=
       match truthy (toString_opt (pd_person_id pd)) with
       | Some s => JStr s
       | None =>
           match truthy (toString_opt (pd_id pd)) with
           | Some s => JStr s
           | None => JNull
           end
       end |}.

End Mapper.

End PipedriveDeal.

Module RawPayload.

(** [mapRawToUniversal] on a payload that uses the canonical field names:
    a [Partial<UniversalLeadInput>]. *)
Definition mapRawToUniversal (payload : PartialLeadInput) : UniversalLeadInput :=
  let domain := company_domain payload in
  let email := contact_email payload in
  let domain :=
    match truthy domain, truthy email with
    | None, Some e =>
        match split "@" e !! 1%nat with
        | Some d => val d
        | None => undefined
        end
    | _, _ => domain
    end in
  {| company_domain :=
       match truthy domain with
       | Some d => d
       | None => EmptyString
       end;
     company_name := company_name payload;
     company_industry := company_industry payload;
     company_employee_band := company_employee_band payload;
     company_revenue_band := company_revenue_band payload;
     company_region := company_region payload;
     company_tech_stack_summary := company_tech_stack_summary payload;
     contact_email := email;
     contact_first_name := contact_first_name payload;
     contact_last_name := contact_last_name payload;
     contact_role_function := contact_role_function payload;
     contact_role_seniority := contact_role_seniority payload;
     contact_title_raw := contact_title_raw payload;
     contact_geo := contact_geo payload;
     contact_phone := contact_phone payload;
     primary_use_case := primary_use_case payload;
     estimated_deal_band := estimated_deal_band payload;
     urgency_band := urgency_band payload;
     lead_source := lead_source payload |}.

End RawPayload.

(* ===================================================================== *)
(** ** Stub enrichment, persistence view and the route (services, db, routes) *)
(* ===================================================================== *)

Module Enrichment.

Definition inferManagerKeywords : list string := ["manager"; "lead"].

(** [inferSeniorityFromTitle] of services/enrichment.ts. *)
Definition inferSeniorityFromTitle (title : string) : opt string :=
  let titleLower := toLowerCase title in
  if some_includes titleLower cSuiteKeywords then val "C-Level"
  else if some_includes titleLower vpKeywords then val "VP"
  else if some_includes titleLower directorKeywords then val "Director"
  else if some_includes titleLower inferManagerKeywords then val "Manager"
  else val "IC".

Section Stub.

(** [inferFunctionFromTitle] is a chain of regular-expression tests and is
    left open; scoring never reads [contact_role_function]. *)
Variable inferFunctionFromTitle : string -> opt string.

(** What [stubEnrichment] resolves to (the simulated delay is dropped). *)
Definition stubEnrichment (input : UniversalLeadInput) : PartialLeadInput :=
  let seniority :=
    match truthy (contact_role_seniority input), truthy (contact_title_raw input) with
    | None, Some title => inferSeniorityFromTitle title
    | _, _ => undefined
    end in
  let function :=
    match truthy (contact_role_function input), truthy (contact_title_raw input) with
    | None, Some title => inferFunctionFromTitle title
    | _, _ => undefined
    end in
  {| company_domain := undefined;
     company_name := undefined;
     company_industry := undefined;
     company_employee_band := undefined;
     company_revenue_band := undefined;
     company_region := undefined;
     company_tech_stack_summary := undefined;
     contact_email := undefined;
     contact_first_name := undefined;
     contact_last_name := undefined;
     contact_role_function := function;
     contact_role_seniority := seniority;
     contact_title_raw := undefined;
     contact_geo := undefined;
     contact_phone := undefined;
     primary_use_case := undefined;
     estimated_deal_band := undefined;
     urgency_band := undefined;
     lead_source := undefined |}.

End Stub.

End Enrichment.

(** [x ?? null] *)
Definition or_null {A} (a : opt A) : opt A := nullish a null.

(** db/leads.ts, [universalInputToLeadInsert]: the lead columns, then
    [external_source] and [raw_input]. *)
Record LeadInsertFields : Type := mkLeadInsert {
  insert_lead : UniversalLeadInput;
  insert_external_source : opt string;
  insert_raw_input : opt (gmap string json)
}.

Definition universalInputToLeadInsert (input : UniversalLeadInput)
    (external_source : opt string) (raw_input : opt (gmap string json))
  : LeadInsertFields :=
  {| insert_lead :=
       {| company_domain := company_domain input;
          company_name := or_null (company_name input);
          company_industry := or_null (company_industry input);
          company_employee_band := or_null (company_employee_band input);
          company_revenue_band := or_null (company_revenue_band input);
          company_region := or_null (company_region input);
          company_tech_stack_summary := or_null (company_tech_stack_summary input);
          contact_email := or_null (contact_email input);
          contact_first_name := or_null (contact_first_name input);
          contact_last_name := or_null (contact_last_name input);
          contact_role_function := or_null (contact_role_function input);
          contact_role_seniority := or_null (contact_role_seniority input);
          contact_title_raw := or_null (contact_title_raw input);
          contact_geo := or_null (contact_geo input);
          contact_phone := or_null (contact_phone input);
          primary_use_case := or_null (primary_use_case input);
          estimated_deal_band := or_null (estimated_deal_band input);
          urgency_band := or_null (urgency_band input);
          lead_source := or_null (lead_source input) |};
     insert_external_source := or_null external_source;
     insert_raw_input := or_null raw_input |}.

(** The enrich-lead handler after [detectAndMap], with the result of the
    enrichment call passed in: the validation of [company_domain], the
    merge and the dual scoring.  Identifiers, persistence and timing are
    left out. *)
Inductive RouteOutcome : Type :=
| BadRequest : string -> RouteOutcome
| Scored : UniversalLeadInput -> ScoringResult -> RouteOutcome.

Definition enrichAndScore (universalInput : UniversalLeadInput)
    (enrichedData : PartialLeadInput) (tenantConfig : TenantScoringConfig)
  : RouteOutcome :=
  if String.eqb (company_domain universalInput) EmptyString then
    BadRequest
      "Missing required field: company_domain (or Company/Email for auto-detection)"
  else
    let rawLead := universalInput in
    let enrichedLead := mergeEnrichment universalInput enrichedData in
    Scored enrichedLead (scoreLeadDual rawLead enrichedLead (val tenantConfig)).

(* ===================================================================== *)
(** ** Further definitions used by the statements *)
(* ===================================================================== *)

(** What the scorers can see of a lead: the truthy values of the twelve
    fields they read. *)
Record ScoredView : Type := mkView {
  view_email : option string;
  view_employee_band : option string;
  view_revenue_band : option string;
  view_seniority : option string;
  view_title : option string;
  view_industry : option string;
  view_lead_source : option string;
  view_use_case : option string;
  view_urgency : option string;
  view_deal_band : option string;
  view_region : option string;
  view_geo : option string
}.

Definition scored_view (input : UniversalLeadInput) : ScoredView :=
  {| view_email := truthy (contact_email input);
     view_employee_band := truthy (company_employee_band input);
     view_revenue_band := truthy (company_revenue_band input);
     view_seniority := truthy (contact_role_seniority input);
     view_title := truthy (contact_title_raw input);
     view_industry := truthy (company_industry input);
     view_lead_source := truthy (lead_source input);
     view_use_case := truthy (primary_use_case input);
     view_urgency := truthy (urgency_band input);
     view_deal_band := truthy (estimated_deal_band input);
     view_region := truthy (company_region input);
     view_geo := truthy (contact_geo input) |}.

(** Cold below Warm below Hot. *)
Definition tier_rank (t : LeadTier) : Z :=
  match t with
  | Cold => 0
  | Warm => 1
  | Hot => 2
  end.

(** The component of a [DimensionBreakdown] a dimension names. *)
Definition dimension_of (d : Dimension) (sums : DimensionBreakdown) : Z :=
  match d with
  | DFit => fit sums
  | DIntent => intent sums
  | DTiming => timing sums
  end.

(** The points of the title keywords as [scoreSeniority] awards them. *)
Definition title_points (title : string) : Z :=
  let titleLower := toLowerCase title in
  if some_includes titleLower cSuiteKeywords then 30
  else if some_includes titleLower vpKeywords then 20
  else if some_includes titleLower directorKeywords then 15
  else if some_includes titleLower managerKeywords then 10
  else 0.

(** The points of the seniority the stub infers from a title. *)
Definition inferred_points (title : string) : Z :=
  let titleLower := toLowerCase title in
  if some_includes titleLower cSuiteKeywords then 30
  else if some_includes titleLower vpKeywords then 20
  else if some_includes titleLower directorKeywords then 15
  else if some_includes titleLower Enrichment.inferManagerKeywords then 10
  else 5.

(** An enrichment that provides nothing. *)
Definition no_enrichment : PartialLeadInput := bare_lead undefined.

(** The deal band of a finite value, as the breakpoints read. *)
Definition deal_band_of (q : Q) : string :=
  if negb (Qle_bool 10000 q) then "Small"
  else if negb (Qle_bool 100000 q) then "Mid"
  else "Enterprise".

(** An enrichment that only fills the employee band, and a tenant that
    doubles the seniority signal. *)
Definition size_enrichment : PartialLeadInput :=
  mkLead undefined undefined undefined (val "201-1000") undefined undefined
    undefined undefined undefined undefined undefined undefined undefined
    undefined undefined undefined undefined undefined undefined.

Definition seniority_boost_config : TenantScoringConfig :=
  {| scoring_version := "v1";
     weight_overrides := {[ "seniority" := 2%Q ]};
     priority_industries := ["tech"];
     excluded_regions := [];
     priority_use_cases := [];
     hot_threshold := 70;
     warm_threshold := 40 |}.

(** A tenant whose thresholds are inverted. *)
Definition inverted_config : TenantScoringConfig :=
  {| scoring_version := "v1";
     weight_overrides := ∅;
     priority_industries := [];
     excluded_regions := [];
     priority_use_cases := [];
     hot_threshold := 40;
     warm_threshold := 70 |}.

#[global] Instance Dimension_eq_dec : EqDecision Dimension.
Proof. solve_decision. Defined.

(** The optional string fields of a lead. *)
Definition string_fields : list (UniversalLeadInput -> opt string) :=
  [company_name; company_industry; company_employee_band;
   company_revenue_band; company_region; contact_email; contact_first_name;
   contact_last_name; contact_role_function; contact_role_seniority;
   contact_title_raw; contact_geo; contact_phone; primary_use_case;
   estimated_deal_band; urgency_band; lead_source].

(** A lead titled "Senior Engineer", whose seniority the stub infers. *)
Definition senior_engineer_lead : UniversalLeadInput :=
  mkLead "acme.com" undefined undefined undefined undefined undefined
    undefined undefined undefined undefined undefined undefined
    (val "Senior Engineer") undefined undefined undefined undefined undefined
    undefined.

(** Every character of [s] satisfies [p]. *)
Fixpoint all_chars (p : ascii -> bool) (s : string) : bool :=
  match s with
  | EmptyString => true
  | String c s' => p c && all_chars p s'
  end.

(** [s] does not contain the character [c]. *)
Definition lacks (c : ascii) (s : string) : bool :=
  all_chars (fun x => negb (Ascii.eqb x c)) s.

(** The points the scorer awards the band of a head count, of a revenue
    and of a deal value. *)
Definition employee_points (q : Q) : Z :=
  points_of employeeBandScores (employee_band_of q).

Definition revenue_points (q : Q) : Z :=
  points_of revenueBandScores (revenue_band_of q).

Definition deal_points (q : Q) : Z :=
  points_of dealScores (deal_band_of q).

(** A Salesforce lead that only names a company without letters or
    digits, and one whose address lacks the at sign. *)
Definition symbols_only_lead : SalesforceLead.SalesforceLeadPayload :=
  SalesforceLead.mkPayload undefined undefined (val "Doe") (val "!!!")
    undefined undefined undefined undefined (val (Fin 5000)) (val (Fin 2000000))
    undefined undefined undefined undefined undefined undefined undefined
    undefined.

Definition no_at_lead : SalesforceLead.SalesforceLeadPayload :=
  SalesforceLead.mkPayload undefined undefined (val "Doe") (val "Acme")
    (val "john.acme.com") undefined undefined undefined undefined undefined
    undefined undefined undefined undefined undefined undefined
    (val "https://acme.com") undefined.

(** A Pipedrive person with two addresses, the second one primary, and a
    full name only. *)
Definition pipedrive_person : PipedriveDeal.PipedrivePayload :=
  PipedriveDeal.mkPayload undefined (val (Fin 7)) undefined
    (val "Jane van Doe") undefined undefined
    (val (PipedriveDeal.ContactArray
            [PipedriveDeal.mkEntry "old@acme.com" false;
             PipedriveDeal.mkEntry "jane@acme.com" true]))
    undefined undefined (val "Acme") undefined undefined (val (Fin 20000))
    undefined.

(** A raw payload that only carries an address. *)
Definition raw_email_payload : PartialLeadInput :=
  mkLead undefined undefined undefined undefined undefined undefined
    undefined (val "john@acme.com") undefined undefined undefined undefined
    undefined undefined undefined undefined undefined undefined undefined.

(* ===================================================================== *)
(** ** The first scoring function, on Salesforce requests (scoring.ts) *)
(* ===================================================================== *)

(** The service's first [scoreLead] works on the Salesforce request
    itself.  Two versions are kept in the sources: the first pushes fixed
    reason strings and tests numbers for truthiness, the second quotes the
    values in its reasons and tests numbers for [undefined] and [null]. *)
Module Legacy.

(** [EnrichLeadRequest] of types/salesforce.ts. *)
Record EnrichLeadRequest : Type := mkRequest {
  FirstName : opt string;
  LastName : string;
  Company : string;
  Email : opt string;
  Phone : opt string;
  Title : opt string;
  Industry : opt string;
  NumberOfEmployees : opt num;
  AnnualRevenue : opt num;
  LeadSource : opt string
}.

Inductive Tier : Type := low | medium | high.

(** [Omit<EnrichLeadResponse, "decisionId">] *)
Record Response : Type := mkResponse {
  score : Z;
  tier : Tier;
  reasons : list string;
  estimatedArr : Z
}.

(** [x >= c]: false for NaN. *)
Definition ge (x : num) (c : Q) : bool :=
  match x with
  | NaN => false
  | Fin q => Qle_bool c q
  end.

(** Truthiness of an optional number: [undefined], [null], 0 and NaN are
    falsy. *)
Definition truthy_num (x : opt num) : option num :=
  match x with
  | val (Fin q) => if Qeq_bool q 0 then None else Some (Fin q)
  | _ => None
  end.

(** A number that is neither [undefined] nor [null]. *)
Definition defined_num (x : opt num) : option num :=
  match x with
  | val n => Some n
  | _ => None
  end.

Definition is_space (c : ascii) : bool :=
  let n := Ascii.N_of_ascii c in
  (((9 <=? n) && (n <=? 13)) || (n =? 32))%N.

Fixpoint drop_spaces (l : list ascii) : list ascii :=
  match l with
  | c :: l' => if is_space c then drop_spaces l' else l
  | [] => []
  end.

(** [s.trim()], for the ASCII white space. *)
Definition trim (s : string) : string :=
  string_of_list_ascii
    (rev (drop_spaces (rev (drop_spaces (list_ascii_of_string s))))).

Definition freeDomains : list string :=
  ["gmail.com"; "yahoo.com"; "outlook.com"; "hotmail.com";
   "icloud.com"; "aol.com"; "proton.me"; "protonmail.com"].

Definition legacyCSuiteKeywords : list string :=
  ["ceo"; "cto"; "cfo"; "coo"; "cmo"; "chief"; "founder"; "owner"; "president"].
Definition legacyVpKeywords : list string :=
  ["vp"; "vice president"; "head of"; "director"].
Definition legacyManagerKeywords : list string := ["manager"; "lead"; "senior"].

Definition highValueIndustries : list string :=
  ["technology"; "software"; "finance"; "healthcare"; "saas"].
Definition mediumValueIndustries : list string :=
  ["manufacturing"; "retail"; "consulting"; "professional services"].

Definition highQualitySources : list string :=
  ["referral"; "partner"; "event"; "conference"; "demo request"].
Definition mediumQualitySources : list string :=
  ["website"; "webinar"; "content download"].

(** [input.Email.split("@")[1]?.toLowerCase() || ""] *)
Definition emailDomainOf (email : string) : string :=
  match split "@" email !! 1%nat with
  | Some d => toLowerCase d
  | None => EmptyString
  end.

(** [input.Company && input.Company.trim().length > 2] *)
Definition company_given (company : string) : bool :=
  negb (String.eqb company EmptyString) && (2 <? String.length (trim company))%nat.

(** The tier of a score: [high >= 70], [medium >= 40], else [low]. *)
Definition tier_of (score : Z) : Tier :=
  if (70 <=? score)%Z then high
  else if (40 <=? score)%Z then medium
  else low.

(** The base of the estimated ARR from the head count. *)
Definition arr_of_employees (n : num) : Z :=
  if ge n 1000 then 50000
  else if ge n 200 then 25000
  else if ge n 50 then 12000
  else 5000.

(** [score >= 70 ? 20000 : score >= 40 ? 10000 : 5000] *)
Definition arr_of_score (score : Z) : Z :=
  if (70 <=? score)%Z then 20000
  else if (40 <=? score)%Z then 10000
  else 5000.

(** The adjustment by revenue that closes both versions. *)
Definition adjust_arr (revenue : opt num) (estimatedArr : Z) : Z :=
  match truthy_num revenue with
  | Some r =>
      if ge r 10000000 then Math_round (inject_Z estimatedArr * (3 # 2))
      else estimatedArr
  | None => estimatedArr
  end.

(** The sum of the points and the reasons of the blocks, in order. *)
Definition total (blocks : list (Z * list string)) : Z * list string :=
  foldr (fun b acc => (b.1 + acc.1, (b.2 ++ acc.2)%list)) (0, []) blocks.

Module V1.

Definition emailBlock (input : EnrichLeadRequest) : Z * list string :=
  match truthy (Email input) with
  | None => (0, [])
  | Some email =>
      let emailDomain := emailDomainOf email in
      if String.eqb emailDomain EmptyString then (0, [])
      else if negb (array_includes freeDomains emailDomain)
      then (15, ["Corporate email domain"])
      else (0, ["Free email provider"])
  end.

Definition employeesBlock (input : EnrichLeadRequest) : Z * list string :=
  match truthy_num (NumberOfEmployees input) with
  | None => (0, [])
  | Some n =>
      if ge n 1000 then (25, ["Enterprise company (1000+ employees)"])
      else if ge n 200 then (20, ["Mid-market company (200-999 employees)"])
      else if ge n 50 then (10, ["Growing company (50-199 employees)"])
      else (5, ["Small company (<50 employees)"])
  end.

Definition revenueBlock (input : EnrichLeadRequest) : Z * list string :=
  match truthy_num (AnnualRevenue input) with
  | None => (0, [])
  | Some r =>
      if ge r 100000000 then (25, ["High revenue ($100M+)"])
      else if ge r 10000000 then (15, ["Strong revenue ($10M-$100M)"])
      else if ge r 1000000 then (10, ["Established revenue ($1M-$10M)"])
      else (0, [])
  end.

Definition titleBlock (input : EnrichLeadRequest) : Z * list string :=
  match truthy (Title input) with
  | None => (0, [])
  | Some t =>
      let title := toLowerCase t in
      if some_includes title legacyCSuiteKeywords then (30, ["C-suite or founder"])
      else if some_includes title legacyVpKeywords then (20, ["VP or director level"])
      else if some_includes title legacyManagerKeywords then (10, ["Manager level"])
      else (0, [])
  end.

Definition industryBlock (input : EnrichLeadRequest) : Z * list string :=
  match truthy (Industry input) with
  | None => (0, [])
  | Some i =>
      let industry := toLowerCase i in
      if some_includes industry highValueIndustries
      then (15, ["High-value industry: " +:+ i])
      else if some_includes industry mediumValueIndustries
      then (8, ["Target industry: " +:+ i])
      else (0, [])
  end.

Definition sourceBlock (input : EnrichLeadRequest) : Z * list string :=
  match truthy (LeadSource input) with
  | None => (0, [])
  | Some s =>
      let source := toLowerCase s in
      if some_includes source highQualitySources
      then (15, ["High-intent source: " +:+ s])
      else if some_includes source mediumQualitySources
      then (8, ["Engaged source: " +:+ s])
      else (0, [])
  end.

Definition companyBlock (input : EnrichLeadRequest) : Z * list string :=
  if company_given (Company input) then (5, []) else (0, []).

Definition scoreLead (input : EnrichLeadRequest) : Response :=
  let result :=
    total [emailBlock input; employeesBlock input; revenueBlock input;
           titleBlock input; industryBlock input; sourceBlock input;
           companyBlock input] in
  let score := result.1 in
  let estimatedArr :=
    match truthy_num (NumberOfEmployees input) with
    | Some n => arr_of_employees n
    | None => arr_of_score score
    end in
  {| score := score;
     tier := tier_of score;
     reasons := result.2;
     estimatedArr := adjust_arr (AnnualRevenue input) estimatedArr |}.

End V1.

Module V2.

Section Formatting.

(** [n.toLocaleString()] and [(r / 1_000_000).toFixed(1)], left open. *)
Variable toLocaleString : num -> string.
Variable millions_toFixed1 : num -> string.

Definition emailBlock (input : EnrichLeadRequest) : Z * list string :=
  match truthy (Email input) with
  | None => (0, [])
  | Some email =>
      let emailDomain := emailDomainOf email in
      if String.eqb emailDomain EmptyString then (0, [])
      else if negb (array_includes freeDomains emailDomain)
      then (15, ["Corporate domain: " +:+ emailDomain +:+ " (+15)"])
      else (0, ["Free email provider: " +:+ emailDomain +:+ " (+0)"])
  end.

Definition employeesBlock (input : EnrichLeadRequest) : Z * list string :=
  match defined_num (NumberOfEmployees input) with
  | None => (0, [])
  | Some n =>
      let size := "Company size: " +:+ toLocaleString n +:+ " employees " in
      if ge n 1000 then (25, [size +:+ "(+25)"])
      else if ge n 200 then (20, [size +:+ "(+20)"])
      else if ge n 50 then (10, [size +:+ "(+10)"])
      else (5, [size +:+ "(+5)"])
  end.

Definition revenueBlock (input : EnrichLeadRequest) : Z * list string :=
  match defined_num (AnnualRevenue input) with
  | None => (0, [])
  | Some r =>
      let revenueFormatted := "$" +:+ millions_toFixed1 r +:+ "M" in
      if ge r 100000000
      then (25, ["Annual revenue: " +:+ revenueFormatted +:+ " (+25)"])
      else if ge r 10000000
      then (15, ["Annual revenue: " +:+ revenueFormatted +:+ " (+15)"])
      else if ge r 1000000
      then (10, ["Annual revenue: " +:+ revenueFormatted +:+ " (+10)"])
      else (0, [])
  end.

Definition titleBlock (input : EnrichLeadRequest) : Z * list string :=
  match truthy (Title input) with
  | None => (0, [])
  | Some t =>
      let titleLower := toLowerCase t in
      if some_includes titleLower legacyCSuiteKeywords
      then (30, ["Title: " +:+ t +:+ " (+30)"])
      else if some_includes titleLower legacyVpKeywords
      then (20, ["Title: " +:+ t +:+ " (+20)"])
      else if some_includes titleLower legacyManagerKeywords
      then (10, ["Title: " +:+ t +:+ " (+10)"])
      else (0, [])
  end.

Definition industryBlock (input : EnrichLeadRequest) : Z * list string :=
  match truthy (Industry input) with
  | None => (0, [])
  | Some i =>
      let industryLower := toLowerCase i in
      if some_includes industryLower highValueIndustries
      then (15, ["Industry: " +:+ i +:+ " (+15)"])
      else if some_includes industryLower mediumValueIndustries
      then (8, ["Industry: " +:+ i +:+ " (+8)"])
      else (0, [])
  end.

Definition sourceBlock (input : EnrichLeadRequest) : Z * list string :=
  match truthy (LeadSource input) with
  | None => (0, [])
  | Some s =>
      let sourceLower := toLowerCase s in
      if some_includes sourceLower highQualitySources
      then (15, ["Lead source: " +:+ s +:+ " (+15)"])
      else if some_includes sourceLower mediumQualitySources
      then (8, ["Lead source: " +:+ s +:+ " (+8)"])
      else (0, [])
  end.

Definition companyBlock (input : EnrichLeadRequest) : Z * list string :=
  if company_given (Company input)
  then (5, ["Company provided: " +:+ Company input +:+ " (+5)"])
  else (0, []).

Definition scoreLead (input : EnrichLeadRequest) : Response :=
  let result :=
    total [emailBlock input; employeesBlock input; revenueBlock input;
           titleBlock input; industryBlock input; sourceBlock input;
           companyBlock input] in
  let score := result.1 in
  let estimatedArr :=
    match defined_num (NumberOfEmployees input) with
    | Some n => arr_of_employees n
    | None => arr_of_score score
    end in
  {| score := score;
     tier := tier_of score;
     reasons := result.2;
     estimatedArr := adjust_arr (AnnualRevenue input) estimatedArr |}.

End Formatting.

End V2.

(** A request with every signal at its best, and one with no employees. *)
Definition best_request : EnrichLeadRequest :=
  mkRequest (val "Ada") "Doe" "Acme" (val "ceo@acme.com") undefined
    (val "CEO") (val "Software") (val (Fin 5000)) (val (Fin 200000000))
    (val "Referral").

Definition zero_employees_request : EnrichLeadRequest :=
  mkRequest undefined "Doe" "Acme" undefined undefined undefined undefined
    (val (Fin 0)) undefined undefined.

End Legacy.

(* ===================================================================== *)
(** ** Further inputs and definitions used by the statements *)
(* ===================================================================== *)

(** A lead that differs from [baseRawLead] in every field the scorers do
    not read, and that writes its missing fields as [null] or as the empty
    string. *)
Definition renamed_lead : UniversalLeadInput :=
  mkLead "other.org" (val "Other Inc") (val "Technology") null (val EmptyString)
    null (val (JStr "Postgres")) (val "john@acme.com") (val "Jane") (val "Roe")
    (val "Sales") null (val "Sales Manager") (val EmptyString)
    (val "+1 555 0100") null (val EmptyString) null null.

(** A lead that only names its three bands. *)
Definition banded_lead (employee revenue deal : opt string) : UniversalLeadInput :=
  mkLead "acme.com" undefined undefined employee revenue undefined undefined
    undefined undefined undefined undefined undefined undefined undefined
    undefined undefined deal undefined undefined.

(** An ASCII character. *)
Definition is_ascii (c : ascii) : bool := (Ascii.N_of_ascii c <? 128)%N.



(* ===================================================================== *)
(** ** The scoring engine on doubles (services/scoring.ts) *)
(* ===================================================================== *)

(** A JavaScript number is an IEEE 754 binary64 value.  [F64] takes the
    operations from the Standard Library's specification of binary
    floating-point arithmetic ([SpecFloat], round to nearest even, 53 bits
    of precision). *)
Module F64.

Definition float64 : Type := spec_float.

Definition prec : Z := 53.
Definition emax : Z := 1024.

Definition nan : float64 := S754_nan.
Definition zero : float64 := S754_zero false.

(** The double nearest to an integer; exact below 2^53. *)
Definition of_Z (z : Z) : float64 := binary_normalize prec emax z 0 false.

Definition mul : float64 -> float64 -> float64 := SFmul prec emax.
Definition add : float64 -> float64 -> float64 := SFadd prec emax.
Definition sub : float64 -> float64 -> float64 := SFsub prec emax.
Definition div : float64 -> float64 -> float64 := SFdiv prec emax.

(** The double that a decimal literal [n/d] denotes, for [n] and [d] below
    2^53 (the correctly rounded quotient). *)
Definition decimal (n : Z) (d : positive) : float64 :=
  div (of_Z n) (of_Z (Zpos d)).

Definition one : float64 := of_Z 1.
Definition hundred : float64 := of_Z 100.

(** [a < b], [a <= b], [a >= b] and [a == b]; false when an operand is NaN. *)
Definition ltb (a b : float64) : bool := SFltb a b.
Definition leb (a b : float64) : bool := SFleb a b.
Definition geb (a b : float64) : bool := SFleb b a.
Definition eqb (a b : float64) : bool := SFeqb a b.

Definition isNaN (x : float64) : bool :=
  match x with
  | S754_nan => true
  | _ => false
  end.

Definition sign_bit (x : float64) : bool :=
  match x with
  | S754_zero s | S754_infinity s | S754_finite s _ _ => s
  | S754_nan => false
  end.

(** [Math.max(a, b)] and [Math.min(a, b)]: NaN when an operand is NaN, and
    [-0] counts as smaller than [+0]. *)
Definition Math_max (a b : float64) : float64 :=
  match SFcompare a b with
  | None => nan
  | Some Lt => b
  | Some Gt => a
  | Some Eq => if sign_bit a then b else a
  end.

Definition Math_min (a b : float64) : float64 :=
  match SFcompare a b with
  | None => nan
  | Some Lt => a
  | Some Gt => b
  | Some Eq => if sign_bit a then a else b
  end.

(** [Math.round(x)]: the integer nearest to [x], halves towards plus
    infinity, computed on the exact value [±m·2^e] of [x]; NaN, the
    infinities and the zeros are returned as they are, and a result of
    zero keeps the sign of [x]. *)
Definition Math_round (x : float64) : float64 :=
  match x with
  | S754_finite s m e =>
      if (0 <=? e)%Z then x
      else
        let n := Z.shiftr (2 * cond_Zopp s (Zpos m) + 2 ^ (- e)) (1 - e) in
        if (n =? 0)%Z then S754_zero s else of_Z n
  | _ => x
  end.

(** The exact value of a double that is an integer. *)
Definition to_Z (x : float64) : option Z :=
  match x with
  | S754_zero _ => Some 0
  | S754_finite s m e =>
      if (0 <=? e)%Z then Some (cond_Zopp s (Zpos m) * 2 ^ e)
      else if (Zpos m mod 2 ^ (- e) =? 0)%Z
           then Some (cond_Zopp s (Zpos m / 2 ^ (- e)))
           else None
  | _ => None
  end.

(** The exact sum of a list of integer doubles. *)
Fixpoint exact_sum (values : list float64) : option Z :=
  match values with
  | [] => Some 0
  | v :: rest =>
      match to_Z v, exact_sum rest with
      | Some n, Some total => Some (n + total)
      | _, _ => None
      end
  end.

(** [0 <= x]: a zero of either sign, a positive number or plus infinity. *)
Definition nonneg (x : float64) : Prop := leb zero x = true.

(** A value with sign [s] that is not NaN. *)
Definition signed (s : bool) (x : float64) : Prop :=
  x = S754_zero s \/ x = S754_infinity s \/ exists m e, x = S754_finite s m e.

Definition is_positive_finite (x : float64) : bool :=
  match x with
  | S754_finite false _ _ => true
  | _ => false
  end.

#[global] Instance float64_eq_dec : EqDecision float64.
Proof. solve_decision. Defined.

(** The same double, bit for bit. *)
Definition same (x y : float64) : bool := bool_decide (x = y).

End F64.

Module Doubles.

Import F64.

(** [TenantScoringConfig], its numbers as doubles. *)
Record TenantScoringConfig : Type := mkConfig {
  scoring_version : string;
  weight_overrides : gmap string float64;
  priority_industries : list string;
  excluded_regions : list string;
  priority_use_cases : list string;
  hot_threshold : float64;
  warm_threshold : float64
}.

Definition getDefaultScoringConfig : TenantScoringConfig :=
  {| scoring_version := "v1";
     weight_overrides := ∅;
     priority_industries := [];
     excluded_regions := [];
     priority_use_cases := [];
     hot_threshold := of_Z 70;
     warm_threshold := of_Z 40 |}.

Definition BASE_WEIGHTS : gmap string float64 :=
  list_to_map
    [("email_domain", one); ("company_size", one); ("revenue", one);
     ("seniority", one); ("industry", one); ("lead_source", one);
     ("use_case", one); ("urgency", one); ("deal_band", one)].

Record DimensionBreakdown : Type := mkDimensions {
  fit : float64;
  intent : float64;
  timing : float64
}.

(** A breakdown object is the list of its entries in insertion order, which
    is the order of [Object.entries] and [Object.values]. *)
Definition Breakdown : Type := list (string * float64).

(** [breakdown[key]] *)
Fixpoint get (key : string) (breakdown : Breakdown) : option float64 :=
  match breakdown with
  | [] => None
  | (k, v) :: rest => if String.eqb k key then Some v else get key rest
  end.

Record ScoringResult : Type := mkScoringResult {
  score : float64;
  tier : LeadTier;
  raw_score : float64;
  raw_tier : LeadTier;
  enriched_score : float64;
  enriched_tier : LeadTier;
  lift : float64;
  result_scoring_version : string;
  score_breakdown : Breakdown;
  raw_breakdown : Breakdown;
  dimensions : DimensionBreakdown;
  reasons : list string
}.

Record ScoreComputeResult : Type := mkScoreComputeResult {
  cs_score : float64;
  cs_tier : LeadTier;
  cs_breakdown : Breakdown;
  cs_reasons : list string
}.

Definition determineTier (score hotThreshold warmThreshold : float64) : LeadTier :=
  if geb score hotThreshold then Hot
  else if geb score warmThreshold then Warm
  else Cold.

(** [weights.key] as a factor: a key that is not bound reads [undefined],
    and a product with [undefined] is NaN.  [scoreLeadDual] passes
    [{...BASE_WEIGHTS, ...overrides}], in which every key that is read is
    bound. *)
Definition weight_of (weights : gmap string float64) (key : string) : float64 :=
  default nan (weights !! key).

(** [Math.round(points * weights.key)]; the points of a scorer are integers
    between -20 and 30. *)
Definition weighted (weights : gmap string float64) (key : string)
    (points : Z) : float64 :=
  Math_round (mul (of_Z points) (weight_of weights key)).

(** One block of [computeScore]:
    [if (guard) { breakdown.key = value; totalScore += value; }]; every
    block writes a key of its own, so the assignment appends an entry. *)
Definition record_signal (key : string) (guard : bool) (value : float64)
    (st : Breakdown * float64) : Breakdown * float64 :=
  if guard then ((st.1 ++ [(key, value)])%list, add st.2 value) else st.

(** *** The blocks as a list *)

(** The keys of the blocks of [computeScore], in the order of the blocks. *)
Definition SIGNAL_KEYS : list string :=
  ["email_domain"; "company_size"; "revenue"; "seniority"; "industry";
   "lead_source"; "use_case"; "urgency"; "deal_band"].

Definition BLOCK_KEYS : list string := (SIGNAL_KEYS ++ ["region_penalty"])%list.

(** The blocks as a list: key, guard and value. *)
Definition Block : Type := string * bool * float64.

Definition step (st : Breakdown * float64) (b : Block) : Breakdown * float64 :=
  record_signal b.1.1 b.1.2 b.2 st.

(** The entries that a list of blocks records. *)
Fixpoint recorded (blocks : list Block) : Breakdown :=
  match blocks with
  | [] => []
  | (key, guard, value) :: rest =>
      if guard then (key, value) :: recorded rest else recorded rest
  end.

(** [Object.values(breakdown)] summed from left to right, starting at 0. *)
Definition sum_in_order (breakdown : Breakdown) : float64 :=
  fold_left add (map snd breakdown) zero.

(** [Math.max(0, Math.min(100, x))] *)
Definition clamp100 (x : float64) : float64 := Math_max zero (Math_min hundred x).

Section Lowercase.

(** [String.prototype.toLowerCase], which folds the letters of every
    script; the engine is defined for any such function. *)
Variable toLowerCase : string -> string.

Definition scoreEmailDomain (input : UniversalLeadInput) (phase : Phase)
  : Z * list string :=
  match truthy (contact_email input) with
  | None => (0, [])
  | Some email =>
      let domain :=
        match split "@" email !! 1%nat with
        | Some d => toLowerCase d
        | None => EmptyString
        end in
      if String.eqb domain EmptyString then (0, [])
      else if array_includes FREE_EMAIL_DOMAINS domain
      then (0, say phase ("Free email: " +:+ domain +:+ " (+0)"))
      else (15, say phase ("Corporate email: " +:+ domain +:+ " (+15)"))
  end.

Definition scoreSeniority (input : UniversalLeadInput) (phase : Phase)
  : Z * list string :=
  match truthy (contact_role_seniority input) with
  | Some seniority =>
      let score := points_of seniorityScores seniority in
      (score, say_if (0 <? score)%Z phase
                ("Seniority: " +:+ seniority +:+ " (+" +:+ pretty score +:+ ")"))
  | None =>
      match truthy (contact_title_raw input) with
      | None => (0, [])
      | Some title =>
          let titleLower := toLowerCase title in
          if some_includes titleLower cSuiteKeywords
          then (30, say phase ("Title: " +:+ title +:+ " → C-Level (+30)"))
          else if some_includes titleLower vpKeywords
          then (20, say phase ("Title: " +:+ title +:+ " → VP (+20)"))
          else if some_includes titleLower directorKeywords
          then (15, say phase ("Title: " +:+ title +:+ " → Director (+15)"))
          else if some_includes titleLower managerKeywords
          then (10, say phase ("Title: " +:+ title +:+ " → Manager (+10)"))
          else (0, [])
      end
  end.

(** [list.some(x => s.includes(x.toLowerCase()))] behind [list.length > 0]. *)
Definition matches_any (s : string) (entries : list string) : bool :=
  (0 <? length entries)%nat &&
  existsb (fun e => includes s (toLowerCase e)) entries.

Definition scoreIndustry (input : UniversalLeadInput)
    (priorityIndustries : list string) (phase : Phase) : Z * list string :=
  match truthy (company_industry input) with
  | None => (0, [])
  | Some industry =>
      let industryLower := toLowerCase industry in
      if matches_any industryLower priorityIndustries
      then (20, say phase ("Priority industry: " +:+ industry +:+ " (+20)"))
      else if some_includes industryLower HIGH_VALUE_INDUSTRIES
      then (15, say phase ("High-value industry: " +:+ industry +:+ " (+15)"))
      else if some_includes industryLower MEDIUM_VALUE_INDUSTRIES
      then (8, say phase ("Industry: " +:+ industry +:+ " (+8)"))
      else (0, [])
  end.

Definition scoreLeadSource (input : UniversalLeadInput) (phase : Phase)
  : Z * list string :=
  match truthy (lead_source input) with
  | None => (0, [])
  | Some source =>
      let sourceLower := toLowerCase source in
      if some_includes sourceLower HIGH_QUALITY_SOURCES
      then (15, say phase ("Lead source: " +:+ source +:+ " (+15)"))
      else if some_includes sourceLower MEDIUM_QUALITY_SOURCES
      then (8, say phase ("Lead source: " +:+ source +:+ " (+8)"))
      else (0, [])
  end.

Definition scoreUseCase (input : UniversalLeadInput)
    (priorityUseCases : list string) (phase : Phase) : Z * list string :=
  match truthy (primary_use_case input) with
  | None => (0, [])
  | Some useCase =>
      let useCaseLower := toLowerCase useCase in
      if matches_any useCaseLower priorityUseCases
      then (15, say phase ("Priority use case: " +:+ useCase +:+ " (+15)"))
      else (5, say phase ("Use case provided: " +:+ useCase +:+ " (+5)"))
  end.

Definition scoreRegion (input : UniversalLeadInput)
    (excludedRegions : list string) (phase : Phase) : Z * list string :=
  if (length excludedRegions =? 0)%nat then (0, [])
  else
    match truthy (or_else (company_region input) (contact_geo input)) with
    | None => (0, [])
    | Some region =>
        let regionLower := toLowerCase region in
        if existsb (fun er => includes regionLower (toLowerCase er)) excludedRegions
        then (-20, say phase ("Excluded region: " +:+ region +:+ " (-20)"))
        else (0, [])
    end.

(** The breakdown and [totalScore] of [computeScore] before clamping.  The
    scorers of the four bands do not lower-case and are the ones defined
    above. *)
Definition accumulate (input : UniversalLeadInput) (config : TenantScoringConfig)
    (weights : gmap string float64) (phase : Phase) : Breakdown * float64 :=
  let emailScore := (scoreEmailDomain input phase).1 in
  let st := record_signal "email_domain" (0 <? emailScore)%Z
              (weighted weights "email_domain" emailScore) ([], zero) in
  let sizeScore := (scoreCompanySize input phase).1 in
  let st := record_signal "company_size" (0 <? sizeScore)%Z
              (weighted weights "company_size" sizeScore) st in
  let revenueScore := (scoreRevenue input phase).1 in
  let st := record_signal "revenue" (0 <? revenueScore)%Z
              (weighted weights "revenue" revenueScore) st in
  let seniorityScore := (scoreSeniority input phase).1 in
  let st := record_signal "seniority" (0 <? seniorityScore)%Z
              (weighted weights "seniority" seniorityScore) st in
  let industryScore :=
    (scoreIndustry input (priority_industries config) phase).1 in
  let st := record_signal "industry" (negb (industryScore =? 0)%Z)
              (weighted weights "industry" industryScore) st in
  let sourceScore := (scoreLeadSource input phase).1 in
  let st := record_signal "lead_source" (0 <? sourceScore)%Z
              (weighted weights "lead_source" sourceScore) st in
  let useCaseScore :=
    (scoreUseCase input (priority_use_cases config) phase).1 in
  let st := record_signal "use_case" (0 <? useCaseScore)%Z
              (weighted weights "use_case" useCaseScore) st in
  let urgencyScore := (scoreUrgency input phase).1 in
  let st := record_signal "urgency" (0 <? urgencyScore)%Z
              (weighted weights "urgency" urgencyScore) st in
  let dealScore := (scoreDealBand input phase).1 in
  let st := record_signal "deal_band" (0 <? dealScore)%Z
              (weighted weights "deal_band" dealScore) st in
  let regionPenalty :=
    (scoreRegion input (excluded_regions config) phase).1 in
  record_signal "region_penalty" (regionPenalty <? 0)%Z (of_Z regionPenalty) st.

(** What the ten scorers push on [reasons], in call order. *)
Definition collect_reasons (input : UniversalLeadInput)
    (config : TenantScoringConfig) (phase : Phase) : list string :=
  ((scoreEmailDomain input phase).2 ++
   (scoreCompanySize input phase).2 ++
   (scoreRevenue input phase).2 ++
   (scoreSeniority input phase).2 ++
   (scoreIndustry input (priority_industries config) phase).2 ++
   (scoreLeadSource input phase).2 ++
   (scoreUseCase input (priority_use_cases config) phase).2 ++
   (scoreUrgency input phase).2 ++
   (scoreDealBand input phase).2 ++
   (scoreRegion input (excluded_regions config) phase).2)%list.

Definition computeScore (input : UniversalLeadInput)
    (config : TenantScoringConfig) (weights : gmap string float64)
    (phase : Phase) : ScoreComputeResult :=
  let st := accumulate input config weights phase in
  let finalScore := Math_max zero (Math_min hundred st.2) in
  {| cs_score := finalScore;
     cs_tier := determineTier finalScore (hot_threshold config) (warm_threshold config);
     cs_breakdown := st.1;
     cs_reasons := collect_reasons input config phase |}.

(** The loop of [computeDimensions]: one entry of the breakdown. *)
Definition add_to_dimension (sums : DimensionBreakdown)
    (entry : string * float64) : DimensionBreakdown :=
  match DIMENSION_MAPPING !! entry.1 with
  | Some dimension =>
      if ltb zero entry.2 then
        match dimension with
        | DFit => mkDimensions (add (fit sums) entry.2) (intent sums) (timing sums)
        | DIntent => mkDimensions (fit sums) (add (intent sums) entry.2) (timing sums)
        | DTiming => mkDimensions (fit sums) (intent sums) (add (timing sums) entry.2)
        end
      else sums
  | None => sums
  end.

(** [Math.min(100, Math.round((sum / max) * 100))] *)
Definition normalize (sum : float64) (max : Z) : float64 :=
  Math_min hundred (Math_round (mul (div sum (of_Z max)) hundred)).

Definition computeDimensions (breakdown : Breakdown) : DimensionBreakdown :=
  let sums := fold_left add_to_dimension breakdown (mkDimensions zero zero zero) in
  {| fit := normalize (fit sums) 95;
     intent := normalize (intent sums) 35;
     timing := normalize (timing sums) 20 |}.

(** [scoreLeadDual]; [tenantConfig] is optional. *)
Definition scoreLeadDual (rawLead enrichedLead : UniversalLeadInput)
    (tenantConfig : opt TenantScoringConfig) : ScoringResult :=
  let config :=
    match tenantConfig with
    | val c => c
    | _ => getDefaultScoringConfig
    end in
  let weights := weight_overrides config ∪ BASE_WEIGHTS in
  let rawResult := computeScore rawLead config weights raw in
  let enrichedResult := computeScore enrichedLead config weights enriched in
  let lift := sub (cs_score enrichedResult) (cs_score rawResult) in
  let dimensions := computeDimensions (cs_breakdown enrichedResult) in
  {| score := cs_score enrichedResult;
     tier := cs_tier enrichedResult;
     raw_score := cs_score rawResult;
     raw_tier := cs_tier rawResult;
     enriched_score := cs_score enrichedResult;
     enriched_tier := cs_tier enrichedResult;
     lift := lift;
     result_scoring_version := SCORING_VERSION;
     score_breakdown := cs_breakdown enrichedResult;
     raw_breakdown := cs_breakdown rawResult;
     dimensions := dimensions;
     reasons := cs_reasons enrichedResult |}.

(** The legacy single-record entry point. *)
Definition scoreLead (input : UniversalLeadInput)
    (tenantConfig : opt TenantScoringConfig) : ScoringResult :=
  scoreLeadDual input input tenantConfig.

(** *** Definitions used by the statements *)

(** The unweighted points of the signal that is recorded under [key]. *)
Definition signal_points (input : UniversalLeadInput)
    (config : TenantScoringConfig) (phase : Phase) (key : string) : Z :=
  if String.eqb key "email_domain" then (scoreEmailDomain input phase).1
  else if String.eqb key "company_size" then (scoreCompanySize input phase).1
  else if String.eqb key "revenue" then (scoreRevenue input phase).1
  else if String.eqb key "seniority" then (scoreSeniority input phase).1
  else if String.eqb key "industry"
  then (scoreIndustry input (priority_industries config) phase).1
  else if String.eqb key "lead_source" then (scoreLeadSource input phase).1
  else if String.eqb key "use_case"
  then (scoreUseCase input (priority_use_cases config) phase).1
  else if String.eqb key "urgency" then (scoreUrgency input phase).1
  else if String.eqb key "deal_band" then (scoreDealBand input phase).1
  else if String.eqb key "region_penalty"
  then (scoreRegion input (excluded_regions config) phase).1
  else 0.

(** The guard of the block that writes [key]. *)
Definition guard_of (key : string) (points : Z) : bool :=
  if String.eqb key "industry" then negb (points =? 0)%Z
  else if String.eqb key "region_penalty" then (points <? 0)%Z
  else (0 <? points)%Z.

(** What [computeScore] stores for a signal: the rounded weighted points,
    and the penalty itself for the region. *)
Definition recorded_value (weights : gmap string float64) (key : string)
    (points : Z) : float64 :=
  if String.eqb key "region_penalty" then of_Z points
  else weighted weights key points.

(** The test of [scoreRegion]: some excluded entry, lower-cased, occurs in
    the lower-cased region. *)
Definition excluded_match (region : string) (excludedRegions : list string) : bool :=
  existsb (fun er => includes (toLowerCase region) (toLowerCase er)) excludedRegions.

(** The ten blocks of [computeScore] for a lead. *)
Definition blocks_of (input : UniversalLeadInput) (config : TenantScoringConfig)
    (weights : gmap string float64) (phase : Phase) : list Block :=
  map (fun key =>
         let points := signal_points input config phase key in
         (key, guard_of key points, recorded_value weights key points))
      BLOCK_KEYS.

End Lowercase.

(** Tenants for the examples: the defaults with priority industries,
    excluded regions and weight overrides of their own. *)
Definition tenant (industries regions : list string)
    (overrides : list (string * float64)) : TenantScoringConfig :=
  {| scoring_version := "v1";
     weight_overrides := list_to_map overrides;
     priority_industries := industries;
     excluded_regions := regions;
     priority_use_cases := [];
     hot_threshold := of_Z 70;
     warm_threshold := of_Z 40 |}.

Definition with_weights (overrides : list (string * float64)) : TenantScoringConfig :=
  tenant [] [] overrides.

(** Weights 1e308 and -1e308: both products overflow. *)
Definition overflow_config : TenantScoringConfig :=
  with_weights [("seniority", of_Z (10 ^ 308)); ("company_size", of_Z (- 10 ^ 308))].

(** Weights -1e17 and 1e17: the products are finite and cancel. *)
Definition absorbing_config : TenantScoringConfig :=
  with_weights [("company_size", of_Z (- 10 ^ 17)); ("revenue", of_Z (10 ^ 17))].

(** A lead with a corporate address, the largest head count and the
    largest revenue. *)
Definition three_signal_lead : UniversalLeadInput :=
  mkLead "acme.com" undefined undefined (val "1000+") (val "250M+") undefined
    undefined (val "john@acme.com") undefined undefined undefined undefined
    undefined undefined undefined undefined undefined undefined undefined.

(** A tenant that switches the e-mail signal off with a weight of 0. *)
Definition email_off_config : TenantScoringConfig :=
  with_weights [("email_domain", zero)].

(** A tenant that weights the company size by 0.58. *)
Definition size_058_config : TenantScoringConfig :=
  with_weights [("company_size", decimal 58 100)].

(** A value between 0 and 100. *)
Definition in_range (x : float64) : Prop :=
  leb zero x = true /\ leb x hundred = true.

End Doubles.

(* ===================================================================== *)
(** ** Properties *)
(* ===================================================================== *)

(** *** The scenarios of the test suite *)

Example raw_and_enriched_differ :
  let r := scoreLeadDual baseRawLead enrichedTestLead undefined in
  raw_score r = 40 /\ enriched_score r = 100 /\ lift r = 60 /\
  raw_tier r = Warm /\ tier r = Hot /\
  "Corporate email: acme.com (+15)" ∈ reasons r.
Proof. vm_compute. repeat split; try reflexivity. apply list_elem_of_here. Qed.

Example free_email_not_recorded :
  score_breakdown (scoreLeadDual freeEmailLead freeEmailLead undefined)
    !! "email_domain" = None.
Proof. vm_compute. reflexivity. Qed.

Example maximal_lead_clamps :
  weighted_points_sum maxLead getDefaultScoringConfig BASE_WEIGHTS enriched = 165 /\
  score (scoreLeadDual maxLead maxLead undefined) = 100.
Proof. vm_compute. split; reflexivity. Qed.

Example maximal_dimensions :
  computeDimensions maxBreakdown = mkDimensions 100 100 100.
Proof. vm_compute. reflexivity. Qed.

Example salesforce_scenario mSF mHS mPD mRaw :
  source (detectAndMap mSF mHS mPD mRaw salesforce_payload) = salesforce /\
  Salesforce.mapEmployeeCountToBand (val (Fin 5000)) = val "1000+".
Proof.
  unfold detectAndMap.
  assert (Salesforce.isSalesforcePayload salesforce_payload = true) as ->
    by (vm_compute; reflexivity).
  rewrite orb_true_r. split; reflexivity.
Qed.

(** *** The phase only gates the reasons *)

Section PhaseIrrelevance.

Variable input : UniversalLeadInput.
Variables p q : Phase.

Ltac by_cases_on_scorer f :=
  unfold f; repeat case_match; reflexivity.

Lemma scoreEmailDomain_phase :
  (scoreEmailDomain input p).1 = (scoreEmailDomain input q).1.
Proof. by_cases_on_scorer scoreEmailDomain. Qed.

Lemma scoreCompanySize_phase :
  (scoreCompanySize input p).1 = (scoreCompanySize input q).1.
Proof. by_cases_on_scorer scoreCompanySize. Qed.

Lemma scoreRevenue_phase :
  (scoreRevenue input p).1 = (scoreRevenue input q).1.
Proof. by_cases_on_scorer scoreRevenue. Qed.

Lemma scoreSeniority_phase :
  (scoreSeniority input p).1 = (scoreSeniority input q).1.
Proof. by_cases_on_scorer scoreSeniority. Qed.

Lemma scoreIndustry_phase l :
  (scoreIndustry input l p).1 = (scoreIndustry input l q).1.
Proof. by_cases_on_scorer scoreIndustry. Qed.

Lemma scoreLeadSource_phase :
  (scoreLeadSource input p).1 = (scoreLeadSource input q).1.
Proof. by_cases_on_scorer scoreLeadSource. Qed.

Lemma scoreUseCase_phase l :
  (scoreUseCase input l p).1 = (scoreUseCase input l q).1.
Proof. by_cases_on_scorer scoreUseCase. Qed.

Lemma scoreUrgency_phase :
  (scoreUrgency input p).1 = (scoreUrgency input q).1.
Proof. by_cases_on_scorer scoreUrgency. Qed.

Lemma scoreDealBand_phase :
  (scoreDealBand input p).1 = (scoreDealBand input q).1.
Proof. by_cases_on_scorer scoreDealBand. Qed.

Lemma scoreRegion_phase l :
  (scoreRegion input l p).1 = (scoreRegion input l q).1.
Proof. by_cases_on_scorer scoreRegion. Qed.

Lemma accumulate_phase config weights :
  accumulate input config weights p = accumulate input config weights q.
Proof.
  unfold accumulate.
  rewrite scoreEmailDomain_phase, scoreCompanySize_phase, scoreRevenue_phase,
    scoreSeniority_phase, (scoreIndustry_phase (priority_industries config)),
    scoreLeadSource_phase, (scoreUseCase_phase (priority_use_cases config)),
    scoreUrgency_phase, scoreDealBand_phase,
    (scoreRegion_phase (excluded_regions config)).
  reflexivity.
Qed.

End PhaseIrrelevance.

Lemma computeScore_score_phase input config weights p q :
  cs_score (computeScore input config weights p) =
  cs_score (computeScore input config weights q).
Proof. unfold computeScore; simpl. now rewrite (accumulate_phase input p q). Qed.

Lemma computeScore_tier_phase input config weights p q :
  cs_tier (computeScore input config weights p) =
  cs_tier (computeScore input config weights q).
Proof. unfold computeScore; simpl. now rewrite (accumulate_phase input p q). Qed.

Lemma computeScore_breakdown_phase input config weights p q :
  cs_breakdown (computeScore input config weights p) =
  cs_breakdown (computeScore input config weights q).
Proof. unfold computeScore; simpl. now rewrite (accumulate_phase input p q). Qed.

(** *** The running total *)

Lemma record_signal_total key guard value st :
  (record_signal key guard value st).2 = st.2 + contribution guard value.
Proof. unfold record_signal, contribution. destruct guard; simpl; lia. Qed.

Lemma accumulate_total input config weights phase :
  (accumulate input config weights phase).2 =
  weighted_points_sum input config weights phase.
Proof.
  unfold accumulate, weighted_points_sum.
  cbv zeta. rewrite !record_signal_total. simpl. lia.
Qed.

(** *** Ranges of the unweighted points *)

Ltac table_cases :=
  unfold points_of, signal_range;
  cbn [list_to_map foldr fst snd];
  repeat (rewrite lookup_insert; case_decide; [simpl; lia |]);
  rewrite lookup_empty; simpl; lia.

Lemma employeeBandScores_range k : signal_range (points_of employeeBandScores k).
Proof. unfold employeeBandScores. table_cases. Qed.

Lemma revenueBandScores_range k : signal_range (points_of revenueBandScores k).
Proof. unfold revenueBandScores. table_cases. Qed.

Lemma seniorityScores_range k : signal_range (points_of seniorityScores k).
Proof. unfold seniorityScores. table_cases. Qed.

Lemma urgencyScores_range k : signal_range (points_of urgencyScores k).
Proof. unfold urgencyScores. table_cases. Qed.

Lemma dealScores_range k : signal_range (points_of dealScores k).
Proof. unfold dealScores. table_cases. Qed.

Create HintDb points.
#[local] Hint Resolve employeeBandScores_range revenueBandScores_range
  seniorityScores_range urgencyScores_range dealScores_range : points.

Ltac scorer_range f :=
  unfold f; repeat case_match; cbn [fst];
  first [ solve [auto with points] | unfold signal_range; lia ].

Lemma scoreEmailDomain_range input phase :
  signal_range (scoreEmailDomain input phase).1.
Proof. scorer_range scoreEmailDomain. Qed.

Lemma scoreCompanySize_range input phase :
  signal_range (scoreCompanySize input phase).1.
Proof. scorer_range scoreCompanySize. Qed.

Lemma scoreRevenue_range input phase :
  signal_range (scoreRevenue input phase).1.
Proof. scorer_range scoreRevenue. Qed.

Lemma scoreSeniority_range input phase :
  signal_range (scoreSeniority input phase).1.
Proof. scorer_range scoreSeniority. Qed.

Lemma scoreIndustry_range input l phase :
  signal_range (scoreIndustry input l phase).1.
Proof. scorer_range scoreIndustry. Qed.

Lemma scoreLeadSource_range input phase :
  signal_range (scoreLeadSource input phase).1.
Proof. scorer_range scoreLeadSource. Qed.

Lemma scoreUseCase_range input l phase :
  signal_range (scoreUseCase input l phase).1.
Proof. scorer_range scoreUseCase. Qed.

Lemma scoreUrgency_range input phase :
  signal_range (scoreUrgency input phase).1.
Proof. scorer_range scoreUrgency. Qed.

Lemma scoreDealBand_range input phase :
  signal_range (scoreDealBand input phase).1.
Proof. scorer_range scoreDealBand. Qed.

Lemma scoreRegion_values input l phase :
  (scoreRegion input l phase).1 = 0 \/ (scoreRegion input l phase).1 = -20.
Proof. unfold scoreRegion; repeat case_match; cbn [fst]; lia. Qed.

(** In the weights [scoreLeadDual] builds, a key reads as its override,
    and as 1 when the tenant does not override it. *)
Lemma merged_weight_of (overrides : gmap string Q) key :
  weight_of (overrides ∪ BASE_WEIGHTS) key = default 1%Q (overrides !! key).
Proof.
  unfold weight_of. rewrite lookup_union.
  destruct (overrides !! key) as [w |]; simpl.
  - now destruct (BASE_WEIGHTS !! key).
  - unfold BASE_WEIGHTS. cbn [list_to_map foldr fst snd].
    repeat (rewrite lookup_insert; case_decide; [reflexivity |]).
    now rewrite lookup_empty.
Qed.

(** With weight 1 the weighted points are the points. *)
Lemma weighted_one weights key points :
  weight_of weights key = 1%Q -> weighted weights key points = points.
Proof.
  unfold weighted, Math_round. intros ->.
  unfold Qfloor, Qplus, Qmult, inject_Z. simpl.
  change (Z.pos (1 * 1 * 2)) with 2. change (1 * Z.pos (1 * 1)) with 1.
  symmetry. apply Z.div_unique with (r := 1); lia.
Qed.

(** *** Which entries a breakdown holds *)

Lemma record_signal_lookup key guard value st k :
  (record_signal key guard value st).1 !! k =
  if guard && bool_decide (key = k) then Some value else st.1 !! k.
Proof.
  unfold record_signal. destruct guard; simpl; [| reflexivity].
  rewrite lookup_insert.
  destruct (decide (key = k)) as [Heq | Hne].
  - now rewrite bool_decide_eq_true_2.
  - now rewrite bool_decide_eq_false_2.
Qed.

Lemma accumulate_lookup input config weights phase key :
  (accumulate input config weights phase).1 !! key =
  let points := signal_points input config phase key in
  if (if String.eqb key "industry" then negb (points =? 0)%Z
      else if String.eqb key "region_penalty" then (points <? 0)%Z
      else (0 <? points)%Z)
  then Some (recorded_value weights key points)
  else None.
Proof.
  unfold accumulate. cbv zeta. rewrite !record_signal_lookup.
  cbn [fst]. rewrite lookup_empty.
  unfold signal_points, recorded_value.
  repeat match goal with
  | |- context [bool_decide (?k = key)] =>
      let Hne := fresh "Hne" in
      destruct (decide (k = key)) as [<- | Hne];
      [ repeat (rewrite bool_decide_eq_false_2 by discriminate);
        rewrite bool_decide_eq_true_2 by reflexivity;
        rewrite ?andb_false_r, ?andb_true_r; reflexivity
      | rewrite (bool_decide_eq_false_2 (k = key)) by exact Hne;
        rewrite ?andb_false_r;
        apply not_eq_sym, String.eqb_neq in Hne; rewrite Hne ]
  end.
  reflexivity.
Qed.

Lemma signal_points_range input config phase key :
  String.eqb key "region_penalty" = false ->
  signal_range (signal_points input config phase key).
Proof.
  intros Hkey. unfold signal_points. rewrite Hkey.
  repeat case_match;
    auto using scoreEmailDomain_range, scoreCompanySize_range,
      scoreRevenue_range, scoreSeniority_range, scoreIndustry_range,
      scoreLeadSource_range, scoreUseCase_range, scoreUrgency_range,
      scoreDealBand_range.
  now left.
Qed.

(** *** Dimensions *)

Lemma add_to_dimension_comm j1 z1 j2 z2 sums :
  add_to_dimension j1 z1 (add_to_dimension j2 z2 sums) =
  add_to_dimension j2 z2 (add_to_dimension j1 z1 sums).
Proof.
  unfold add_to_dimension.
  destruct (DIMENSION_MAPPING !! j1) as [[] |], (DIMENSION_MAPPING !! j2) as [[] |],
    (0 <? z1)%Z, (0 <? z2)%Z; cbn [fit intent timing];
    try reflexivity; f_equal; lia.
Qed.

Lemma add_to_dimension_nonpositive key value sums :
  value <= 0 -> add_to_dimension key value sums = sums.
Proof.
  intros Hv. unfold add_to_dimension.
  destruct (DIMENSION_MAPPING !! key); [| reflexivity].
  now rewrite (proj2 (Z.ltb_ge 0 value) Hv).
Qed.

(** C6, as stated, fails: the loop adds a value only when [value > 0], so
    the penalty of -20 is left out of the Fit sum, and Fit is the same with
    and without the penalty. *)
Lemma region_penalty_left_out_of_fit :
  penalised_breakdown !! "region_penalty" = Some (-20) /\
  fit (dimensionSums penalised_breakdown) = 15 /\
  fit (dimensionSums (delete "region_penalty" penalised_breakdown)) = 15 /\
  fit (computeDimensions penalised_breakdown) = 16 /\
  fit (computeDimensions (delete "region_penalty" penalised_breakdown)) = 16.
Proof. vm_compute. repeat split; reflexivity. Qed.

(** C6, amended: [DIMENSION_MAPPING] sends [region_penalty] to Fit, but the
    aggregator adds strictly positive values only; a breakdown with
    [region_penalty = -20] has the same dimension sums, and the same
    dimensions, as the breakdown without that entry. *)
Theorem region_penalty_ignored_by_dimensions (breakdown : gmap string Z) :
  breakdown !! "region_penalty" = Some (-20) ->
  DIMENSION_MAPPING !! "region_penalty" = Some DFit /\
  dimensionSums breakdown = dimensionSums (delete "region_penalty" breakdown) /\
  computeDimensions breakdown =
    computeDimensions (delete "region_penalty" breakdown).
Proof.
  intros Hpenalty.
  assert (Hsums : dimensionSums breakdown =
                  dimensionSums (delete "region_penalty" breakdown)).
  { unfold dimensionSums.
    rewrite (map_fold_delete_L add_to_dimension _ "region_penalty" (-20) breakdown);
      [| intros; apply add_to_dimension_comm | exact Hpenalty].
    apply add_to_dimension_nonpositive. lia. }
  split; [reflexivity |]. split; [exact Hsums |].
  unfold computeDimensions. now rewrite Hsums.
Qed.

Lemma region_penalty_ignored_by_dimensions_witness :
  dimensionSums penalised_breakdown =
  dimensionSums (delete "region_penalty" penalised_breakdown).
Proof.
  apply (region_penalty_ignored_by_dimensions penalised_breakdown).
  vm_compute. reflexivity.
Defined.

(** *** Enrichment merge *)

Lemma nullish_fills {A} (original enr : opt A) :
  fills original enr (nullish original enr).
Proof.
  unfold fills. destruct original; simpl; split; intros H;
    first [ reflexivity | contradiction | now destruct H ].
Qed.

(** C4: in the record returned by [mergeEnrichment] every optional field
    is the original's when that is neither [undefined] nor [null] and the
    enrichment's otherwise, and [company_domain] is the original's. *)
Theorem mergeEnrichment_fills_gaps
    (original : UniversalLeadInput) (enr : PartialLeadInput) :
  let merged := mergeEnrichment original enr in
  company_domain merged = company_domain original /\
  fills (company_name original) (company_name enr) (company_name merged) /\
  fills (company_industry original) (company_industry enr)
    (company_industry merged) /\
  fills (company_employee_band original) (company_employee_band enr)
    (company_employee_band merged) /\
  fills (company_revenue_band original) (company_revenue_band enr)
    (company_revenue_band merged) /\
  fills (company_region original) (company_region enr) (company_region merged) /\
  fills (company_tech_stack_summary original) (company_tech_stack_summary enr)
    (company_tech_stack_summary merged) /\
  fills (contact_email original) (contact_email enr) (contact_email merged) /\
  fills (contact_first_name original) (contact_first_name enr)
    (contact_first_name merged) /\
  fills (contact_last_name original) (contact_last_name enr)
    (contact_last_name merged) /\
  fills (contact_role_function original) (contact_role_function enr)
    (contact_role_function merged) /\
  fills (contact_role_seniority original) (contact_role_seniority enr)
    (contact_role_seniority merged) /\
  fills (contact_title_raw original) (contact_title_raw enr)
    (contact_title_raw merged) /\
  fills (contact_geo original) (contact_geo enr) (contact_geo merged) /\
  fills (contact_phone original) (contact_phone enr) (contact_phone merged) /\
  fills (primary_use_case original) (primary_use_case enr)
    (primary_use_case merged) /\
  fills (estimated_deal_band original) (estimated_deal_band enr)
    (estimated_deal_band merged) /\
  fills (urgency_band original) (urgency_band enr) (urgency_band merged) /\
  fills (lead_source original) (lead_source enr) (lead_source merged).
Proof.
  intros merged. subst merged. unfold mergeEnrichment. cbn.
  repeat split; try reflexivity; apply nullish_fills.
Qed.

(** *** Band conversions *)

Lemma HubSpot_bands_undefined_or_NaN :
  HubSpot.mapEmployeeCountToBand undefined = undefined /\
  HubSpot.mapEmployeeCountToBand (val NaN) = undefined /\
  HubSpot.mapRevenueToBand undefined = undefined /\
  HubSpot.mapRevenueToBand (val NaN) = undefined.
Proof. repeat split. Qed.

Lemma Salesforce_bands_undefined :
  Salesforce.mapEmployeeCountToBand undefined = undefined /\
  Salesforce.mapRevenueToBand undefined = undefined.
Proof. split; reflexivity. Qed.

Lemma bands_of_defined_numbers (q : Q) :
  Salesforce.mapEmployeeCountToBand (val (Fin q)) = val (employee_band_of q) /\
  HubSpot.mapEmployeeCountToBand (val (Fin q)) = val (employee_band_of q) /\
  Salesforce.mapRevenueToBand (val (Fin q)) = val (revenue_band_of q) /\
  HubSpot.mapRevenueToBand (val (Fin q)) = val (revenue_band_of q).
Proof.
  unfold Salesforce.mapEmployeeCountToBand, HubSpot.mapEmployeeCountToBand,
    Salesforce.mapRevenueToBand, HubSpot.mapRevenueToBand,
    employee_band_of, revenue_band_of, le, lt, isNaN.
  repeat split; repeat case_match; reflexivity.
Qed.

(** The Salesforce mapper has no [isNaN] test: every comparison with NaN is
    false, so NaN would fall through to the top band.  The mapper receives
    its numbers from a JSON body, which cannot hold NaN; the HubSpot
    mapper, which parses strings, has the test. *)
Lemma Salesforce_bands_of_NaN :
  Salesforce.mapEmployeeCountToBand (val NaN) = val "1000+" /\
  Salesforce.mapRevenueToBand (val NaN) = val "250M+".
Proof. split; reflexivity. Qed.





(** *** Payload classifier *)

Section ClassifierProperties.

Variable mapSalesforceToUniversal : gmap string json -> MapResult.
Variable mapHubSpotToUniversal : gmap string json -> MapResult.
Variable mapPipedriveToUniversal : gmap string json -> MapResult.
Variable mapRawToUniversal : gmap string json -> UniversalLeadInput.

#[local] Abbreviation classify :=
  (detectAndMap mapSalesforceToUniversal mapHubSpotToUniversal
     mapPipedriveToUniversal mapRawToUniversal).

(** The Salesforce hint is honoured whatever the detectors say. *)
Lemma salesforce_hint_selects_salesforce payload :
  hinted payload "salesforce" = true ->
  classify payload =
  mkDetected salesforce (universal (mapSalesforceToUniversal payload))
    (externalId (mapSalesforceToUniversal payload)).
Proof. intros H. unfold classify, detectAndMap. now rewrite H. Qed.

(** The HubSpot hint is honoured when the Salesforce detector is silent. *)
Lemma hubspot_hint_selects_hubspot payload :
  hinted payload "hubspot" = true ->
  Salesforce.isSalesforcePayload payload = false ->
  classify payload =
  mkDetected hubspot (universal (mapHubSpotToUniversal payload))
    (externalId (mapHubSpotToUniversal payload)).
Proof.
  intros Hhint Hsf. unfold classify, detectAndMap.
  assert (hinted payload "salesforce" = false) as ->.
  { unfold hinted in *. repeat case_match; try discriminate.
    apply String.eqb_eq in Hhint. now subst. }
  now rewrite Hsf, Hhint.
Qed.

(** The Pipedrive hint is honoured when the Salesforce and HubSpot
    detectors are silent. *)
Lemma pipedrive_hint_selects_pipedrive payload :
  hinted payload "pipedrive" = true ->
  Salesforce.isSalesforcePayload payload = false ->
  HubSpot.isHubSpotPayload payload = false ->
  classify payload =
  mkDetected pipedrive (universal (mapPipedriveToUniversal payload))
    (externalId (mapPipedriveToUniversal payload)).
Proof.
  intros Hhint Hsf Hhs. unfold classify, detectAndMap.
  assert (hinted payload "salesforce" = false /\
          hinted payload "hubspot" = false) as [-> ->].
  { unfold hinted in *. repeat case_match; try discriminate;
      apply String.eqb_eq in Hhint; now subst. }
  now rewrite Hsf, Hhs, Hhint.
Qed.

(** C2: the hint is tested together with each detector, in detector order,
    so a HubSpot hint loses to the Salesforce detector and a Pipedrive hint
    loses to the HubSpot detector. *)
Theorem hint_loses_to_earlier_detector :
  hinted hubspot_hinted_payload "hubspot" = true /\
  source (classify hubspot_hinted_payload) = salesforce /\
  universalInput (classify hubspot_hinted_payload) =
    universal (mapSalesforceToUniversal hubspot_hinted_payload) /\
  hinted pipedrive_hinted_payload "pipedrive" = true /\
  source (classify pipedrive_hinted_payload) = hubspot /\
  universalInput (classify pipedrive_hinted_payload) =
    universal (mapHubSpotToUniversal pipedrive_hinted_payload).
Proof.
  unfold classify, detectAndMap.
  assert (Hsf : Salesforce.isSalesforcePayload hubspot_hinted_payload = true)
    by (vm_compute; reflexivity).
  assert (Hsf' : Salesforce.isSalesforcePayload pipedrive_hinted_payload = false)
    by (vm_compute; reflexivity).
  assert (Hhs : HubSpot.isHubSpotPayload pipedrive_hinted_payload = true)
    by (vm_compute; reflexivity).
  assert (Hh1 : hinted hubspot_hinted_payload "hubspot" = true)
    by (vm_compute; reflexivity).
  assert (Hh2 : hinted pipedrive_hinted_payload "pipedrive" = true)
    by (vm_compute; reflexivity).
  assert (Hh3 : hinted pipedrive_hinted_payload "salesforce" = false)
    by (vm_compute; reflexivity).
  rewrite Hsf, Hsf', Hhs, Hh3, !orb_true_r. cbn.
  repeat split; assumption.
Qed.

End ClassifierProperties.

(** *** Enrichment that lowers the score *)

(** C10: under the default configuration there are a raw record and an
    enrichment whose gap-filling merge lowers the score: the title
    [Founder] scores 30 by keyword, and once the enrichment fills
    [contact_role_seniority] with [IC] the enumeration wins with 5. *)
Theorem enrichment_can_lower_score :
  exists (rawLead : UniversalLeadInput) (enr : PartialLeadInput),
    let enrichedLead := mergeEnrichment rawLead enr in
    let r := scoreLeadDual rawLead enrichedLead undefined in
    contact_role_seniority rawLead = undefined /\
    contact_title_raw enrichedLead = contact_title_raw rawLead /\
    (scoreSeniority rawLead raw).1 = 30 /\
    (scoreSeniority enrichedLead enriched).1 = 5 /\
    lift r < 0 /\
    lift (scoreLeadDual rawLead enrichedLead (val getDefaultScoringConfig)) < 0.
Proof.
  exists founder_lead, ic_enrichment. vm_compute.
  repeat split; reflexivity.
Qed.

(* ===================================================================== *)
(** ** Further properties of the scoring engine *)
(* ===================================================================== *)

Lemma truthy_or_else a b :
  truthy (or_else a b) =
  match truthy a with
  | Some s => Some s
  | None => truthy b
  end.
Proof. unfold or_else. destruct (truthy a) eqn:Ha; [exact Ha | reflexivity]. Qed.

Section ScoredView.

Variables a b : UniversalLeadInput.
Hypothesis Hview : scored_view a = scored_view b.
Variable phase : Phase.

Ltac by_view f :=
  unfold scored_view in Hview; injection Hview; intros;
  unfold f; rewrite ?truthy_or_else;
  repeat match goal with
         | H : truthy _ = truthy _ |- _ => rewrite ?H; clear H
         end;
  reflexivity.

Lemma scoreEmailDomain_view : scoreEmailDomain a phase = scoreEmailDomain b phase.
Proof. by_view scoreEmailDomain. Qed.

Lemma scoreCompanySize_view : scoreCompanySize a phase = scoreCompanySize b phase.
Proof. by_view scoreCompanySize. Qed.

Lemma scoreRevenue_view : scoreRevenue a phase = scoreRevenue b phase.
Proof. by_view scoreRevenue. Qed.

Lemma scoreSeniority_view : scoreSeniority a phase = scoreSeniority b phase.
Proof. by_view scoreSeniority. Qed.

Lemma scoreIndustry_view l : scoreIndustry a l phase = scoreIndustry b l phase.
Proof. by_view scoreIndustry. Qed.

Lemma scoreLeadSource_view : scoreLeadSource a phase = scoreLeadSource b phase.
Proof. by_view scoreLeadSource. Qed.

Lemma scoreUseCase_view l : scoreUseCase a l phase = scoreUseCase b l phase.
Proof. by_view scoreUseCase. Qed.

Lemma scoreUrgency_view : scoreUrgency a phase = scoreUrgency b phase.
Proof. by_view scoreUrgency. Qed.

Lemma scoreDealBand_view : scoreDealBand a phase = scoreDealBand b phase.
Proof. by_view scoreDealBand. Qed.

Lemma scoreRegion_view l : scoreRegion a l phase = scoreRegion b l phase.
Proof. by_view scoreRegion. Qed.

End ScoredView.

Lemma computeScore_view
    (a b : UniversalLeadInput) (config : TenantScoringConfig)
    (weights : gmap string Q) (phase : Phase) :
  scored_view a = scored_view b ->
  computeScore a config weights phase = computeScore b config weights phase.
Proof.
  intros H. unfold computeScore, accumulate, collect_reasons.
  rewrite !(scoreEmailDomain_view a b H), !(scoreCompanySize_view a b H),
    !(scoreRevenue_view a b H), !(scoreSeniority_view a b H),
    !(scoreIndustry_view a b H), !(scoreLeadSource_view a b H),
    !(scoreUseCase_view a b H), !(scoreUrgency_view a b H),
    !(scoreDealBand_view a b H), !(scoreRegion_view a b H).
  reflexivity.
Qed.

(** X1: scoring reads a lead only through the truthy values of twelve
    fields; two leads that agree on them get the same score, tier,
    breakdown and reasons. *)
Theorem computeScore_reads_scored_view
    (a b : UniversalLeadInput) (config : TenantScoringConfig)
    (weights : gmap string Q) (phase : Phase) :
  scored_view a = scored_view b ->
  computeScore a config weights phase = computeScore b config weights phase.
Proof. apply computeScore_view. Qed.

Lemma computeScore_reads_scored_view_witness :
  renamed_lead <> baseRawLead /\
  computeScore renamed_lead getDefaultScoringConfig BASE_WEIGHTS enriched =
  computeScore baseRawLead getDefaultScoringConfig BASE_WEIGHTS enriched.
Proof.
  split; [discriminate |].
  apply (computeScore_reads_scored_view renamed_lead baseRawLead).
  reflexivity.
Defined.

Section RawReasons.

Variable input : UniversalLeadInput.

Ltac no_reason f := unfold f, say_if; repeat case_match; reflexivity.

Lemma scoreEmailDomain_raw : (scoreEmailDomain input raw).2 = [].
Proof. no_reason scoreEmailDomain. Qed.

Lemma scoreCompanySize_raw : (scoreCompanySize input raw).2 = [].
Proof. no_reason scoreCompanySize. Qed.

Lemma scoreRevenue_raw : (scoreRevenue input raw).2 = [].
Proof. no_reason scoreRevenue. Qed.

Lemma scoreSeniority_raw : (scoreSeniority input raw).2 = [].
Proof. no_reason scoreSeniority. Qed.

Lemma scoreIndustry_raw l : (scoreIndustry input l raw).2 = [].
Proof. no_reason scoreIndustry. Qed.

Lemma scoreLeadSource_raw : (scoreLeadSource input raw).2 = [].
Proof. no_reason scoreLeadSource. Qed.

Lemma scoreUseCase_raw l : (scoreUseCase input l raw).2 = [].
Proof. no_reason scoreUseCase. Qed.

Lemma scoreUrgency_raw : (scoreUrgency input raw).2 = [].
Proof. no_reason scoreUrgency. Qed.

Lemma scoreDealBand_raw : (scoreDealBand input raw).2 = [].
Proof. no_reason scoreDealBand. Qed.

Lemma scoreRegion_raw l : (scoreRegion input l raw).2 = [].
Proof. no_reason scoreRegion. Qed.

End RawReasons.

(** X2: the raw phase pushes no reason at all. *)
Theorem raw_phase_has_no_reasons
    (input : UniversalLeadInput) (config : TenantScoringConfig)
    (weights : gmap string Q) :
  cs_reasons (computeScore input config weights raw) = [].
Proof.
  unfold computeScore, collect_reasons. cbn [cs_reasons].
  now rewrite scoreEmailDomain_raw, scoreCompanySize_raw, scoreRevenue_raw,
    scoreSeniority_raw, scoreIndustry_raw, scoreLeadSource_raw,
    scoreUseCase_raw, scoreUrgency_raw, scoreDealBand_raw, scoreRegion_raw.
Qed.

(** X3: the weights never add or remove an entry of the breakdown, the
    value of an entry depends on the weight of its own key only, and the
    region penalty on no weight. *)
Theorem breakdown_entry_depends_on_own_weight
    (input : UniversalLeadInput) (config : TenantScoringConfig)
    (w1 w2 : gmap string Q) (phase : Phase) (key : string) :
  let b1 := cs_breakdown (computeScore input config w1 phase) in
  let b2 := cs_breakdown (computeScore input config w2 phase) in
  dom b1 = dom b2 /\
  (weight_of w1 key = weight_of w2 key -> b1 !! key = b2 !! key) /\
  b1 !! "region_penalty" = b2 !! "region_penalty".
Proof.
  cbv zeta. unfold computeScore. cbn [cs_breakdown]. repeat split.
  - apply set_eq. intros k. rewrite !elem_of_dom, !accumulate_lookup. cbv zeta.
    destruct (if String.eqb k "industry" then _ else _);
      split; intros [x Hx]; try discriminate; eauto.
  - intros Hw. rewrite !accumulate_lookup. cbv zeta.
    unfold recorded_value, weighted. now rewrite Hw.
  - rewrite !accumulate_lookup. reflexivity.
Qed.

(** X4: for a key the tenant does not override, the entry of either
    breakdown of [scoreLeadDual] is the unweighted points of the signal. *)
Theorem unweighted_entry_is_signal_points
    (rawLead enrichedLead : UniversalLeadInput) (config : TenantScoringConfig)
    (key : string) (v : Z) :
  weight_overrides config !! key = None ->
  let r := scoreLeadDual rawLead enrichedLead (val config) in
  (score_breakdown r !! key = Some v ->
   v = signal_points enrichedLead config enriched key) /\
  (raw_breakdown r !! key = Some v ->
   v = signal_points rawLead config raw key).
Proof.
  intros Hnone. cbv zeta. unfold scoreLeadDual, computeScore.
  cbn [score_breakdown raw_breakdown cs_breakdown].
  rewrite !accumulate_lookup. cbv zeta.
  assert (Hone : forall points,
    recorded_value (weight_overrides config ∪ BASE_WEIGHTS) key points = points).
  { intros points. unfold recorded_value.
    destruct (String.eqb key "region_penalty"); [reflexivity |].
    apply weighted_one. now rewrite merged_weight_of, Hnone. }
  rewrite !Hone.
  split; intros H; repeat case_match; congruence.
Qed.

Lemma unweighted_entry_is_signal_points_witness :
  score_breakdown
    (scoreLeadDual baseRawLead enrichedTestLead (val email_off_config))
    !! "company_size" = Some 20 /\
  20 = signal_points enrichedTestLead email_off_config enriched "company_size".
Proof.
  assert (H : score_breakdown
    (scoreLeadDual baseRawLead enrichedTestLead (val email_off_config))
    !! "company_size" = Some 20) by (vm_compute; reflexivity).
  split; [exact H |].
  apply (unweighted_entry_is_signal_points baseRawLead enrichedTestLead
           email_off_config "company_size" 20);
    [vm_compute; reflexivity | exact H].
Defined.

(** *** Enrichment that cannot lower the score *)

Lemma truthy_nullish (o e : opt string) :
  truthy (nullish o e) = truthy o \/ truthy o = None.
Proof. destruct o; simpl; auto. Qed.

Lemma truthy_nullish_keeps (o e : opt string) :
  truthy e = None -> truthy (nullish o e) = truthy o.
Proof. intros He. destruct o; simpl; auto. Qed.

Lemma weighted_zero weights key : weighted weights key 0 = 0.
Proof.
  unfold weighted, Math_round. destruct (weight_of weights key) as [a b].
  unfold Qfloor, Qplus, Qmult, inject_Z. simpl.
  apply Z.div_small. lia.
Qed.

Lemma weighted_mono weights key p p' :
  (0 <= weight_of weights key)%Q ->
  p <= p' ->
  weighted weights key p <= weighted weights key p'.
Proof.
  intros Hw Hp. unfold weighted, Math_round.
  apply Qfloor_resp_le, Qplus_le_l, Qmult_le_compat_r; [| exact Hw].
  now rewrite <- Zle_Qle.
Qed.

Lemma contribution_mono weights key p p' :
  (0 <= weight_of weights key)%Q ->
  0 <= p <= p' ->
  contribution (0 <? p)%Z (weighted weights key p) <=
  contribution (0 <? p')%Z (weighted weights key p').
Proof.
  intros Hw [Hp Hpp']. unfold contribution.
  pose proof (weighted_zero weights key) as Hz.
  pose proof (weighted_mono weights key 0 p' Hw ltac:(lia)) as H0.
  pose proof (weighted_mono weights key p p' Hw Hpp') as H1.
  destruct (Z.ltb_spec 0 p), (Z.ltb_spec 0 p'); lia.
Qed.

Lemma nonzero_guard p : 0 <= p -> negb (p =? 0)%Z = (0 <? p)%Z.
Proof.
  intros Hp. destruct (Z.eqb_spec p 0), (Z.ltb_spec 0 p); simpl; lia.
Qed.

Lemma signal_range_nonneg z : signal_range z -> 0 <= z.
Proof. unfold signal_range. lia. Qed.

(** A scorer that reads one field [f] awards the merged record at least
    what it awards the original. *)
Lemma single_field_le
    (f : UniversalLeadInput -> opt string)
    (scorer : UniversalLeadInput -> Phase -> Z * list string) :
  (forall x y ph ph',
      truthy (f x) = truthy (f y) -> (scorer x ph).1 = (scorer y ph').1) ->
  (forall x ph, truthy (f x) = None -> (scorer x ph).1 = 0) ->
  (forall x ph, signal_range (scorer x ph).1) ->
  forall o m,
    truthy (f m) = truthy (f o) \/ truthy (f o) = None ->
    0 <= (scorer o raw).1 <= (scorer m enriched).1.
Proof.
  intros Hsame Habsent Hrange o m [Heq | Hnone].
  - rewrite (Hsame m o enriched raw Heq).
    pose proof (signal_range_nonneg _ (Hrange o raw)). lia.
  - rewrite (Habsent o raw Hnone).
    pose proof (signal_range_nonneg _ (Hrange m enriched)). lia.
Qed.

Ltac same_field f :=
  let H := fresh in
  intros ? ? ? ? H; unfold f; rewrite H; repeat case_match; reflexivity.

Ltac absent_field f :=
  let H := fresh in
  intros ? ? H; unfold f; rewrite H; reflexivity.

Section GapFilling.

Variable rawLead : UniversalLeadInput.
Variable enr : PartialLeadInput.
Variable config : TenantScoringConfig.

Let merged := mergeEnrichment rawLead enr.

Lemma email_points_le :
  0 <= (scoreEmailDomain rawLead raw).1 <= (scoreEmailDomain merged enriched).1.
Proof.
  apply (single_field_le contact_email scoreEmailDomain);
    [same_field scoreEmailDomain | absent_field scoreEmailDomain
    | apply scoreEmailDomain_range | apply truthy_nullish].
Qed.

Lemma size_points_le :
  0 <= (scoreCompanySize rawLead raw).1 <= (scoreCompanySize merged enriched).1.
Proof.
  apply (single_field_le company_employee_band scoreCompanySize);
    [same_field scoreCompanySize | absent_field scoreCompanySize
    | apply scoreCompanySize_range | apply truthy_nullish].
Qed.

Lemma revenue_points_le :
  0 <= (scoreRevenue rawLead raw).1 <= (scoreRevenue merged enriched).1.
Proof.
  apply (single_field_le company_revenue_band scoreRevenue);
    [same_field scoreRevenue | absent_field scoreRevenue
    | apply scoreRevenue_range | apply truthy_nullish].
Qed.

Lemma industry_points_le :
  0 <= (scoreIndustry rawLead (priority_industries config) raw).1
    <= (scoreIndustry merged (priority_industries config) enriched).1.
Proof.
  apply (single_field_le company_industry
           (fun x ph => scoreIndustry x (priority_industries config) ph));
    [same_field scoreIndustry | absent_field scoreIndustry
    | intros; apply scoreIndustry_range | apply truthy_nullish].
Qed.

Lemma source_points_le :
  0 <= (scoreLeadSource rawLead raw).1 <= (scoreLeadSource merged enriched).1.
Proof.
  apply (single_field_le lead_source scoreLeadSource);
    [same_field scoreLeadSource | absent_field scoreLeadSource
    | apply scoreLeadSource_range | apply truthy_nullish].
Qed.

Lemma use_case_points_le :
  0 <= (scoreUseCase rawLead (priority_use_cases config) raw).1
    <= (scoreUseCase merged (priority_use_cases config) enriched).1.
Proof.
  apply (single_field_le primary_use_case
           (fun x ph => scoreUseCase x (priority_use_cases config) ph));
    [same_field scoreUseCase | absent_field scoreUseCase
    | intros; apply scoreUseCase_range | apply truthy_nullish].
Qed.

Lemma urgency_points_le :
  0 <= (scoreUrgency rawLead raw).1 <= (scoreUrgency merged enriched).1.
Proof.
  apply (single_field_le urgency_band scoreUrgency);
    [same_field scoreUrgency | absent_field scoreUrgency
    | apply scoreUrgency_range | apply truthy_nullish].
Qed.

Lemma deal_points_le :
  0 <= (scoreDealBand rawLead raw).1 <= (scoreDealBand merged enriched).1.
Proof.
  apply (single_field_le estimated_deal_band scoreDealBand);
    [same_field scoreDealBand | absent_field scoreDealBand
    | apply scoreDealBand_range | apply truthy_nullish].
Qed.

Hypothesis Hseniority : truthy (contact_role_seniority enr) = None.
Hypothesis Hregion : truthy (company_region enr) = None.
Hypothesis Hgeo : truthy (contact_geo enr) = None.

Lemma seniority_points_le :
  0 <= (scoreSeniority rawLead raw).1 <= (scoreSeniority merged enriched).1.
Proof.
  pose proof (signal_range_nonneg _ (scoreSeniority_range rawLead raw)) as H0.
  pose proof (signal_range_nonneg _ (scoreSeniority_range merged enriched)) as H1.
  split; [exact H0 |].
  assert (Hs : truthy (contact_role_seniority merged)
               = truthy (contact_role_seniority rawLead))
    by (apply truthy_nullish_keeps, Hseniority).
  revert H1. unfold scoreSeniority. rewrite Hs.
  destruct (truthy (contact_role_seniority rawLead)); [cbn [fst]; lia |].
  pose proof (truthy_nullish (contact_title_raw rawLead) (contact_title_raw enr))
    as Ht.
  change (nullish (contact_title_raw rawLead) (contact_title_raw enr))
    with (contact_title_raw merged) in Ht.
  destruct Ht as [Ht | Ht].
  - rewrite Ht. intros _. repeat case_match; cbn [fst]; lia.
  - rewrite Ht. cbn [fst]. tauto.
Qed.

Lemma region_points_eq l :
  (scoreRegion rawLead l raw).1 = (scoreRegion merged l enriched).1.
Proof.
  unfold scoreRegion. rewrite !truthy_or_else.
  assert (truthy (company_region merged) = truthy (company_region rawLead)) as ->
    by (apply truthy_nullish_keeps, Hregion).
  assert (truthy (contact_geo merged) = truthy (contact_geo rawLead)) as ->
    by (apply truthy_nullish_keeps, Hgeo).
  repeat case_match; reflexivity.
Qed.

Hypothesis Hweights :
  map_Forall (fun _ w => (0 <= w)%Q) (weight_overrides config).

Lemma merged_weights_nonneg key :
  (0 <= weight_of (weight_overrides config ∪ BASE_WEIGHTS) key)%Q.
Proof.
  rewrite merged_weight_of.
  destruct (weight_overrides config !! key) as [w |] eqn:Hw; simpl.
  - exact (Hweights key w Hw).
  - discriminate.
Qed.

Lemma weighted_points_sum_le :
  let weights := weight_overrides config ∪ BASE_WEIGHTS in
  weighted_points_sum rawLead config weights raw <=
  weighted_points_sum merged config weights enriched.
Proof.
  cbv zeta. unfold weighted_points_sum. cbv zeta.
  rewrite <- (region_points_eq (excluded_regions config)).
  rewrite !nonzero_guard by apply signal_range_nonneg, scoreIndustry_range.
  pose proof (contribution_mono _ "email_domain" _ _
                (merged_weights_nonneg _) email_points_le).
  pose proof (contribution_mono _ "company_size" _ _
                (merged_weights_nonneg _) size_points_le).
  pose proof (contribution_mono _ "revenue" _ _
                (merged_weights_nonneg _) revenue_points_le).
  pose proof (contribution_mono _ "seniority" _ _
                (merged_weights_nonneg _) seniority_points_le).
  pose proof (contribution_mono _ "industry" _ _
                (merged_weights_nonneg _) industry_points_le).
  pose proof (contribution_mono _ "lead_source" _ _
                (merged_weights_nonneg _) source_points_le).
  pose proof (contribution_mono _ "use_case" _ _
                (merged_weights_nonneg _) use_case_points_le).
  pose proof (contribution_mono _ "urgency" _ _
                (merged_weights_nonneg _) urgency_points_le).
  pose proof (contribution_mono _ "deal_band" _ _
                (merged_weights_nonneg _) deal_points_le).
  lia.
Qed.

End GapFilling.

(** X5: when the enrichment brings no seniority and no region, and no
    weight override is negative, the merged record scores at least as much
    as the original: the lift is not negative. *)
Theorem lift_nonnegative_without_seniority_and_region
    (rawLead : UniversalLeadInput) (enr : PartialLeadInput)
    (config : TenantScoringConfig) :
  truthy (contact_role_seniority enr) = None ->
  truthy (company_region enr) = None ->
  truthy (contact_geo enr) = None ->
  map_Forall (fun _ w => (0 <= w)%Q) (weight_overrides config) ->
  0 <= lift (scoreLeadDual rawLead (mergeEnrichment rawLead enr) (val config)).
Proof.
  intros Hs Hr Hg Hw.
  pose proof (weighted_points_sum_le rawLead enr config Hs Hr Hg Hw) as Hle.
  cbv zeta in Hle.
  unfold scoreLeadDual, computeScore. cbn [lift cs_score].
  rewrite !accumulate_total. lia.
Qed.

Lemma lift_nonnegative_without_seniority_and_region_witness :
  0 <= lift (scoreLeadDual baseRawLead
               (mergeEnrichment baseRawLead size_enrichment)
               (val seniority_boost_config)).
Proof.
  apply (lift_nonnegative_without_seniority_and_region baseRawLead
           size_enrichment seniority_boost_config);
    try reflexivity.
  apply map_Forall_singleton. vm_compute. discriminate.
Defined.

(** *** Single signals *)



(** *** Tiers *)

Lemma threshold_reached_mono (t : Q) (s1 s2 : Z) :
  s1 <= s2 ->
  Qle_bool t (inject_Z s1) = true -> Qle_bool t (inject_Z s2) = true.
Proof.
  intros Hs H. apply Qle_bool_iff in H. apply Qle_bool_iff.
  eapply Qle_trans; [exact H |]. now rewrite <- Zle_Qle.
Qed.

(** X8: a higher score never gets a lower tier, whatever the thresholds. *)
Theorem determineTier_monotone (s1 s2 : Z) (hotThreshold warmThreshold : Q) :
  s1 <= s2 ->
  tier_rank (determineTier s1 hotThreshold warmThreshold) <=
  tier_rank (determineTier s2 hotThreshold warmThreshold).
Proof.
  intros Hs. unfold determineTier.
  pose proof (threshold_reached_mono hotThreshold s1 s2 Hs) as Hhot.
  pose proof (threshold_reached_mono warmThreshold s1 s2 Hs) as Hwarm.
  destruct (Qle_bool hotThreshold (inject_Z s1)),
    (Qle_bool hotThreshold (inject_Z s2)),
    (Qle_bool warmThreshold (inject_Z s1)),
    (Qle_bool warmThreshold (inject_Z s2)); simpl;
    try lia;
    try (specialize (Hhot eq_refl); discriminate);
    try (specialize (Hwarm eq_refl); discriminate).
Qed.

Lemma determineTier_monotone_witness :
  tier_rank (determineTier 40 70 40) <= tier_rank (determineTier 100 70 40).
Proof. apply determineTier_monotone. lia. Defined.

(** X9: when [hot_threshold] is not above [warm_threshold] no lead is
    ever Warm: both tiers of [scoreLeadDual] are Hot or Cold. *)
Theorem no_warm_tier_under_inverted_thresholds
    (rawLead enrichedLead : UniversalLeadInput) (config : TenantScoringConfig) :
  (hot_threshold config <= warm_threshold config)%Q ->
  let r := scoreLeadDual rawLead enrichedLead (val config) in
  raw_tier r <> Warm /\ enriched_tier r <> Warm /\ tier r <> Warm.
Proof.
  intros Hinv. cbv zeta. unfold scoreLeadDual, computeScore.
  cbn [raw_tier enriched_tier tier cs_tier cs_score].
  assert (Hno : forall s,
    determineTier s (hot_threshold config) (warm_threshold config) <> Warm).
  { intros s. unfold determineTier.
    destruct (Qle_bool (hot_threshold config) (inject_Z s)) eqn:Hh;
      [discriminate |].
    destruct (Qle_bool (warm_threshold config) (inject_Z s)) eqn:Hw;
      [| discriminate].
    apply Qle_bool_iff in Hw.
    assert (Qle_bool (hot_threshold config) (inject_Z s) = true)
      by (apply Qle_bool_iff; eapply Qle_trans; eassumption).
    congruence. }
  repeat split; apply Hno.
Qed.

Lemma no_warm_tier_under_inverted_thresholds_witness :
  raw_tier (scoreLeadDual baseRawLead enrichedTestLead (val inverted_config))
    <> Warm.
Proof.
  apply (no_warm_tier_under_inverted_thresholds baseRawLead enrichedTestLead
           inverted_config).
  vm_compute. discriminate.
Defined.

(** *** Dimension aggregation *)

Lemma add_to_dimension_cases key value sums d :
  dimension_of d (add_to_dimension key value sums) =
  dimension_of d sums +
  (if bool_decide (DIMENSION_MAPPING !! key = Some d) && (0 <? value)%Z
   then value else 0).
Proof.
  unfold add_to_dimension.
  destruct (DIMENSION_MAPPING !! key) as [d0 |]; cbn [andb].
  - destruct (0 <? value)%Z.
    + case_bool_decide as Hd; cbn [andb].
      * injection Hd as <-. destruct d0; cbn; lia.
      * destruct d0, d; cbn; try lia; congruence.
    + rewrite andb_false_r. lia.
  - rewrite bool_decide_eq_false_2 by discriminate. cbn. lia.
Qed.

(** The sums are never negative, and a sum is positive exactly when the
    breakdown holds a positive value under a key of that dimension. *)
Lemma dimensionSums_spec (breakdown : gmap string Z) (d : Dimension) :
  0 <= dimension_of d (dimensionSums breakdown) /\
  (0 < dimension_of d (dimensionSums breakdown) <->
   exists key v,
     breakdown !! key = Some v /\ 0 < v /\ DIMENSION_MAPPING !! key = Some d).
Proof.
  unfold dimensionSums.
  apply (map_fold_weak_ind
           (fun r (m : gmap string Z) =>
              0 <= dimension_of d r /\
              (0 < dimension_of d r <->
               exists key v,
                 m !! key = Some v /\ 0 < v /\
                 DIMENSION_MAPPING !! key = Some d))).
  - split; [destruct d; cbn; lia |]. split.
    + destruct d; cbn; lia.
    + intros (key & v & Hk & _). now rewrite lookup_empty in Hk.
  - intros i x m r Hfresh [Hnn Hiff].
    rewrite add_to_dimension_cases.
    destruct (bool_decide (DIMENSION_MAPPING !! i = Some d) && (0 <? x)%Z)
      eqn:Hadd.
    + apply andb_true_iff in Hadd as [Hmap Hpos].
      apply bool_decide_eq_true in Hmap. apply Z.ltb_lt in Hpos.
      split; [lia |]. split; [| lia].
      intros _. exists i, x. now rewrite lookup_insert_eq.
    + rewrite Z.add_0_r. split; [exact Hnn |].
      rewrite Hiff. split.
      * intros (key & v & Hk & Hv & Hmap). exists key, v.
        rewrite lookup_insert_ne; [auto | congruence].
      * intros (key & v & Hk & Hv & Hmap).
        destruct (decide (i = key)) as [-> | Hne].
        -- rewrite lookup_insert_eq in Hk. injection Hk as ->.
           apply andb_false_iff in Hadd as [Hadd | Hadd].
           ++ apply bool_decide_eq_false in Hadd. contradiction.
           ++ apply Z.ltb_ge in Hadd. lia.
        -- rewrite lookup_insert_ne in Hk by exact Hne. eauto.
Qed.

Lemma normalize_spec (sum : Z) (max : positive) :
  (Z.pos max <= 200)%Z ->
  0 <= sum ->
  0 <= normalize sum (inject_Z (Z.pos max)) <= 100 /\
  (0 < normalize sum (inject_Z (Z.pos max)) <-> 0 < sum).
Proof.
  intros Hmax Hsum. unfold normalize, Math_round.
  unfold Qdiv, Qinv, Qmult, Qplus, Qfloor, inject_Z. cbn.
  rewrite !Pos.mul_1_r, !Z.mul_1_r.
  change (1 * max)%positive with max. rewrite Z.mul_1_l.
  set (q := (sum * 100 * 2 + Z.pos max) / Z.pos (max * 2)).
  assert (Hq0 : 0 <= q) by (apply Z.div_pos; lia).
  assert (Hq1 : 0 < q <-> 0 < sum).
  { subst q. split; intros H.
    - destruct (Z.eq_dec sum 0) as [-> | Hne]; [| lia].
      rewrite Z.div_small in H by lia. lia.
    - apply Z.div_str_pos. lia. }
  split; [lia |]. rewrite <- Hq1. lia.
Qed.

(** X10: every dimension returned by [computeDimensions] lies between 0
    and 100, for any breakdown, also one with negative values or unknown
    keys. *)
Theorem computeDimensions_range (breakdown : gmap string Z) :
  let d := computeDimensions breakdown in
  0 <= fit d <= 100 /\ 0 <= intent d <= 100 /\ 0 <= timing d <= 100.
Proof.
  cbv zeta. unfold computeDimensions. cbn [fit intent timing].
  pose proof (dimensionSums_spec breakdown DFit) as [Hf _].
  pose proof (dimensionSums_spec breakdown DIntent) as [Hi _].
  pose proof (dimensionSums_spec breakdown DTiming) as [Ht _].
  cbn [dimension_of] in *.
  repeat split;
    first [ apply (normalize_spec _ 95%positive ltac:(lia) Hf)
          | apply (normalize_spec _ 35%positive ltac:(lia) Hi)
          | apply (normalize_spec _ 20%positive ltac:(lia) Ht) ].
Qed.

(** On a breakdown of integers, a dimension is positive exactly when the
    breakdown holds a strictly positive value under one of the keys mapped
    to it. *)
Lemma dimension_positive_iff (breakdown : gmap string Z) (d : Dimension) :
  0 < dimension_of d (computeDimensions breakdown) <->
  exists key v,
    breakdown !! key = Some v /\ 0 < v /\ DIMENSION_MAPPING !! key = Some d.
Proof.
  pose proof (dimensionSums_spec breakdown d) as [Hnn Hiff].
  rewrite <- Hiff. unfold computeDimensions.
  destruct d; cbn [dimension_of fit intent timing] in *.
  - apply (normalize_spec _ 95%positive ltac:(lia) Hnn).
  - apply (normalize_spec _ 35%positive ltac:(lia) Hnn).
  - apply (normalize_spec _ 20%positive ltac:(lia) Hnn).
Qed.

(** X11: a dimension that [scoreLeadDual] returns is positive exactly when
    the enriched breakdown it returns holds a strictly positive value
    under one of the keys mapped to that dimension. *)
Theorem computeDimensions_positive
    (rawLead enrichedLead : UniversalLeadInput)
    (tenantConfig : opt TenantScoringConfig) (d : Dimension) :
  let r := scoreLeadDual rawLead enrichedLead tenantConfig in
  0 < dimension_of d (dimensions r) <->
  exists key v,
    score_breakdown r !! key = Some v /\ 0 < v /\
    DIMENSION_MAPPING !! key = Some d.
Proof. cbv zeta. unfold scoreLeadDual. cbn [dimensions score_breakdown].
  apply dimension_positive_iff.
Qed.

(** X12: an entry under a key outside [DIMENSION_MAPPING], or with a value
    that is not positive, has no effect on the dimensions. *)
Theorem computeDimensions_ignores_entry
    (breakdown : gmap string Z) (key : string) (v : Z) :
  DIMENSION_MAPPING !! key = None \/ v <= 0 ->
  computeDimensions (<[key := v]> breakdown) =
  computeDimensions (delete key breakdown).
Proof.
  intros Hskip. unfold computeDimensions.
  assert (Hsums : dimensionSums (<[key := v]> breakdown) =
                  dimensionSums (delete key breakdown)).
  { unfold dimensionSums. rewrite <- insert_delete_eq.
    rewrite map_fold_insert_L;
      [| intros; apply add_to_dimension_comm | apply lookup_delete_eq].
    unfold add_to_dimension. destruct Hskip as [-> | Hv]; [reflexivity |].
    destruct (DIMENSION_MAPPING !! key); [| reflexivity].
    now rewrite (proj2 (Z.ltb_ge 0 v) Hv). }
  now rewrite Hsums.
Qed.

Lemma computeDimensions_ignores_entry_witness :
  computeDimensions (<["company_name" := 50]> maxBreakdown) =
  computeDimensions (delete "company_name" maxBreakdown).
Proof.
  apply computeDimensions_ignores_entry. left. vm_compute. reflexivity.
Defined.

(** *** Merge, persistence view and stub enrichment *)

Lemma nullish_idem {A} (a b : opt A) : nullish (nullish a b) b = nullish a b.
Proof. destruct a; [destruct b; reflexivity | destruct b; reflexivity | reflexivity]. Qed.

(** X13: merging the same enrichment a second time changes nothing. *)
Theorem mergeEnrichment_idempotent
    (original : UniversalLeadInput) (enr : PartialLeadInput) :
  mergeEnrichment (mergeEnrichment original enr) enr =
  mergeEnrichment original enr.
Proof.
  unfold mergeEnrichment. cbn. now rewrite !nullish_idem.
Qed.

(** X14: an enrichment that provides nothing is neutral for scoring: the
    merged record gets the score, tier, breakdown and reasons of the
    original in every phase, and [scoreLeadDual] on the pair returns what
    [scoreLead] returns for the original, although the merge turns [null]
    fields into [undefined]. *)
Theorem empty_enrichment_is_neutral
    (original : UniversalLeadInput) (tenantConfig : opt TenantScoringConfig) :
  (forall config weights phase,
      computeScore (mergeEnrichment original no_enrichment) config weights phase =
      computeScore original config weights phase) /\
  scoreLeadDual original (mergeEnrichment original no_enrichment) tenantConfig =
  scoreLead original tenantConfig.
Proof.
  assert (Hview : scored_view (mergeEnrichment original no_enrichment) =
                  scored_view original).
  { unfold scored_view, mergeEnrichment, no_enrichment, bare_lead. cbn.
    now rewrite !truthy_nullish_keeps. }
  split.
  - intros. now apply computeScore_view.
  - unfold scoreLead, scoreLeadDual.
    now rewrite (computeScore_view _ _ _ _ _ Hview).
Qed.

Lemma or_null_cases {A} (a : opt A) :
  or_null a <> undefined /\ (present a -> or_null a = a).
Proof. destruct a; cbn; split; intros; try discriminate; tauto. Qed.

Lemma truthy_or_null (a : opt string) : truthy (or_null a) = truthy a.
Proof. now destruct a. Qed.

(** X15: [universalInputToLeadInsert] keeps [company_domain] and every
    present value, stores no [undefined], and the stored columns score
    exactly as the lead they were taken from. *)
Theorem universalInputToLeadInsert_preserves
    (input : UniversalLeadInput) (external_source : opt string)
    (raw_input : opt (gmap string json)) :
  let stored :=
    insert_lead (universalInputToLeadInsert input external_source raw_input) in
  company_domain stored = company_domain input /\
  Forall (fun f => f stored <> undefined /\ (present (f input) -> f stored = f input))
    string_fields /\
  (forall config weights phase,
      computeScore stored config weights phase =
      computeScore input config weights phase).
Proof.
  cbv zeta. unfold universalInputToLeadInsert. cbn [insert_lead].
  split; [reflexivity |]. split.
  - unfold string_fields. repeat constructor; cbn; apply or_null_cases.
  - intros. apply computeScore_view.
    unfold scored_view. cbn. now rewrite !truthy_or_null.
Qed.

Section StubEnrichment.

Variable inferFunctionFromTitle : string -> opt string.
Variable input : UniversalLeadInput.

Let enrichedLead :=
  mergeEnrichment input (Enrichment.stubEnrichment inferFunctionFromTitle input).

Lemma stub_keeps_truthy (f : forall D, LeadFields D -> opt string) :
  f _ (Enrichment.stubEnrichment inferFunctionFromTitle input) = undefined ->
  f _ enrichedLead =
    nullish (f _ input)
      (f _ (Enrichment.stubEnrichment inferFunctionFromTitle input)) ->
  truthy (f _ enrichedLead) = truthy (f _ input).
Proof. intros Hu ->. rewrite Hu. now apply truthy_nullish_keeps. Qed.

Lemma stub_view_email :
  truthy (contact_email enrichedLead) = truthy (contact_email input).
Proof. now apply (stub_keeps_truthy (@contact_email)). Qed.

Lemma stub_view_size :
  truthy (company_employee_band enrichedLead) = truthy (company_employee_band input).
Proof. now apply (stub_keeps_truthy (@company_employee_band)). Qed.

Lemma stub_view_revenue :
  truthy (company_revenue_band enrichedLead) = truthy (company_revenue_band input).
Proof. now apply (stub_keeps_truthy (@company_revenue_band)). Qed.

Lemma stub_view_title :
  truthy (contact_title_raw enrichedLead) = truthy (contact_title_raw input).
Proof. now apply (stub_keeps_truthy (@contact_title_raw)). Qed.

Lemma stub_view_industry :
  truthy (company_industry enrichedLead) = truthy (company_industry input).
Proof. now apply (stub_keeps_truthy (@company_industry)). Qed.

Lemma stub_view_source :
  truthy (lead_source enrichedLead) = truthy (lead_source input).
Proof. now apply (stub_keeps_truthy (@lead_source)). Qed.

Lemma stub_view_use_case :
  truthy (primary_use_case enrichedLead) = truthy (primary_use_case input).
Proof. now apply (stub_keeps_truthy (@primary_use_case)). Qed.

Lemma stub_view_urgency :
  truthy (urgency_band enrichedLead) = truthy (urgency_band input).
Proof. now apply (stub_keeps_truthy (@urgency_band)). Qed.

Lemma stub_view_deal :
  truthy (estimated_deal_band enrichedLead) = truthy (estimated_deal_band input).
Proof. now apply (stub_keeps_truthy (@estimated_deal_band)). Qed.

Lemma stub_view_region :
  truthy (company_region enrichedLead) = truthy (company_region input).
Proof. now apply (stub_keeps_truthy (@company_region)). Qed.

Lemma stub_view_geo :
  truthy (contact_geo enrichedLead) = truthy (contact_geo input).
Proof. now apply (stub_keeps_truthy (@contact_geo)). Qed.

Lemma stub_signal_points config phase key :
  String.eqb key "seniority" = false ->
  signal_points enrichedLead config phase key =
  signal_points input config phase key.
Proof.
  intros Hkey. unfold signal_points. rewrite Hkey.
  unfold scoreEmailDomain, scoreCompanySize, scoreRevenue, scoreIndustry,
    scoreLeadSource, scoreUseCase, scoreUrgency, scoreDealBand, scoreRegion.
  rewrite !truthy_or_else.
  rewrite stub_view_email, stub_view_size, stub_view_revenue,
    stub_view_industry, stub_view_source, stub_view_use_case,
    stub_view_urgency, stub_view_deal, stub_view_region, stub_view_geo.
  reflexivity.
Qed.

Lemma stub_seniority_points phase phase' title :
  ~ present (contact_role_seniority input) ->
  truthy (contact_title_raw input) = Some title ->
  (scoreSeniority input phase).1 = title_points title /\
  (scoreSeniority enrichedLead phase').1 = inferred_points title.
Proof.
  intros Habsent Htitle. split.
  - unfold scoreSeniority, title_points.
    destruct (contact_role_seniority input); cbn in Habsent |- *;
      try tauto; rewrite Htitle; repeat case_match; reflexivity.
  - assert (Hs : contact_role_seniority enrichedLead =
                 Enrichment.inferSeniorityFromTitle title).
    { unfold enrichedLead, mergeEnrichment, Enrichment.stubEnrichment. cbn.
      destruct (contact_role_seniority input); cbn in Habsent |- *;
        try tauto; now rewrite Htitle. }
    unfold scoreSeniority. rewrite Hs.
    unfold Enrichment.inferSeniorityFromTitle, inferred_points. cbv zeta.
    repeat match goal with
           | |- context [some_includes ?a ?b] => destruct (some_includes a b)
           end; vm_compute; reflexivity.
Qed.

End StubEnrichment.

(** X16: for a lead without seniority but with a title, the stub
    enrichment replaces the title's keyword points by the points of the
    seniority it infers.  These agree or rise, except for a title whose
    only keyword is "senior": scoring counts it as a manager title (10),
    the stub infers "IC" (5). *)
Theorem stub_enrichment_seniority
    (inferFunctionFromTitle : string -> opt string)
    (input : UniversalLeadInput) (title : string) :
  ~ present (contact_role_seniority input) ->
  truthy (contact_title_raw input) = Some title ->
  let enrichedLead :=
    mergeEnrichment input
      (Enrichment.stubEnrichment inferFunctionFromTitle input) in
  let before := (scoreSeniority input raw).1 in
  let after := (scoreSeniority enrichedLead enriched).1 in
  before = title_points title /\
  after = inferred_points title /\
  5 <= after <= 30 /\
  (before <= after \/ (before = 10 /\ after = 5)) /\
  (includes (toLowerCase title) "senior" = false -> before <= after).
Proof.
  intros Habsent Htitle. cbv zeta.
  destruct (stub_seniority_points inferFunctionFromTitle input raw enriched
              title Habsent Htitle) as [-> ->].
  unfold title_points, inferred_points. cbv zeta.
  destruct (some_includes (toLowerCase title) cSuiteKeywords),
    (some_includes (toLowerCase title) vpKeywords),
    (some_includes (toLowerCase title) directorKeywords);
  unfold managerKeywords, Enrichment.inferManagerKeywords, some_includes;
  cbn [existsb];
  destruct (includes (toLowerCase title) "manager"),
    (includes (toLowerCase title) "lead"),
    (includes (toLowerCase title) "senior"); cbn;
    repeat split; try lia; try (intros; lia); try discriminate.
Qed.

Lemma stub_enrichment_seniority_witness :
  (scoreSeniority senior_engineer_lead raw).1 = title_points "Senior Engineer" /\
  title_points "Senior Engineer" = 10 /\
  inferred_points "Senior Engineer" = 5.
Proof.
  split; [| split; reflexivity].
  apply (stub_enrichment_seniority (fun _ => undefined) senior_engineer_lead
           "Senior Engineer"); [cbn; tauto | reflexivity].
Defined.

(** X17: the enrich-lead handler rejects a lead exactly when its
    [company_domain] is empty; fed with the stub enrichment it returns a
    result whose raw and enriched breakdowns agree on every key but
    [seniority], and whose raw phase is the scoring of the lead as
    mapped. *)
Theorem enrichAndScore_with_stub
    (inferFunctionFromTitle : string -> opt string)
    (universalInput : UniversalLeadInput) (tenantConfig : TenantScoringConfig) :
  let outcome :=
    enrichAndScore universalInput
      (Enrichment.stubEnrichment inferFunctionFromTitle universalInput)
      tenantConfig in
  ((exists error, outcome = BadRequest error) <->
   company_domain universalInput = EmptyString) /\
  (forall enrichedLead r,
      outcome = Scored enrichedLead r ->
      (forall key, key <> "seniority" ->
                   raw_breakdown r !! key = score_breakdown r !! key) /\
      raw_score r = score (scoreLead universalInput (val tenantConfig))).
Proof.
  cbv zeta. unfold enrichAndScore.
  destruct (String.eqb_spec (company_domain universalInput) EmptyString)
    as [Hd | Hd].
  - split; [split; eauto |]. intros ? ? [=].
  - split.
    + split; [intros [? [=]] | intros; contradiction].
    + intros enrichedLead r [= <- <-]. split.
      * intros key Hkey. unfold scoreLeadDual, computeScore.
        cbn [raw_breakdown score_breakdown cs_breakdown].
        rewrite !accumulate_lookup. cbv zeta.
        apply String.eqb_neq in Hkey.
        rewrite (stub_signal_points inferFunctionFromTitle universalInput
                   tenantConfig enriched key Hkey).
        assert (Hph : signal_points universalInput tenantConfig enriched key =
                      signal_points universalInput tenantConfig raw key).
        { unfold signal_points.
          now rewrite (scoreEmailDomain_phase _ enriched raw),
            (scoreCompanySize_phase _ enriched raw),
            (scoreRevenue_phase _ enriched raw),
            (scoreSeniority_phase _ enriched raw),
            (scoreIndustry_phase _ enriched raw),
            (scoreLeadSource_phase _ enriched raw),
            (scoreUseCase_phase _ enriched raw),
            (scoreUrgency_phase _ enriched raw),
            (scoreDealBand_phase _ enriched raw),
            (scoreRegion_phase _ enriched raw). }
        now rewrite Hph.
      * unfold scoreLead, scoreLeadDual. cbn [raw_score score].
        apply computeScore_score_phase.
Qed.

(* ===================================================================== *)
(** ** Properties of the mappers *)
(* ===================================================================== *)

(** *** Strings *)

Lemma truthy_Some (a : opt string) s :
  truthy a = Some s <-> a = val s /\ s <> EmptyString.
Proof.
  destruct a as [| | t]; cbn; try (split; [discriminate | intros [[=] _]]).
  destruct (String.eqb_spec t EmptyString) as [-> | Hne]; split.
  - discriminate.
  - intros [[= ->] H]. contradiction.
  - intros [= ->]. auto.
  - intros [[= ->] _]. reflexivity.
Qed.

Lemma append_empty a b : a +:+ b = EmptyString -> a = EmptyString /\ b = EmptyString.
Proof. destruct a; cbn; [auto | discriminate]. Qed.

Lemma split_lacks sep s : lacks sep s = true -> split sep s = [s].
Proof.
  unfold lacks. induction s as [| c s IH]; cbn -[Ascii.eqb]; [reflexivity |].
  intros H. apply andb_true_iff in H as [Hc Hs].
  apply negb_true_iff in Hc. rewrite Hc, (IH Hs). reflexivity.
Qed.

Lemma append_nil_l s : EmptyString +:+ s = s.
Proof. reflexivity. Qed.

Lemma append_cons c a s : String c a +:+ s = String c (a +:+ s).
Proof. reflexivity. Qed.

Lemma split_at_first sep a b :
  lacks sep a = true ->
  split sep (a +:+ String sep b) = a :: split sep b.
Proof.
  unfold lacks. induction a as [| c a IH]; cbn -[Ascii.eqb].
  - intros _. rewrite append_nil_l. cbn -[Ascii.eqb].
    now rewrite Ascii.eqb_refl.
  - intros H. apply andb_true_iff in H as [Hc Ha].
    apply negb_true_iff in Hc. rewrite append_cons. cbn -[Ascii.eqb].
    rewrite Hc, (IH Ha). reflexivity.
Qed.

Lemma split_nonempty sep s : split sep s <> [].
Proof.
  destruct s as [| c s]; cbn -[Ascii.eqb]; [discriminate |].
  destruct (Ascii.eqb c sep); [discriminate |].
  destruct (split sep s); discriminate.
Qed.

Lemma join_split sep s : join (String sep EmptyString) (split sep s) = s.
Proof.
  induction s as [| c s IH]; cbn -[Ascii.eqb]; [reflexivity |].
  destruct (Ascii.eqb_spec c sep) as [-> | Hne].
  - pose proof (split_nonempty sep s) as Hnil.
    destruct (split sep s) as [| p ps]; [contradiction |].
    cbn [join]. cbn -[Ascii.eqb]. now rewrite <- IH.
  - pose proof (split_nonempty sep s) as Hnil.
    destruct (split sep s) as [| p ps]; [contradiction |].
    rewrite <- IH. destruct ps; reflexivity.
Qed.

Lemma split_head_lacks sep s p ps :
  split sep s = p :: ps -> lacks sep p = true.
Proof.
  unfold lacks. revert p ps. induction s as [| c s IH]; cbn -[Ascii.eqb]; intros p ps.
  - intros [= <- _]. reflexivity.
  - destruct (Ascii.eqb c sep) eqn:Hc.
    + intros [= <- _]. reflexivity.
    + pose proof (split_nonempty sep s) as Hnil.
      destruct (split sep s) as [| q qs]; [contradiction |].
      intros [= <- _]. cbn -[Ascii.eqb]. rewrite Hc. cbn -[Ascii.eqb]. eapply IH. reflexivity.
Qed.

Lemma email_domain_part_lacks s :
  lacks "@" s = true -> email_domain_part s = EmptyString.
Proof. intros H. unfold email_domain_part. now rewrite (split_lacks _ _ H). Qed.

Lemma slug_domain_nonempty name : slug_domain name <> EmptyString.
Proof.
  unfold slug_domain. intros H. apply append_empty in H as [_ H]. discriminate.
Qed.

(** The domain part taken from an address [local@domain] with a
    single at sign is [domain], and an address without an at sign has the
    empty domain part. *)
Theorem email_domain_part_spec (loc domain : string) :
  lacks "@" loc = true ->
  lacks "@" domain = true ->
  email_domain_part (loc +:+ "@" +:+ domain) = domain /\
  email_domain_part loc = EmptyString.
Proof.
  intros Hl Hd. unfold email_domain_part. split.
  - change ("@" +:+ domain) with (String "@" domain).
    now rewrite (split_at_first _ _ _ Hl), (split_lacks _ _ Hd).
  - now rewrite (split_lacks _ _ Hl).
Qed.

Lemma email_domain_part_spec_witness :
  email_domain_part ("john" +:+ "@" +:+ "acme.com") = "acme.com" /\
  email_domain_part "john" = EmptyString.
Proof. apply email_domain_part_spec; reflexivity. Defined.

Lemma strip_non_alnum_chars s : all_chars is_lower_alnum (strip_non_alnum s) = true.
Proof.
  induction s as [| c s IH]; cbn; [reflexivity |].
  destruct (is_lower_alnum c) eqn:Hc; cbn; [now rewrite Hc |]. exact IH.
Qed.

(** X18: a slug domain is a run of lower-case letters and digits followed
    by [.com]; it is never empty, also for a name without any letter or
    digit. *)
Theorem slug_domain_shape (name : string) :
  exists body,
    slug_domain name = body +:+ ".com" /\
    all_chars is_lower_alnum body = true /\
    slug_domain name <> EmptyString.
Proof.
  exists (strip_non_alnum (toLowerCase name)). unfold slug_domain.
  split; [reflexivity |]. split; [apply strip_non_alnum_chars |].
  intros H. apply append_empty in H as [_ H]. discriminate.
Qed.

(** *** Regions and bands *)

(** X19: [buildRegion] returns [undefined] exactly when neither part is a
    non-empty string; otherwise it returns a non-empty string, never
    [null] and never the empty string. *)
Theorem buildRegion_never_empty (country state : opt string) :
  (truthy country = None /\ truthy state = None /\
   buildRegion country state = undefined) \/
  (exists region,
      buildRegion country state = val region /\ region <> EmptyString /\
      (truthy country <> None \/ truthy state <> None)).
Proof.
  unfold buildRegion.
  destruct (truthy country) as [c |] eqn:Hc, (truthy state) as [s |] eqn:Hs.
  - right. exists (s +:+ ", " +:+ c). split; [reflexivity |]. split.
    + intros H. apply append_empty in H as [_ H].
      apply append_empty in H as [H _]. discriminate.
    + left. discriminate.
  - right. apply truthy_Some in Hc as [-> Hne]. exists c.
    split; [reflexivity |]. split; [exact Hne |]. left. discriminate.
  - right. apply truthy_Some in Hs as [-> Hne]. exists s.
    split; [reflexivity |]. split; [exact Hne |]. right. discriminate.
  - left. auto.
Qed.

Lemma Qle_bool_mono_l (q1 q2 t : Q) :
  (q1 <= q2)%Q -> Qle_bool q2 t = true -> Qle_bool q1 t = true.
Proof.
  intros Hle H. apply Qle_bool_iff in H. apply Qle_bool_iff.
  eapply Qle_trans; eassumption.
Qed.

Lemma Qle_bool_mono_r (q1 q2 t : Q) :
  (q1 <= q2)%Q -> Qle_bool t q1 = true -> Qle_bool t q2 = true.
Proof.
  intros Hle H. apply Qle_bool_iff in H. apply Qle_bool_iff.
  eapply Qle_trans; eassumption.
Qed.

Ltac band_cases Hle :=
  repeat case_match;
  first
    [ solve [vm_compute; intros; discriminate]
    | exfalso;
      repeat match goal with
             | H : negb _ = true |- _ => apply negb_true_iff in H
             | H : negb _ = false |- _ => apply negb_false_iff in H
             end;
      match goal with
      | H1 : Qle_bool _ ?t = false, H2 : Qle_bool _ ?t = true |- _ =>
          rewrite (Qle_bool_mono_l _ _ _ Hle H2) in H1; discriminate
      | H1 : Qle_bool ?t _ = true, H2 : Qle_bool ?t _ = false |- _ =>
          rewrite (Qle_bool_mono_r _ _ _ Hle H1) in H2; discriminate
      end ].

Lemma band_table_monotone (q1 q2 : Q) :
  (q1 <= q2)%Q ->
  employee_points q1 <= employee_points q2 /\
  revenue_points q1 <= revenue_points q2 /\
  deal_points q1 <= deal_points q2.
Proof.
  intros Hle. repeat split.
  - unfold employee_points, employee_band_of. band_cases Hle.
  - unfold revenue_points, revenue_band_of. band_cases Hle.
  - unfold deal_points, deal_band_of. band_cases Hle.
Qed.

Ltac by_breakpoints :=
  repeat match goal with
         | |- context [Qle_bool ?a ?b] => destruct (Qle_bool a b)
         end;
  reflexivity.

(** The points of a lead that carries the band a mapper computes. *)
Lemma banded_lead_points (q : Q) (phase : Phase) :
  (scoreCompanySize
     (banded_lead (Salesforce.mapEmployeeCountToBand (val (Fin q))) undefined undefined)
     phase).1 = employee_points q /\
  (scoreCompanySize
     (banded_lead (HubSpot.mapEmployeeCountToBand (val (Fin q))) undefined undefined)
     phase).1 = employee_points q /\
  (scoreRevenue
     (banded_lead undefined (Salesforce.mapRevenueToBand (val (Fin q))) undefined)
     phase).1 = revenue_points q /\
  (scoreRevenue
     (banded_lead undefined (HubSpot.mapRevenueToBand (val (Fin q))) undefined)
     phase).1 = revenue_points q /\
  (scoreDealBand
     (banded_lead undefined undefined (PipedriveDeal.mapValueToDealBand (val (Fin q))))
     phase).1 = deal_points q.
Proof.
  destruct (bands_of_defined_numbers q) as (-> & -> & -> & ->).
  unfold scoreCompanySize, scoreRevenue, scoreDealBand, banded_lead.
  cbn [company_employee_band company_revenue_band estimated_deal_band].
  unfold PipedriveDeal.mapValueToDealBand, lt, employee_points, employee_band_of,
    revenue_points, revenue_band_of, deal_points, deal_band_of.
  repeat split; by_breakpoints.
Qed.

(** X20: the points that the scorers award for the band a mapper computes
    never fall when the head count, the revenue or the deal value grows;
    this holds for the conversions of the Salesforce, the HubSpot and the
    Pipedrive mapper. *)
Theorem band_points_monotone (q1 q2 : Q) (phase : Phase) :
  (q1 <= q2)%Q ->
  let size band := (scoreCompanySize (banded_lead band undefined undefined) phase).1 in
  let revenue band := (scoreRevenue (banded_lead undefined band undefined) phase).1 in
  let deal band := (scoreDealBand (banded_lead undefined undefined band) phase).1 in
  size (Salesforce.mapEmployeeCountToBand (val (Fin q1)))
    <= size (Salesforce.mapEmployeeCountToBand (val (Fin q2))) /\
  size (HubSpot.mapEmployeeCountToBand (val (Fin q1)))
    <= size (HubSpot.mapEmployeeCountToBand (val (Fin q2))) /\
  revenue (Salesforce.mapRevenueToBand (val (Fin q1)))
    <= revenue (Salesforce.mapRevenueToBand (val (Fin q2))) /\
  revenue (HubSpot.mapRevenueToBand (val (Fin q1)))
    <= revenue (HubSpot.mapRevenueToBand (val (Fin q2))) /\
  deal (PipedriveDeal.mapValueToDealBand (val (Fin q1)))
    <= deal (PipedriveDeal.mapValueToDealBand (val (Fin q2))).
Proof.
  intros Hle. cbv zeta.
  destruct (banded_lead_points q1 phase) as (-> & -> & -> & -> & ->).
  destruct (banded_lead_points q2 phase) as (-> & -> & -> & -> & ->).
  destruct (band_table_monotone q1 q2 Hle) as (He & Hr & Hd).
  repeat split; assumption.
Qed.

Lemma band_points_monotone_witness :
  (scoreCompanySize
     (banded_lead (Salesforce.mapEmployeeCountToBand (val (Fin 50))) undefined undefined)
     enriched).1
  <= (scoreCompanySize
        (banded_lead (Salesforce.mapEmployeeCountToBand (val (Fin 51))) undefined undefined)
        enriched).1 /\
  (scoreDealBand
     (banded_lead undefined undefined (PipedriveDeal.mapValueToDealBand (val (Fin 9999))))
     enriched).1
  <= (scoreDealBand
        (banded_lead undefined undefined
           (PipedriveDeal.mapValueToDealBand (val (Fin 10000))))
        enriched).1.
Proof.
  split.
  - apply (band_points_monotone 50 51 enriched). vm_compute. discriminate.
  - apply (band_points_monotone 9999 10000 enriched). vm_compute. discriminate.
Defined.

(** *** The Salesforce mapper *)

Section SalesforceMapper.

Variable extractDomainFromUrl : string -> string.

#[local] Abbreviation mapSalesforce :=
  (SalesforceLead.mapSalesforceToUniversal extractDomainFromUrl).

(** X21: a Salesforce lead whose [Email] is a non-empty string without an
    at sign gets the empty [company_domain], whatever its [Website] and
    [Company] are, and the handler answers 400. *)
Theorem salesforce_email_without_at_is_rejected
    (sf : SalesforceLead.SalesforceLeadPayload) (email : string)
    (enrichedData : PartialLeadInput) (tenantConfig : TenantScoringConfig) :
  truthy (SalesforceLead.Email sf) = Some email ->
  lacks "@" email = true ->
  company_domain (universal (mapSalesforce sf)) = EmptyString /\
  exists error,
    enrichAndScore (universal (mapSalesforce sf)) enrichedData tenantConfig
    = BadRequest error.
Proof.
  intros Hemail Hat.
  assert (Hd : company_domain (universal (mapSalesforce sf)) = EmptyString).
  { unfold SalesforceLead.mapSalesforceToUniversal. cbn [universal company_domain].
    rewrite Hemail. now apply email_domain_part_lacks. }
  split; [exact Hd |].
  unfold enrichAndScore. rewrite Hd. cbn. eauto.
Qed.

(** X22: a Salesforce lead without [Email] and [Website] takes its domain
    from its [Company]: lower-case letters and digits followed by [.com],
    which for a company name in ASCII is the name lower-cased and stripped
    of every other character; such a lead is never rejected for a missing
    domain. *)
Theorem salesforce_company_only_domain
    (sf : SalesforceLead.SalesforceLeadPayload) (company : string)
    (enrichedData : PartialLeadInput) (tenantConfig : TenantScoringConfig) :
  truthy (SalesforceLead.Email sf) = None ->
  truthy (SalesforceLead.Website sf) = None ->
  truthy (SalesforceLead.Company sf) = Some company ->
  let domain := company_domain (universal (mapSalesforce sf)) in
  (exists body,
      domain = body +:+ ".com" /\ all_chars is_lower_alnum body = true) /\
  (all_chars is_ascii company = true -> domain = slug_domain company) /\
  exists enrichedLead r,
    enrichAndScore (universal (mapSalesforce sf)) enrichedData tenantConfig
    = Scored enrichedLead r.
Proof.
  intros Hemail Hweb Hcompany. cbv zeta.
  assert (Hd : company_domain (universal (mapSalesforce sf)) = slug_domain company).
  { unfold SalesforceLead.mapSalesforceToUniversal. cbn [universal company_domain].
    now rewrite Hemail, Hweb, Hcompany. }
  split; [| split].
  - exists (strip_non_alnum (toLowerCase company)).
    split; [exact Hd | apply strip_non_alnum_chars].
  - intros _. exact Hd.
  - unfold enrichAndScore. rewrite Hd.
    pose proof (slug_domain_nonempty company) as Hne.
    apply String.eqb_neq in Hne. rewrite Hne. eauto.
Qed.

Lemma band_points_range (q : Q) :
  5 <= employee_points q <= 25 /\ 5 <= revenue_points q <= 25 /\
  5 <= deal_points q <= 15.
Proof.
  unfold employee_points, employee_band_of, revenue_points, revenue_band_of,
    deal_points, deal_band_of.
  repeat split; repeat case_match; vm_compute; intros; discriminate.
Qed.

Lemma truthy_band (f : Q -> string) (q : Q) (b : string) :
  f q = b -> b <> EmptyString -> truthy (val (f q)) = Some b.
Proof.
  intros -> Hne. cbn. apply String.eqb_neq in Hne. now rewrite Hne.
Qed.

(** X23: the bands the Salesforce mapper derives from a finite head count
    and a finite revenue are bands the scorer knows: the mapped lead gets
    between 5 and 25 points for each, by the breakpoints. *)
Theorem salesforce_counts_always_score
    (sf : SalesforceLead.SalesforceLeadPayload) (employees revenue : Q)
    (phase : Phase) :
  SalesforceLead.NumberOfEmployees sf = val (Fin employees) ->
  SalesforceLead.AnnualRevenue sf = val (Fin revenue) ->
  let lead := universal (mapSalesforce sf) in
  (scoreCompanySize lead phase).1 = employee_points employees /\
  (scoreRevenue lead phase).1 = revenue_points revenue /\
  5 <= (scoreCompanySize lead phase).1 <= 25 /\
  5 <= (scoreRevenue lead phase).1 <= 25.
Proof.
  intros He Hr. cbv zeta.
  assert (Hsize : (scoreCompanySize (universal (mapSalesforce sf)) phase).1
                  = employee_points employees).
  { unfold scoreCompanySize, SalesforceLead.mapSalesforceToUniversal.
    cbn [universal company_employee_band]. rewrite He.
    destruct (bands_of_defined_numbers employees) as (-> & _).
    unfold employee_points, employee_band_of. by_breakpoints. }
  assert (Hrev : (scoreRevenue (universal (mapSalesforce sf)) phase).1
                 = revenue_points revenue).
  { unfold scoreRevenue, SalesforceLead.mapSalesforceToUniversal.
    cbn [universal company_revenue_band]. rewrite Hr.
    destruct (bands_of_defined_numbers revenue) as (_ & _ & -> & _).
    unfold revenue_points, revenue_band_of. by_breakpoints. }
  rewrite Hsize, Hrev.
  pose proof (band_points_range employees) as (? & _ & _).
  pose proof (band_points_range revenue) as (_ & ? & _).
  auto.
Qed.

End SalesforceMapper.

Lemma salesforce_email_without_at_is_rejected_witness :
  company_domain
    (universal (SalesforceLead.mapSalesforceToUniversal (fun url => url) no_at_lead))
  = EmptyString.
Proof.
  apply (salesforce_email_without_at_is_rejected (fun url => url) no_at_lead
           "john.acme.com" no_enrichment getDefaultScoringConfig);
    reflexivity.
Defined.

Lemma salesforce_company_only_domain_witness :
  company_domain
    (universal
       (SalesforceLead.mapSalesforceToUniversal (fun url => url) symbols_only_lead))
  = slug_domain "!!!" /\ slug_domain "!!!" = ".com".
Proof.
  split; [| reflexivity].
  apply (salesforce_company_only_domain (fun url => url) symbols_only_lead "!!!"
           no_enrichment getDefaultScoringConfig);
    reflexivity.
Defined.

Lemma salesforce_counts_always_score_witness :
  (scoreCompanySize
     (universal
        (SalesforceLead.mapSalesforceToUniversal (fun url => url) symbols_only_lead))
     enriched).1 = employee_points 5000 /\
  employee_points 5000 = 25.
Proof.
  split; [| reflexivity].
  apply (salesforce_counts_always_score (fun url => url) symbols_only_lead
           5000 2000000 enriched);
    reflexivity.
Defined.

(** *** The Pipedrive mapper *)

Section PipedriveMapper.

Variable number_toString : num -> string.

#[local] Abbreviation mapPipedrive :=
  (PipedriveDeal.mapPipedriveToUniversal number_toString).

(** X24: when [email] is an array, the mapped [contact_email] is the value
    of one of its entries, a primary one unless no entry is primary; only
    the empty array leaves [contact_email] undefined. *)
Theorem pipedrive_email_from_entries
    (pd : PipedriveDeal.PipedrivePayload)
    (entries : list PipedriveDeal.ContactEntry) :
  PipedriveDeal.pd_email pd = val (PipedriveDeal.ContactArray entries) ->
  (entries = [] /\ contact_email (universal (mapPipedrive pd)) = undefined) \/
  (exists e,
      e ∈ entries /\
      contact_email (universal (mapPipedrive pd))
        = val (PipedriveDeal.entry_value e) /\
      (PipedriveDeal.entry_primary e = true \/
       Forall (fun x => PipedriveDeal.entry_primary x = false) entries)).
Proof.
  intros Hemail. unfold PipedriveDeal.mapPipedriveToUniversal.
  cbn [universal contact_email]. rewrite Hemail.
  unfold PipedriveDeal.extract_contact, PipedriveDeal.primary_value.
  destruct entries as [| e0 rest]; [left; auto | right].
  cbn [length Nat.ltb Nat.leb].
  destruct (List.find PipedriveDeal.entry_primary (e0 :: rest)) as [e |] eqn:Hfind.
  - apply List.find_some in Hfind as [Hin Hprim].
    exists e. split; [now apply list_elem_of_In | auto].
  - exists e0. split; [apply list_elem_of_here |]. split; [reflexivity |].
    right. apply Forall_forall. intros x Hx.
    apply (List.find_none _ _ Hfind). now apply list_elem_of_In.
Qed.

(** X25: when only the full [name] is given, it is split at its first
    space: the first name has no space, and first and last name joined by
    a space give the name back; a name without a space (or ending in its
    only space) has no last name. *)
Theorem pipedrive_name_split
    (pd : PipedriveDeal.PipedrivePayload) (name : string) :
  truthy (PipedriveDeal.pd_first_name pd) = None ->
  truthy (PipedriveDeal.pd_last_name pd) = None ->
  truthy (PipedriveDeal.pd_name pd) = Some name ->
  exists first,
    contact_first_name (universal (mapPipedrive pd)) = val first /\
    lacks " " first = true /\
    ((exists last,
         contact_last_name (universal (mapPipedrive pd)) = val last /\
         last <> EmptyString /\
         name = first +:+ " " +:+ last) \/
     (contact_last_name (universal (mapPipedrive pd)) = undefined /\
      (name = first \/ name = first +:+ " "))).
Proof.
  intros Hf Hl Hn. unfold PipedriveDeal.mapPipedriveToUniversal.
  cbn [universal contact_first_name contact_last_name].
  rewrite Hf, Hl, Hn. cbn [fst snd].
  pose proof (join_split " " name) as Hjoin.
  pose proof (split_nonempty " " name) as Hnil.
  destruct (split " " name) as [| p rest] eqn:Hsplit; [contradiction |].
  exists p. split; [reflexivity |].
  split; [exact (split_head_lacks _ _ _ _ Hsplit) |].
  cbn [tail].
  destruct rest as [| r rs].
  - right. cbn. split; [reflexivity |]. left. now rewrite <- Hjoin.
  - change (join " " (p :: r :: rs)) with (p +:+ " " +:+ join " " (r :: rs))
      in Hjoin.
    destruct (String.eqb_spec (join " " (r :: rs)) EmptyString) as [He | Hne].
    + right. split; [reflexivity |]. right. rewrite <- Hjoin, He. reflexivity.
    + left. exists (join " " (r :: rs)). auto.
Qed.

(** X26: a finite deal [value] is mapped to a band the scorer knows; the
    mapped lead gets 5, 10 or 15 deal points by the breakpoints 10,000 and
    100,000. *)
Theorem pipedrive_value_scores
    (pd : PipedriveDeal.PipedrivePayload) (value : Q) (phase : Phase) :
  PipedriveDeal.pd_value pd = val (Fin value) ->
  (scoreDealBand (universal (mapPipedrive pd)) phase).1 = deal_points value /\
  deal_points value =
    (if Qle_bool 100000 value then 15
     else if Qle_bool 10000 value then 10 else 5).
Proof.
  intros Hv. split.
  - unfold scoreDealBand, PipedriveDeal.mapPipedriveToUniversal.
    cbn [universal estimated_deal_band]. rewrite Hv.
    unfold PipedriveDeal.mapValueToDealBand, lt, deal_points, deal_band_of.
    by_breakpoints.
  - unfold deal_points, deal_band_of.
    destruct (Qle_bool 10000 value) eqn:H1, (Qle_bool 100000 value) eqn:H2;
      cbn; try reflexivity.
    exfalso. apply Qle_bool_iff in H2.
    assert (Qle_bool 10000 value = true)
      by (apply Qle_bool_iff; eapply Qle_trans; [| exact H2];
          vm_compute; discriminate).
    congruence.
Qed.

End PipedriveMapper.

Lemma pipedrive_email_from_entries_witness :
  contact_email
    (universal (PipedriveDeal.mapPipedriveToUniversal (fun _ => "7") pipedrive_person))
  = val "jane@acme.com" /\
  ([] : list PipedriveDeal.ContactEntry) <>
    [PipedriveDeal.mkEntry "old@acme.com" false;
     PipedriveDeal.mkEntry "jane@acme.com" true].
Proof.
  split; [reflexivity |].
  destruct (pipedrive_email_from_entries (fun _ => "7") pipedrive_person _ eq_refl)
    as [[Hnil _] | _]; [discriminate Hnil | discriminate].
Defined.

Lemma pipedrive_name_split_witness :
  exists first,
    contact_first_name
      (universal
         (PipedriveDeal.mapPipedriveToUniversal (fun _ => "7") pipedrive_person))
    = val first /\ lacks " " first = true.
Proof.
  destruct (pipedrive_name_split (fun _ => "7") pipedrive_person "Jane van Doe")
    as (first & Hfirst & Hlacks & _); [reflexivity .. |].
  exists first. split; assumption.
Defined.

Lemma pipedrive_value_scores_witness :
  (scoreDealBand
     (universal
        (PipedriveDeal.mapPipedriveToUniversal (fun _ => "7") pipedrive_person))
     enriched).1 = deal_points 20000.
Proof.
  apply (pipedrive_value_scores (fun _ => "7") pipedrive_person 20000 enriched).
  reflexivity.
Defined.

(** *** The raw pass-through mapper *)

(** X27: the raw mapper keeps a non-empty [company_domain], otherwise
    takes the domain part of a non-empty [contact_email], otherwise leaves
    the domain empty; every other field is passed through, so the result
    is the payload merged into an empty lead with that domain. *)
Theorem mapRawToUniversal_domain (payload : PartialLeadInput) :
  let lead := RawPayload.mapRawToUniversal payload in
  (forall d, truthy (company_domain payload) = Some d -> company_domain lead = d) /\
  (truthy (company_domain payload) = None ->
   forall e, truthy (contact_email payload) = Some e ->
             company_domain lead = email_domain_part e) /\
  (truthy (company_domain payload) = None ->
   truthy (contact_email payload) = None ->
   company_domain lead = EmptyString) /\
  lead = mergeEnrichment (bare_lead (company_domain lead)) payload.
Proof.
  cbv zeta. unfold RawPayload.mapRawToUniversal. cbn [company_domain].
  repeat split.
  - intros d Hd. now rewrite !Hd.
  - intros Hd e He. rewrite Hd, He. unfold email_domain_part.
    destruct (split "@" e !! 1%nat) as [x |]; cbn; [| reflexivity].
    now destruct (String.eqb_spec x EmptyString).
  - intros Hd He. now rewrite Hd, He, Hd.
Qed.

Lemma mapRawToUniversal_domain_witness :
  company_domain (RawPayload.mapRawToUniversal raw_email_payload)
  = email_domain_part "john@acme.com" /\
  email_domain_part "john@acme.com" = "acme.com".
Proof.
  split; [| reflexivity].
  destruct (mapRawToUniversal_domain raw_email_payload) as (_ & H & _).
  apply H; reflexivity.
Defined.

(** *** The classifier and its hint *)

Lemma detectors_read_other_keys (p q : gmap string json) :
  (forall key, key <> "_source" -> p !! key = q !! key) ->
  Salesforce.isSalesforcePayload p = Salesforce.isSalesforcePayload q /\
  HubSpot.isHubSpotPayload p = HubSpot.isHubSpotPayload q /\
  Pipedrive.isPipedrivePayload p = Pipedrive.isPipedrivePayload q.
Proof.
  intros H.
  unfold Salesforce.isSalesforcePayload, HubSpot.isHubSpotPayload,
    Pipedrive.isPipedrivePayload.
  rewrite !(H "LastName"), !(H "Company"), !(H "NumberOfEmployees"),
    !(H "AnnualRevenue"), !(H "Id"), !(H "vid"), !(H "properties"),
    !(H "firstname"), !(H "lastname"), !(H "jobtitle"),
    !(H "lifecyclestage"), !(H "hs_lead_status"), !(H "person_id"),
    !(H "org_id"), !(H "org_name"), !(H "owner_id"), !(H "email"),
    !(H "phone") by discriminate.
  auto.
Qed.

(** X28: a [_source] that is not one of the strings [salesforce],
    [hubspot], [pipedrive] (another string, a number, [null]) is ignored:
    the source chosen is the one chosen for the payload without the
    hint. *)
Theorem unknown_hint_is_ignored
    (mapSalesforceToUniversal mapHubSpotToUniversal mapPipedriveToUniversal
       : gmap string json -> MapResult)
    (mapRawToUniversal : gmap string json -> UniversalLeadInput)
    (payload : gmap string json) (hint : json) :
  (forall s, hint = JStr s ->
             s <> "salesforce" /\ s <> "hubspot" /\ s <> "pipedrive") ->
  source (detectAndMap mapSalesforceToUniversal mapHubSpotToUniversal
            mapPipedriveToUniversal mapRawToUniversal
            (<["_source" := hint]> payload)) =
  source (detectAndMap mapSalesforceToUniversal mapHubSpotToUniversal
            mapPipedriveToUniversal mapRawToUniversal
            (delete "_source" payload)).
Proof.
  intros Hhint. unfold detectAndMap.
  assert (Hh : forall name,
    name = "salesforce" \/ name = "hubspot" \/ name = "pipedrive" ->
    hinted (<["_source" := hint]> payload) name = false /\
    hinted (delete "_source" payload) name = false).
  { intros name Hname. unfold hinted.
    rewrite lookup_insert_eq, lookup_delete_eq. split; [| reflexivity].
    destruct hint as [| | | s | |]; try reflexivity.
    apply String.eqb_neq. destruct (Hhint s eq_refl) as (? & ? & ?).
    destruct Hname as [-> | [-> | ->]]; assumption. }
  destruct (Hh "salesforce") as [-> ->]; [auto |].
  destruct (Hh "hubspot") as [-> ->]; [auto |].
  destruct (Hh "pipedrive") as [-> ->]; [auto |].
  destruct (detectors_read_other_keys (<["_source" := hint]> payload)
              (delete "_source" payload)) as (-> & -> & ->).
  { intros key Hkey.
    rewrite lookup_insert_ne, lookup_delete_ne by congruence.
    reflexivity. }
  cbn [orb].
  destruct (Salesforce.isSalesforcePayload _); [reflexivity |].
  destruct (HubSpot.isHubSpotPayload _); [reflexivity |].
  destruct (Pipedrive.isPipedrivePayload _); reflexivity.
Qed.

Lemma unknown_hint_is_ignored_witness :
  source (detectAndMap (fun _ => mkMapResult (bare_lead "a") JNull)
            (fun _ => mkMapResult (bare_lead "b") JNull)
            (fun _ => mkMapResult (bare_lead "c") JNull)
            (fun _ => bare_lead "d")
            (<["_source" := JStr "zoho"]> salesforce_payload)) =
  source (detectAndMap (fun _ => mkMapResult (bare_lead "a") JNull)
            (fun _ => mkMapResult (bare_lead "b") JNull)
            (fun _ => mkMapResult (bare_lead "c") JNull)
            (fun _ => bare_lead "d")
            (delete "_source" salesforce_payload)).
Proof.
  apply unknown_hint_is_ignored.
  intros s [= <-]. repeat split; discriminate.
Defined.

(* ===================================================================== *)
(** ** Properties of the first scoring function *)
(* ===================================================================== *)

Section LegacyScoring.

Variable toLocaleString : num -> string.
Variable millions_toFixed1 : num -> string.
Variable input : Legacy.EnrichLeadRequest.

#[local] Abbreviation scoreLeadV2 :=
  (Legacy.V2.scoreLead toLocaleString millions_toFixed1).

Ltac block_points f := unfold f; repeat case_match; cbn [fst]; lia.

Lemma legacy_email_points :
  (Legacy.V2.emailBlock input).1 = (Legacy.V1.emailBlock input).1 /\
  0 <= (Legacy.V1.emailBlock input).1 <= 15.
Proof.
  unfold Legacy.V2.emailBlock, Legacy.V1.emailBlock.
  repeat case_match; cbn [fst]; lia.
Qed.

Lemma legacy_title_points :
  (Legacy.V2.titleBlock input).1 = (Legacy.V1.titleBlock input).1 /\
  0 <= (Legacy.V1.titleBlock input).1 <= 30.
Proof.
  unfold Legacy.V2.titleBlock, Legacy.V1.titleBlock.
  repeat case_match; cbn [fst]; lia.
Qed.

Lemma legacy_industry_points :
  (Legacy.V2.industryBlock input).1 = (Legacy.V1.industryBlock input).1 /\
  0 <= (Legacy.V1.industryBlock input).1 <= 15.
Proof.
  unfold Legacy.V2.industryBlock, Legacy.V1.industryBlock.
  repeat case_match; cbn [fst]; lia.
Qed.

Lemma legacy_source_points :
  (Legacy.V2.sourceBlock input).1 = (Legacy.V1.sourceBlock input).1 /\
  0 <= (Legacy.V1.sourceBlock input).1 <= 15.
Proof.
  unfold Legacy.V2.sourceBlock, Legacy.V1.sourceBlock.
  repeat case_match; cbn [fst]; lia.
Qed.

Lemma legacy_company_points :
  (Legacy.V2.companyBlock input).1 = (Legacy.V1.companyBlock input).1 /\
  0 <= (Legacy.V1.companyBlock input).1 <= 5.
Proof.
  unfold Legacy.V2.companyBlock, Legacy.V1.companyBlock.
  repeat case_match; cbn [fst]; lia.
Qed.

Lemma legacy_revenue_points :
  (Legacy.V2.revenueBlock millions_toFixed1 input).1
    = (Legacy.V1.revenueBlock input).1 /\
  0 <= (Legacy.V1.revenueBlock input).1 <= 25.
Proof.
  unfold Legacy.V2.revenueBlock, Legacy.V1.revenueBlock,
    Legacy.defined_num, Legacy.truthy_num.
  destruct (Legacy.AnnualRevenue input) as [| | [| q]];
    cbn -[Qle_bool Qeq_bool]; try (split; [reflexivity | lia]).
  destruct (Qeq_bool q 0) eqn:Hq; cbn -[Qle_bool Qeq_bool].
  - apply Qeq_bool_iff in Hq.
    assert (Hz : forall c, (0 < c)%Q -> Qle_bool c q = false).
    { intros c Hc. destruct (Qle_bool c q) eqn:Hle; [| reflexivity].
      apply Qle_bool_iff in Hle. rewrite Hq in Hle.
      exfalso. exact (Qlt_not_le _ _ Hc Hle). }
    rewrite !Hz by reflexivity. cbn. split; [reflexivity | lia].
  - repeat case_match; cbn [fst]; split; try reflexivity; lia.
Qed.

Lemma legacy_employee_points :
  (Legacy.V2.employeesBlock toLocaleString input).1 =
    (Legacy.V1.employeesBlock input).1 +
    match Legacy.defined_num (Legacy.NumberOfEmployees input),
          Legacy.truthy_num (Legacy.NumberOfEmployees input) with
    | Some _, None => 5
    | _, _ => 0
    end /\
  0 <= (Legacy.V2.employeesBlock toLocaleString input).1 <= 25.
Proof.
  unfold Legacy.V2.employeesBlock, Legacy.V1.employeesBlock,
    Legacy.defined_num, Legacy.truthy_num.
  destruct (Legacy.NumberOfEmployees input) as [| | [| q]];
    cbn -[Qle_bool Qeq_bool]; try (split; [reflexivity | lia]).
  destruct (Qeq_bool q 0) eqn:Hq; cbn -[Qle_bool Qeq_bool].
  - apply Qeq_bool_iff in Hq.
    assert (Hz : forall c, (0 < c)%Q -> Qle_bool c q = false).
    { intros c Hc. destruct (Qle_bool c q) eqn:Hle; [| reflexivity].
      apply Qle_bool_iff in Hle. rewrite Hq in Hle.
      exfalso. exact (Qlt_not_le _ _ Hc Hle). }
    rewrite !Hz by reflexivity. cbn. split; [reflexivity | lia].
  - repeat case_match; cbn [fst]; split; try reflexivity; lia.
Qed.

Lemma legacy_score_sum :
  Legacy.score (scoreLeadV2 input) =
  (Legacy.V2.emailBlock input).1 +
  (Legacy.V2.employeesBlock toLocaleString input).1 +
  (Legacy.V2.revenueBlock millions_toFixed1 input).1 +
  (Legacy.V2.titleBlock input).1 + (Legacy.V2.industryBlock input).1 +
  (Legacy.V2.sourceBlock input).1 + (Legacy.V2.companyBlock input).1 /\
  Legacy.score (Legacy.V1.scoreLead input) =
  (Legacy.V1.emailBlock input).1 + (Legacy.V1.employeesBlock input).1 +
  (Legacy.V1.revenueBlock input).1 + (Legacy.V1.titleBlock input).1 +
  (Legacy.V1.industryBlock input).1 + (Legacy.V1.sourceBlock input).1 +
  (Legacy.V1.companyBlock input).1.
Proof.
  unfold Legacy.V2.scoreLead, Legacy.V1.scoreLead, Legacy.total.
  cbn [Legacy.score foldr fst snd]. lia.
Qed.

Lemma legacy_arr_bounds revenue base :
  base = 5000 \/ base = 10000 \/ base = 12000 \/ base = 20000 \/
  base = 25000 \/ base = 50000 ->
  5000 <= Legacy.adjust_arr revenue base <= 75000.
Proof.
  intros Hbase. unfold Legacy.adjust_arr.
  destruct (Legacy.truthy_num revenue) as [r |]; [| lia].
  destruct (Legacy.ge r 10000000); [| lia].
  destruct Hbase as [-> | [-> | [-> | [-> | [-> | ->]]]]];
    vm_compute; split; discriminate.
Qed.

Lemma legacy_arr_base_values n s :
  (Legacy.arr_of_employees n = 5000 \/ Legacy.arr_of_employees n = 12000 \/
   Legacy.arr_of_employees n = 25000 \/ Legacy.arr_of_employees n = 50000) /\
  (Legacy.arr_of_score s = 5000 \/ Legacy.arr_of_score s = 10000 \/
   Legacy.arr_of_score s = 20000).
Proof.
  unfold Legacy.arr_of_employees, Legacy.arr_of_score.
  split; repeat case_match; auto.
Qed.

End LegacyScoring.

(** X29: the first scoring function is not clamped: its score lies
    between 0 and 130, and 130 is reached.  Its tier is [high] exactly
    from 70 and [low] exactly below 40, and its estimated ARR lies between
    5,000 and 75,000. *)
Theorem legacy_score_bounds
    (toLocaleString millions_toFixed1 : num -> string)
    (input : Legacy.EnrichLeadRequest) :
  let r := Legacy.V2.scoreLead toLocaleString millions_toFixed1 input in
  0 <= Legacy.score r <= 130 /\
  (Legacy.tier r = Legacy.high <-> 70 <= Legacy.score r) /\
  (Legacy.tier r = Legacy.low <-> Legacy.score r < 40) /\
  5000 <= Legacy.estimatedArr r <= 75000 /\
  Legacy.score
    (Legacy.V2.scoreLead toLocaleString millions_toFixed1 Legacy.best_request)
  = 130.
Proof.
  cbv zeta.
  destruct (legacy_score_sum toLocaleString millions_toFixed1 input) as [Hsum _].
  pose proof (legacy_email_points input) as [He He'].
  pose proof (legacy_employee_points toLocaleString input) as [_ Hn].
  pose proof (legacy_revenue_points millions_toFixed1 input) as [Hr Hr'].
  pose proof (legacy_title_points input) as [Ht Ht'].
  pose proof (legacy_industry_points input) as [Hi Hi'].
  pose proof (legacy_source_points input) as [Hs Hs'].
  pose proof (legacy_company_points input) as [Hc Hc'].
  split; [lia |].
  assert (Htier : Legacy.tier
            (Legacy.V2.scoreLead toLocaleString millions_toFixed1 input)
          = Legacy.tier_of
              (Legacy.score
                 (Legacy.V2.scoreLead toLocaleString millions_toFixed1 input)))
    by reflexivity.
  rewrite Htier. unfold Legacy.tier_of.
  split; [| split; [| split]].
  - destruct (Z.leb_spec 70 (Legacy.score
      (Legacy.V2.scoreLead toLocaleString millions_toFixed1 input)));
      [tauto |].
    destruct (_ <=? _)%Z; split; intros; try discriminate; lia.
  - destruct (Z.leb_spec 70 (Legacy.score
      (Legacy.V2.scoreLead toLocaleString millions_toFixed1 input)));
      [split; [discriminate | lia] |].
    destruct (Z.leb_spec 40 (Legacy.score
      (Legacy.V2.scoreLead toLocaleString millions_toFixed1 input)));
      split; intros; try discriminate; try lia; reflexivity.
  - unfold Legacy.V2.scoreLead. cbn [Legacy.estimatedArr].
    apply legacy_arr_bounds.
    destruct (Legacy.defined_num (Legacy.NumberOfEmployees input)) as [n |].
    + destruct (legacy_arr_base_values n 0) as [H _]. tauto.
    + match goal with
      | |- context [Legacy.arr_of_score ?s] =>
          destruct (legacy_arr_base_values NaN s) as [_ H]
      end. tauto.
  - vm_compute. reflexivity.
Qed.

(** X30: the two versions of the first scoring function give the same
    score, tier and estimated ARR, except for a head count that is given
    but falsy (0 or NaN): there the second version awards 5 points that
    the first one does not. *)
Theorem legacy_versions_agree
    (toLocaleString millions_toFixed1 : num -> string)
    (input : Legacy.EnrichLeadRequest) :
  let r1 := Legacy.V1.scoreLead input in
  let r2 := Legacy.V2.scoreLead toLocaleString millions_toFixed1 input in
  match Legacy.defined_num (Legacy.NumberOfEmployees input),
        Legacy.truthy_num (Legacy.NumberOfEmployees input) with
  | Some _, None => Legacy.score r2 = Legacy.score r1 + 5
  | _, _ =>
      Legacy.score r2 = Legacy.score r1 /\
      Legacy.tier r2 = Legacy.tier r1 /\
      Legacy.estimatedArr r2 = Legacy.estimatedArr r1
  end.
Proof.
  cbv zeta.
  destruct (legacy_score_sum toLocaleString millions_toFixed1 input)
    as [Hsum2 Hsum1].
  pose proof (legacy_email_points input) as [He _].
  pose proof (legacy_employee_points toLocaleString input) as [Hn _].
  pose proof (legacy_revenue_points millions_toFixed1 input) as [Hr _].
  pose proof (legacy_title_points input) as [Ht _].
  pose proof (legacy_industry_points input) as [Hi _].
  pose proof (legacy_source_points input) as [Hs _].
  pose proof (legacy_company_points input) as [Hc _].
  assert (Hscore :
    Legacy.score (Legacy.V2.scoreLead toLocaleString millions_toFixed1 input) =
    Legacy.score (Legacy.V1.scoreLead input) +
    match Legacy.defined_num (Legacy.NumberOfEmployees input),
          Legacy.truthy_num (Legacy.NumberOfEmployees input) with
    | Some _, None => 5
    | _, _ => 0
    end) by lia.
  clear Hsum1 Hsum2 He Hn Hr Ht Hi Hs Hc.
  assert (Hdef : forall n,
    Legacy.truthy_num (Legacy.NumberOfEmployees input) = Some n ->
    Legacy.defined_num (Legacy.NumberOfEmployees input) = Some n).
  { unfold Legacy.truthy_num, Legacy.defined_num.
    destruct (Legacy.NumberOfEmployees input) as [| | [| q]];
      try discriminate.
    destruct (Qeq_bool q 0); [discriminate | auto]. }
  assert (Hnone :
    Legacy.defined_num (Legacy.NumberOfEmployees input) = None ->
    Legacy.truthy_num (Legacy.NumberOfEmployees input) = None).
  { unfold Legacy.truthy_num, Legacy.defined_num.
    destruct (Legacy.NumberOfEmployees input) as [| | [| q]];
      try discriminate; auto. }
  destruct (Legacy.defined_num (Legacy.NumberOfEmployees input)) as [n |] eqn:Hd,
    (Legacy.truthy_num (Legacy.NumberOfEmployees input)) as [m |] eqn:Ht;
    try (rewrite Z.add_0_r in Hscore).
  - specialize (Hdef m eq_refl). injection Hdef as ->.
    split; [exact Hscore |].
    unfold Legacy.V2.scoreLead, Legacy.V1.scoreLead in *.
    cbn [Legacy.score Legacy.tier Legacy.estimatedArr] in *.
    rewrite Hd, Ht, Hscore. auto.
  - lia.
  - specialize (Hnone eq_refl). discriminate.
  - split; [exact Hscore |].
    unfold Legacy.V2.scoreLead, Legacy.V1.scoreLead in *.
    cbn [Legacy.score Legacy.tier Legacy.estimatedArr] in *.
    rewrite Hd, Ht, Hscore. auto.
Qed.


(* ===================================================================== *)
(** ** Properties of the engine on doubles *)
(* ===================================================================== *)

(** *** Rounding keeps the sign and never gives NaN *)

Section Binary64.

Import F64 Doubles.

Lemma shr_1_nonneg mrs : 0 <= shr_m mrs -> 0 <= shr_m (shr_1 mrs).
Proof.
  destruct mrs as [m r s]; cbn. intros Hm.
  destruct m as [| [p | p |] | p]; cbn; lia.
Qed.

Lemma iter_shr_1_nonneg p mrs :
  0 <= shr_m mrs -> 0 <= shr_m (SpecFloat.iter_pos shr_1 p mrs).
Proof.
  revert mrs. induction p as [p IH | p IH |]; intros mrs Hm; cbn.
  - apply IH, IH, shr_1_nonneg, Hm.
  - apply IH, IH, Hm.
  - apply shr_1_nonneg, Hm.
Qed.

Lemma shr_nonneg mrs e n : 0 <= shr_m mrs -> 0 <= shr_m (shr mrs e n).1.
Proof.
  intros Hm. destruct n; cbn; try exact Hm. apply iter_shr_1_nonneg, Hm.
Qed.

Lemma shr_record_of_loc_m m l : shr_m (shr_record_of_loc m l) = m.
Proof. destruct l as [| []]; reflexivity. Qed.

Lemma shr_fexp_nonneg m e l : 0 <= m -> 0 <= shr_m (shr_fexp prec emax m e l).1.
Proof.
  intros Hm. unfold shr_fexp. apply shr_nonneg.
  now rewrite shr_record_of_loc_m.
Qed.

Lemma round_nearest_even_nonneg m l : 0 <= m -> 0 <= round_nearest_even m l.
Proof.
  intros Hm. destruct l as [| []]; cbn; try lia.
  destruct (Z.even m); lia.
Qed.

Lemma binary_round_aux_signed s m e l :
  0 <= m -> signed s (binary_round_aux prec emax s m e l).
Proof.
  intros Hm. unfold binary_round_aux.
  pose proof (shr_fexp_nonneg m e l Hm) as H1.
  destruct (shr_fexp prec emax m e l) as [mrs' e'] eqn:E1. cbn [fst] in H1.
  pose proof (shr_fexp_nonneg
                (round_nearest_even (shr_m mrs') (loc_of_shr_record mrs')) e'
                loc_Exact (round_nearest_even_nonneg _ _ H1)) as H2.
  destruct (shr_fexp prec emax _ e' loc_Exact) as [mrs'' e''] eqn:E2.
  cbn [fst] in H2.
  destruct (shr_m mrs'') as [| p | p]; [| | lia].
  - now left.
  - destruct (e'' <=? emax - prec)%Z; right; [right | left]; eauto.
Qed.

Lemma binary_round_signed s m e : signed s (binary_round prec emax s m e).
Proof.
  unfold binary_round. destruct (shl_align _ _ _) as [mz ez].
  apply binary_round_aux_signed. lia.
Qed.

Lemma binary_normalize_not_nan z e s : isNaN (binary_normalize prec emax z e s) = false.
Proof.
  destruct z as [| p | p]; cbn; [reflexivity | |].
  - destruct (binary_round_signed false p e) as [-> | [-> | (m & e' & ->)]]; reflexivity.
  - destruct (binary_round_signed true p e) as [-> | [-> | (m & e' & ->)]]; reflexivity.
Qed.

Lemma of_Z_pos_signed z : 0 < z -> signed false (of_Z z).
Proof.
  intros Hz. destruct z as [| p | p]; try lia. apply binary_round_signed.
Qed.

Lemma signed_nonneg x : signed false x -> nonneg x.
Proof. intros [-> | [-> | (m & e & ->)]]; reflexivity. Qed.

Lemma nonneg_cases x :
  nonneg x -> (exists s, x = S754_zero s) \/ signed false x.
Proof.
  unfold nonneg, leb, SFleb. destruct x as [s | [] | | [] m e]; cbn; try discriminate.
  - left. eauto.
  - right. right. now left.
  - right. right. right. eauto.
Qed.

Lemma nonneg_not_nan x : nonneg x -> isNaN x = false.
Proof. intros [[s ->] | [-> | [-> | (m & e & ->)]]]%nonneg_cases; reflexivity. Qed.

Lemma mul_nonneg mx ex w :
  nonneg w -> nonneg (mul (S754_finite false mx ex) w).
Proof.
  intros [[s ->] | [-> | [-> | (m & e & ->)]]]%nonneg_cases; try reflexivity.
  apply signed_nonneg. cbn. apply binary_round_aux_signed. lia.
Qed.

Lemma Math_round_nonneg x : nonneg x -> nonneg (Math_round x).
Proof.
  intros [[s ->] | [-> | [-> | (m & e & ->)]]]%nonneg_cases; try reflexivity.
  - unfold Math_round. destruct (0 <=? e)%Z; [reflexivity |].
    cbn [cond_Zopp].
    set (n := Z.shiftr _ _).
    assert (0 <= n) as Hn.
    { subst n. apply Z.shiftr_nonneg.
      assert (0 <= 2 ^ (- e)) by (apply Z.pow_nonneg; lia). lia. }
    destruct (n =? 0)%Z eqn:E; [reflexivity |].
    apply signed_nonneg, of_Z_pos_signed. apply Z.eqb_neq in E. lia.
Qed.

Lemma add_nonneg x y : nonneg x -> nonneg y -> nonneg (add x y).
Proof.
  intros [[s ->] | Hx]%nonneg_cases [[t ->] | Hy]%nonneg_cases.
  - now destruct s, t.
  - destruct Hy as [-> | [-> | (m & e & ->)]]; now destruct s.
  - destruct Hx as [-> | [-> | (m & e & ->)]]; now destruct t.
  - destruct Hx as [-> | [-> | (m & e & ->)]],
             Hy as [-> | [-> | (m' & e' & ->)]]; try reflexivity.
    apply signed_nonneg. cbn.
    destruct (shl_align m e (Z.min e e')) as [a ea],
             (shl_align m' e' (Z.min e e')) as [b eb]. cbn.
    apply binary_round_signed.
Qed.

(** Adding a finite number to a non-negative one never gives NaN. *)
Lemma add_finite_not_nan x s m e :
  nonneg x -> isNaN (add x (S754_finite s m e)) = false.
Proof.
  intros [[t ->] | [-> | [-> | (m' & e' & ->)]]]%nonneg_cases; try reflexivity.
  cbn. apply binary_normalize_not_nan.
Qed.

(** [x - x] is [+0] for every finite [x]. *)
Lemma sub_diag x :
  isNaN x = false -> (forall s, x <> S754_infinity s) -> sub x x = zero.
Proof.
  destruct x as [s | s | | s m e]; intros Hn Hi; try discriminate.
  - now destruct s.
  - now destruct (Hi s).
  - cbn. now rewrite Z.sub_diag.
Qed.

(** *** Rounding to an integer *)

(** [Math.round] rounds halves towards plus infinity and works on the exact
    value: 0.5 gives 1, -0.5 gives -0, 2.5 gives 3, -2.5 gives -2, and
    0.49999999999999994 gives 0. *)
Lemma Math_round_halves :
  Math_round (decimal 5 10) = of_Z 1 /\
  Math_round (decimal (-5) 10) = S754_zero true /\
  Math_round (decimal 25 10) = of_Z 3 /\
  Math_round (decimal (-25) 10) = of_Z (-2) /\
  Math_round (S754_finite false (2 ^ 53 - 1) (-54)) = zero.
Proof. vm_compute. repeat split; reflexivity. Qed.

(** *** Clamping *)

Lemma clamp100_nan : clamp100 nan = nan.
Proof. reflexivity. Qed.

Lemma hundred_eq : hundred = S754_finite false 7036874417766400 (-46).
Proof. vm_compute. reflexivity. Qed.

Lemma SFcompare_positive m1 e1 m2 e2 :
  SFcompare (S754_finite false m1 e1) (S754_finite false m2 e2) =
  Some match (e1 ?= e2)%Z with
       | Eq => (m1 ?= m2)%positive
       | Lt => Lt
       | Gt => Gt
       end.
Proof. reflexivity. Qed.

Lemma clamp100_range x :
  isNaN x = false ->
  leb zero (clamp100 x) = true /\ leb (clamp100 x) hundred = true /\
  (forall s, clamp100 x <> S754_infinity s) /\ isNaN (clamp100 x) = false.
Proof.
  intros Hx. unfold clamp100, Math_min. rewrite hundred_eq.
  set (h := S754_finite false 7036874417766400 (-46)).
  assert (forall y, y = zero \/ y = h ->
            leb zero y = true /\ leb y h = true /\
            (forall s, y <> S754_infinity s) /\ isNaN y = false) as Hconst.
  { intros y [-> | ->]; (split; [reflexivity | split; [reflexivity |
      split; [intros s; discriminate | reflexivity]]]). }
  destruct (SFcompare h x) as [[] |] eqn:E1.
  - assert (x = h) as ->.
    { revert E1. subst h.
      destruct x as [s | [] | | [] m e]; try discriminate.
      rewrite SFcompare_positive.
      destruct (Z.compare_spec (-46) e) as [<- | |]; try discriminate.
      destruct (Pos.compare_spec 7036874417766400 m) as [<- | |];
        try discriminate. reflexivity. }
    cbn [sign_bit h]. apply Hconst. now right.
  - apply Hconst. now right.
  - unfold Math_max.
    destruct (SFcompare zero x) as [[] |] eqn:E2.
    + cbn [sign_bit zero]. apply Hconst. now left.
    + unfold leb, SFleb. rewrite E2.
      destruct x as [s | s | | s m e]; try discriminate.
      * destruct s; discriminate.
      * split; [reflexivity |].
        assert (SFcompare (S754_finite s m e) h = Some Lt) as E3.
        { revert E1. subst h.
          destruct s; [discriminate E2 |].
          rewrite !SFcompare_positive.
          rewrite (Z.compare_antisym e (-46)), (Pos.compare_antisym m).
          destruct (e ?= -46)%Z; cbn [CompOpp]; try discriminate; try reflexivity.
          destruct (m ?= 7036874417766400)%positive; cbn [CompOpp];
            try discriminate; reflexivity. }
        rewrite E3.
        split; [reflexivity | split; [intros t; discriminate | reflexivity]].
    + apply Hconst. now left.
    + destruct x; discriminate.
  - destruct x as [[] | [] | | []]; discriminate.
Qed.

End Binary64.

(** *** Small integers are exact *)

Section SmallIntegers.

Import F64 Doubles.

Lemma range_forallb (P : Z -> bool) lo len :
  forallb P (seqZ lo len) = true -> forall p, lo <= p < lo + len -> P p = true.
Proof.
  intros H p Hp. rewrite forallb_forall in H.
  apply H, list_elem_of_In, elem_of_seqZ. lia.
Qed.

Lemma same_true x y : same x y = true -> x = y.
Proof. apply bool_decide_eq_true_1. Qed.

Lemma of_Z_points_finite p :
  1 <= p <= 30 -> exists m e, of_Z p = S754_finite false m e.
Proof.
  intros Hp.
  assert (is_positive_finite (of_Z p) = true) as H.
  { apply (range_forallb (fun p => is_positive_finite (of_Z p)) 1 30);
      [vm_compute; reflexivity | lia]. }
  destruct (of_Z p) as [| | | [] m e]; try discriminate. eauto.
Qed.

(** [Math.round(p * 1.0)] is [p]. *)
Lemma weighted_by_one p :
  -20 <= p <= 30 -> Math_round (mul (of_Z p) one) = of_Z p.
Proof.
  intros Hp. apply same_true.
  apply (range_forallb
           (fun p => same (Math_round (mul (of_Z p) one)) (of_Z p)) (-20) 51);
    [vm_compute; reflexivity | lia].
Qed.

(** Sums of at most ten signals are exact. *)
Lemma add_small t p :
  -200 <= t <= 300 -> -20 <= p <= 30 -> add (of_Z t) (of_Z p) = of_Z (t + p).
Proof.
  intros Ht Hp. apply same_true.
  apply (range_forallb
           (fun p => same (add (of_Z t) (of_Z p)) (of_Z (t + p))) (-20) 51);
    [| lia].
  apply (range_forallb
           (fun t => forallb
              (fun p => same (add (of_Z t) (of_Z p)) (of_Z (t + p)))
              (seqZ (-20) 51)) (-200) 501);
    [vm_compute; reflexivity | lia].
Qed.

Lemma to_Z_of_Z n : -200 <= n <= 330 -> to_Z (of_Z n) = Some n.
Proof.
  intros Hn.
  assert (match to_Z (of_Z n) with
          | Some m => (m =? n)%Z
          | None => false
          end = true) as H.
  { apply (range_forallb
             (fun n => match to_Z (of_Z n) with
                       | Some m => (m =? n)%Z
                       | None => false
                       end) (-200) 531);
      [vm_compute; reflexivity | lia]. }
  destruct (to_Z (of_Z n)) as [m |]; [| discriminate].
  apply Z.eqb_eq in H. now subst.
Qed.

Lemma of_Z_points_nonzero p : 1 <= p <= 30 -> of_Z p <> zero.
Proof.
  intros Hp. destruct (of_Z_points_finite p Hp) as (m & e & ->). discriminate.
Qed.

End SmallIntegers.

(** *** The scorers that lower-case *)

Section DoublesScorers.

Import F64 Doubles.

Variable toLowerCase : string -> string.
Variable input : UniversalLeadInput.

Lemma Doubles_scoreEmailDomain_range phase :
  signal_range (scoreEmailDomain toLowerCase input phase).1.
Proof. scorer_range scoreEmailDomain. Qed.

Lemma Doubles_scoreSeniority_range phase :
  signal_range (scoreSeniority toLowerCase input phase).1.
Proof. scorer_range scoreSeniority. Qed.

Lemma Doubles_scoreIndustry_range l phase :
  signal_range (scoreIndustry toLowerCase input l phase).1.
Proof. scorer_range scoreIndustry. Qed.

Lemma Doubles_scoreLeadSource_range phase :
  signal_range (scoreLeadSource toLowerCase input phase).1.
Proof. scorer_range scoreLeadSource. Qed.

Lemma Doubles_scoreUseCase_range l phase :
  signal_range (scoreUseCase toLowerCase input l phase).1.
Proof. scorer_range scoreUseCase. Qed.

Lemma Doubles_scoreRegion_values l phase :
  (scoreRegion toLowerCase input l phase).1 = 0 \/
  (scoreRegion toLowerCase input l phase).1 = -20.
Proof. unfold scoreRegion; repeat case_match; cbn [fst]; lia. Qed.

Ltac same_points f := unfold f; repeat case_match; reflexivity.

Lemma Doubles_scoreEmailDomain_phase p q :
  (scoreEmailDomain toLowerCase input p).1 = (scoreEmailDomain toLowerCase input q).1.
Proof. same_points scoreEmailDomain. Qed.

Lemma Doubles_scoreSeniority_phase p q :
  (scoreSeniority toLowerCase input p).1 = (scoreSeniority toLowerCase input q).1.
Proof. same_points scoreSeniority. Qed.

Lemma Doubles_scoreIndustry_phase l p q :
  (scoreIndustry toLowerCase input l p).1 = (scoreIndustry toLowerCase input l q).1.
Proof. same_points scoreIndustry. Qed.

Lemma Doubles_scoreLeadSource_phase p q :
  (scoreLeadSource toLowerCase input p).1 = (scoreLeadSource toLowerCase input q).1.
Proof. same_points scoreLeadSource. Qed.

Lemma Doubles_scoreUseCase_phase l p q :
  (scoreUseCase toLowerCase input l p).1 = (scoreUseCase toLowerCase input l q).1.
Proof. same_points scoreUseCase. Qed.

Lemma Doubles_scoreRegion_phase l p q :
  (scoreRegion toLowerCase input l p).1 = (scoreRegion toLowerCase input l q).1.
Proof. same_points scoreRegion. Qed.

Lemma Doubles_signal_points_phase config key p q :
  signal_points toLowerCase input config p key =
  signal_points toLowerCase input config q key.
Proof.
  unfold signal_points.
  rewrite (Doubles_scoreEmailDomain_phase p q), (scoreCompanySize_phase input p q),
    (scoreRevenue_phase input p q), (Doubles_scoreSeniority_phase p q),
    (Doubles_scoreIndustry_phase _ p q), (Doubles_scoreLeadSource_phase p q),
    (Doubles_scoreUseCase_phase _ p q), (scoreUrgency_phase input p q),
    (scoreDealBand_phase input p q), (Doubles_scoreRegion_phase _ p q).
  reflexivity.
Qed.

Lemma Doubles_signal_points_range config phase key :
  String.eqb key "region_penalty" = false ->
  signal_range (signal_points toLowerCase input config phase key).
Proof.
  intros Hkey. unfold signal_points. rewrite Hkey.
  repeat case_match;
    auto using Doubles_scoreEmailDomain_range, scoreCompanySize_range,
      scoreRevenue_range, Doubles_scoreSeniority_range, Doubles_scoreIndustry_range,
      Doubles_scoreLeadSource_range, Doubles_scoreUseCase_range, scoreUrgency_range,
      scoreDealBand_range.
  now left.
Qed.

Lemma Doubles_signal_points_region config phase :
  signal_points toLowerCase input config phase "region_penalty" = 0 \/
  signal_points toLowerCase input config phase "region_penalty" = -20.
Proof. apply Doubles_scoreRegion_values. Qed.

(** A guard that passes means at least five points, and for the region
    the penalty of 20. *)
Lemma guard_of_points config phase key :
  let points := signal_points toLowerCase input config phase key in
  guard_of key points = true ->
  if String.eqb key "region_penalty" then points = -20 else 5 <= points <= 30.
Proof.
  cbv zeta. unfold guard_of.
  destruct (String.eqb key "region_penalty") eqn:Hregion.
  - apply String.eqb_eq in Hregion. subst key.
    change ("region_penalty" =? "industry") with false. cbv iota.
    intros Hneg%Z.ltb_lt.
    destruct (Doubles_signal_points_region config phase); lia.
  - pose proof (Doubles_signal_points_range config phase key Hregion) as Hrange.
    unfold signal_range in Hrange.
    destruct (String.eqb key "industry").
    + intros Hnz%negb_true_iff%Z.eqb_neq. lia.
    + intros Hpos%Z.ltb_lt. lia.
Qed.

(** *** The blocks in order *)

Lemma accumulate_blocks config weights phase :
  accumulate toLowerCase input config weights phase =
  fold_left step (blocks_of toLowerCase input config weights phase) ([], zero).
Proof.
  unfold accumulate, blocks_of, BLOCK_KEYS, SIGNAL_KEYS.
  cbn [map app fold_left]. unfold step, signal_points, guard_of, recorded_value.
  cbn [fst snd String.eqb Ascii.eqb Bool.eqb]. reflexivity.
Qed.

End DoublesScorers.

Section Blocks.

Import F64 Doubles.

Lemma fold_step_breakdown blocks st :
  (fold_left step blocks st).1 = (st.1 ++ recorded blocks)%list.
Proof.
  revert st. induction blocks as [| [[key guard] value] rest IH]; intros st; cbn.
  - now rewrite app_nil_r.
  - rewrite IH. unfold step, record_signal. cbn.
    destruct guard; cbn; [| reflexivity].
    now rewrite <- app_assoc.
Qed.

Lemma fold_step_total blocks st :
  (fold_left step blocks st).2 = fold_left add (map snd (recorded blocks)) st.2.
Proof.
  revert st. induction blocks as [| [[key guard] value] rest IH]; intros st; cbn.
  - reflexivity.
  - rewrite IH. unfold step, record_signal. cbn.
    destruct guard; reflexivity.
Qed.

(** Reading a key from the entries recorded by blocks with distinct keys. *)
Lemma get_recorded (keys : list string) (g : string -> bool)
    (v : string -> float64) key :
  get key (recorded (map (fun k => (k, g k, v k)) keys)) =
  if bool_decide (key ∈ keys) && g key then Some (v key) else None.
Proof.
  induction keys as [| k rest IH]; cbn; [reflexivity |].
  destruct (decide (k = key)) as [-> | Hne].
  - rewrite bool_decide_eq_true_2 by apply list_elem_of_here. cbn.
    destruct (g key) eqn:Hg; cbn.
    + now rewrite String.eqb_refl.
    + rewrite IH. now rewrite andb_false_r.
  - assert (bool_decide (key ∈ k :: rest) = bool_decide (key ∈ rest)) as ->.
    { apply bool_decide_ext. rewrite elem_of_cons. split; [intros [-> | H]; [congruence | exact H] | auto]. }
    destruct (g k); cbn; [| exact IH].
    apply String.eqb_neq in Hne. now rewrite Hne.
Qed.

End Blocks.

(** *** What a breakdown on doubles holds *)

Section DoublesEngine.

Import F64 Doubles.

Variable toLowerCase : string -> string.
Variable input : UniversalLeadInput.
Variable config : TenantScoringConfig.
Variable weights : gmap string float64.
Variable phase : Phase.

#[local] Abbreviation result := (computeScore toLowerCase input config weights phase).
#[local] Abbreviation points_at :=
  (signal_points toLowerCase input config phase).

Lemma computeScore_breakdown :
  cs_breakdown result = recorded (blocks_of toLowerCase input config weights phase).
Proof.
  unfold computeScore. cbn [cs_breakdown].
  now rewrite accumulate_blocks, fold_step_breakdown.
Qed.

Lemma computeScore_total :
  (accumulate toLowerCase input config weights phase).2 =
  sum_in_order (cs_breakdown result).
Proof.
  rewrite computeScore_breakdown, accumulate_blocks, fold_step_total.
  reflexivity.
Qed.

Lemma computeScore_score : cs_score result = clamp100 (sum_in_order (cs_breakdown result)).
Proof. rewrite <- computeScore_total. reflexivity. Qed.

Lemma computeScore_get key :
  get key (cs_breakdown result) =
  if bool_decide (key ∈ BLOCK_KEYS) && guard_of key (points_at key)
  then Some (recorded_value weights key (points_at key))
  else None.
Proof.
  rewrite computeScore_breakdown. unfold blocks_of.
  apply (get_recorded BLOCK_KEYS
           (fun k => guard_of k (points_at k))
           (fun k => recorded_value weights k (points_at k))).
Qed.

(** The values of the breakdown, as a list of weighted points. *)
Lemma recorded_values (keys : list string) (g : string -> bool)
    (v : string -> float64) :
  map snd (recorded (map (fun k => (k, g k, v k)) keys)) =
  map v (List.filter g keys).
Proof.
  induction keys as [| k rest IH]; cbn; [reflexivity |].
  destruct (g k); cbn; now rewrite IH.
Qed.

End DoublesEngine.

(** *** Which entries a breakdown holds *)

Section DoublesEntries.

Import F64 Doubles.

Variable toLowerCase : string -> string.

(** In the weights [scoreLeadDual] builds, the key of a signal reads as its
    override, and as 1 when the tenant does not override it. *)
Lemma Doubles_merged_weight_of (overrides : gmap string float64) key :
  key ∈ SIGNAL_KEYS ->
  weight_of (overrides ∪ BASE_WEIGHTS) key = default one (overrides !! key).
Proof.
  intros Hkey. unfold weight_of. rewrite lookup_union.
  destruct (overrides !! key) as [w |]; simpl.
  - now destruct (BASE_WEIGHTS !! key).
  - revert Hkey. unfold SIGNAL_KEYS. rewrite !elem_of_cons, elem_of_nil.
    intros H. decompose [or] H; subst; try reflexivity. contradiction.
Qed.

Lemma guard_of_nonzero input config phase key :
  key ∈ BLOCK_KEYS ->
  let points := signal_points toLowerCase input config phase key in
  guard_of key points = true <-> points <> 0.
Proof.
  intros Hkey. cbv zeta. split.
  - intros Hg. pose proof (guard_of_points toLowerCase input config phase key Hg) as H.
    cbv zeta in H. destruct (String.eqb key "region_penalty"); lia.
  - unfold guard_of.
    destruct (String.eqb key "region_penalty") eqn:Hregion.
    + apply String.eqb_eq in Hregion. subst key.
      change ("region_penalty" =? "industry") with false. cbv iota.
      intros Hnz.
      destruct (Doubles_signal_points_region toLowerCase input config phase); [lia |].
      apply Z.ltb_lt. lia.
    + pose proof (Doubles_signal_points_range toLowerCase input config phase key
                    Hregion) as Hrange.
      unfold signal_range in Hrange. intros Hnz.
      destruct (String.eqb key "industry").
      * apply negb_true_iff, Z.eqb_neq, Hnz.
      * apply Z.ltb_lt. lia.
Qed.

(** C3, amended: a breakdown holds an entry exactly for the signals whose
    unweighted points are non-zero, whatever the weights; the entry is
    [Math.round(points * weight)] computed on doubles (for the region, the
    penalty -20 itself), which is the points, and so not zero, under the
    weight 1. *)
Theorem breakdown_entry_of_scoring_signal
    (input : UniversalLeadInput) (config : TenantScoringConfig)
    (weights : gmap string float64) (phase : Phase) (key : string)
    (v : float64) :
  let points := signal_points toLowerCase input config phase key in
  (get key (cs_breakdown (computeScore toLowerCase input config weights phase))
     = Some v <->
   key ∈ BLOCK_KEYS /\ points <> 0 /\ v = recorded_value weights key points) /\
  (key ∈ BLOCK_KEYS -> points <> 0 -> weight_of weights key = one ->
   recorded_value weights key points = of_Z points /\ of_Z points <> zero).
Proof.
  cbv zeta. split.
  - rewrite computeScore_get.
    destruct (decide (key ∈ BLOCK_KEYS)) as [Hkey | Hkey].
    + rewrite bool_decide_eq_true_2 by exact Hkey. cbn [andb].
      pose proof (guard_of_nonzero input config phase key Hkey) as Hg.
      cbv zeta in Hg.
      destruct (guard_of key _) eqn:E.
      * split.
        -- intros [= <-]. repeat split; [exact Hkey | now apply Hg].
        -- intros (_ & _ & ->). reflexivity.
      * split; [discriminate |].
        intros (_ & Hnz & _). apply Hg in Hnz. discriminate.
    + rewrite bool_decide_eq_false_2 by exact Hkey. cbn [andb].
      split; [discriminate | intros (H & _); contradiction].
  - intros Hkey Hnz Hw.
    apply (guard_of_nonzero input config phase key Hkey) in Hnz.
    pose proof (guard_of_points toLowerCase input config phase key Hnz) as Hp.
    cbv zeta in Hp. unfold recorded_value.
    destruct (String.eqb key "region_penalty") eqn:Hregion.
    + rewrite Hp. split; [reflexivity | discriminate].
    + unfold weighted. rewrite Hw. split.
      * apply weighted_by_one. lia.
      * apply of_Z_points_nonzero. lia.
Qed.

(** *** Region penalty *)

Lemma Doubles_scoreRegion_excluded input excludedRegions phase region :
  truthy (or_else (company_region input) (contact_geo input)) = Some region ->
  excluded_match toLowerCase region excludedRegions = true ->
  scoreRegion toLowerCase input excludedRegions phase =
  (-20, say phase ("Excluded region: " +:+ region +:+ " (-20)")).
Proof.
  intros Hregion Hmatch. unfold scoreRegion.
  destruct excludedRegions as [| er rest]; [discriminate |].
  cbn [length Nat.eqb]. rewrite Hregion.
  unfold excluded_match in Hmatch. now rewrite Hmatch.
Qed.

(** C5, amended: when the region the code looks at, [company_region] if it
    is a non-empty string and [contact_geo] otherwise, is a non-empty
    string whose lower-cased form contains the lower-cased form of an
    excluded entry, the breakdown of the phase holds [region_penalty = -20]
    whatever the weights are, and the enriched phase pushes the reason
    [Excluded region: <region> (-20)].  The statement holds for every
    lower-casing function. *)
Theorem region_penalty_recorded
    (input : UniversalLeadInput) (config : TenantScoringConfig)
    (weights : gmap string float64) (phase : Phase) (region : string) :
  truthy (or_else (company_region input) (contact_geo input)) = Some region ->
  excluded_match toLowerCase region (excluded_regions config) = true ->
  get "region_penalty"
    (cs_breakdown (computeScore toLowerCase input config weights phase))
    = Some (of_Z (-20)) /\
  (phase = enriched ->
   ("Excluded region: " +:+ region +:+ " (-20)")
     ∈ cs_reasons (computeScore toLowerCase input config weights phase)).
Proof.
  intros Hregion Hmatch.
  pose proof (Doubles_scoreRegion_excluded input (excluded_regions config) phase
                region Hregion Hmatch) as Hscore.
  split.
  - rewrite computeScore_get.
    change (signal_points toLowerCase input config phase "region_penalty")
      with (scoreRegion toLowerCase input (excluded_regions config) phase).1.
    rewrite Hscore. reflexivity.
  - intros ->. unfold computeScore. cbn [cs_reasons].
    unfold collect_reasons. rewrite Hscore.
    rewrite !elem_of_app. do 9 right. cbn [snd say].
    apply list_elem_of_here.
Qed.

(** *** Priority industries *)

(** X7: an industry whose lower-cased form contains the lower-cased form
    of one of the tenant's priority industries awards 20 points, also when
    it is on the high-value or medium-value list; the entry is
    [Math.round(20 * weight)] on doubles.  The statement holds for every
    lower-casing function. *)
Theorem priority_industry_awards_20
    (input : UniversalLeadInput) (config : TenantScoringConfig)
    (weights : gmap string float64) (phase : Phase) (industry : string) :
  truthy (company_industry input) = Some industry ->
  matches_any toLowerCase (toLowerCase industry) (priority_industries config) = true ->
  (scoreIndustry toLowerCase input (priority_industries config) phase).1 = 20 /\
  get "industry"
    (cs_breakdown (computeScore toLowerCase input config weights phase))
    = Some (Math_round (mul (of_Z 20) (weight_of weights "industry"))) /\
  (phase = enriched ->
   ("Priority industry: " +:+ industry +:+ " (+20)")
     ∈ cs_reasons (computeScore toLowerCase input config weights phase)).
Proof.
  intros Hind Hprio.
  assert (Hscore :
    scoreIndustry toLowerCase input (priority_industries config) phase =
    (20, say phase ("Priority industry: " +:+ industry +:+ " (+20)"))).
  { unfold scoreIndustry. now rewrite Hind, Hprio. }
  repeat split.
  - now rewrite Hscore.
  - rewrite computeScore_get.
    change (signal_points toLowerCase input config phase "industry")
      with (scoreIndustry toLowerCase input (priority_industries config) phase).1.
    rewrite Hscore. reflexivity.
  - intros ->. unfold computeScore. cbn [cs_reasons].
    unfold collect_reasons. rewrite Hscore.
    rewrite !elem_of_app. do 4 right. left. apply list_elem_of_here.
Qed.

End DoublesEntries.

(** C3, as stated, fails: with the weight override [email_domain: 0] the
    corporate address scores 15 unweighted points, the guard
    [emailScore > 0] passes and the entry [email_domain: 0] is written to
    both [score_breakdown] and [raw_breakdown]. *)
Lemma breakdown_zero_entry_under_zero_weight :
  let r := Doubles.scoreLeadDual toLowerCase corporate_lead corporate_lead
             (val Doubles.email_off_config) in
  (Doubles.scoreEmailDomain toLowerCase corporate_lead enriched).1 = 15 /\
  Doubles.get "email_domain" (Doubles.score_breakdown r) = Some F64.zero /\
  Doubles.get "email_domain" (Doubles.raw_breakdown r) = Some F64.zero.
Proof. vm_compute. repeat split; reflexivity. Qed.

Lemma breakdown_entry_of_scoring_signal_witness :
  Doubles.get "email_domain"
    (Doubles.cs_breakdown
       (Doubles.computeScore toLowerCase corporate_lead
          Doubles.getDefaultScoringConfig Doubles.BASE_WEIGHTS enriched))
  = Some (F64.of_Z 15) /\
  Doubles.get "company_size"
    (Doubles.cs_breakdown
       (Doubles.computeScore toLowerCase maxLead Doubles.size_058_config
          (Doubles.weight_overrides Doubles.size_058_config ∪ Doubles.BASE_WEIGHTS)
          enriched))
  = Some (F64.of_Z 14).
Proof.
  split.
  - apply (breakdown_entry_of_scoring_signal toLowerCase corporate_lead
             Doubles.getDefaultScoringConfig Doubles.BASE_WEIGHTS enriched
             "email_domain" (F64.of_Z 15)).
    repeat split.
    + apply (bool_decide_unpack _). vm_compute. reflexivity.
    + vm_compute. discriminate.
  - apply (breakdown_entry_of_scoring_signal toLowerCase maxLead
             Doubles.size_058_config
             (Doubles.weight_overrides Doubles.size_058_config ∪ Doubles.BASE_WEIGHTS)
             enriched "company_size" (F64.of_Z 14)).
    repeat split.
    + apply (bool_decide_unpack _). vm_compute. reflexivity.
    + vm_compute. discriminate.
Defined.

(** The weighted points are rounded from the product of doubles:
    25 * 0.58 is 14.499999999999998, which rounds to 14 and not to
    15. *)
Lemma weighted_rounds_the_double_product :
  Doubles.weighted (Doubles.weight_overrides Doubles.size_058_config)
    "company_size" 25 = F64.of_Z 14.
Proof. vm_compute. reflexivity. Qed.

(** C5, as stated, fails on an empty region: [company_region] is present
    (the empty string) and contains the excluded entry (the empty string),
    yet [company_region || contact_geo] is falsy, [scoreRegion] returns 0,
    and neither breakdown has a [region_penalty] nor is there a reason.
    The same happens when [company_region] is missing and [contact_geo] is
    the empty string. *)
Lemma region_penalty_skips_empty_region :
  let excluding_empty := Doubles.tenant [] [EmptyString] [] in
  let r := Doubles.scoreLeadDual toLowerCase empty_region_lead empty_region_lead
             (val excluding_empty) in
  let r' := Doubles.scoreLeadDual toLowerCase empty_geo_lead empty_geo_lead
              (val excluding_empty) in
  Doubles.excluded_regions excluding_empty <> [] /\
  Doubles.excluded_match toLowerCase EmptyString
    (Doubles.excluded_regions excluding_empty) = true /\
  (stated_region empty_region_lead = val EmptyString /\
   Doubles.get "region_penalty" (Doubles.raw_breakdown r) = None /\
   Doubles.get "region_penalty" (Doubles.score_breakdown r) = None /\
   Doubles.reasons r = []) /\
  (stated_region empty_geo_lead = val EmptyString /\
   Doubles.get "region_penalty" (Doubles.raw_breakdown r') = None /\
   Doubles.get "region_penalty" (Doubles.score_breakdown r') = None /\
   Doubles.reasons r' = []).
Proof. vm_compute. repeat split; try reflexivity. discriminate. Qed.

Lemma region_penalty_recorded_witness :
  let excluding_russia := Doubles.tenant [] ["russia"] [("region_penalty", F64.of_Z 3)] in
  let weights := Doubles.weight_overrides excluding_russia ∪ Doubles.BASE_WEIGHTS in
  Doubles.get "region_penalty"
    (Doubles.cs_breakdown
       (Doubles.computeScore toLowerCase russian_lead excluding_russia weights enriched))
    = Some (F64.of_Z (-20)) /\
  "Excluded region: Russia (-20)"
    ∈ Doubles.cs_reasons
        (Doubles.computeScore toLowerCase russian_lead excluding_russia weights enriched).
Proof.
  cbv zeta.
  destruct (region_penalty_recorded toLowerCase russian_lead
              (Doubles.tenant [] ["russia"] [("region_penalty", F64.of_Z 3)])
              (Doubles.weight_overrides
                 (Doubles.tenant [] ["russia"] [("region_penalty", F64.of_Z 3)])
               ∪ Doubles.BASE_WEIGHTS)
              enriched "Russia") as [Hb Hr].
  - reflexivity.
  - vm_compute. reflexivity.
  - split; [exact Hb | exact (Hr eq_refl)].
Defined.

Lemma priority_industry_awards_20_witness :
  (Doubles.scoreIndustry toLowerCase baseRawLead ["tech"] enriched).1 = 20 /\
  (Doubles.scoreIndustry toLowerCase baseRawLead [] enriched).1 = 15.
Proof.
  split; [| reflexivity].
  apply (priority_industry_awards_20 toLowerCase baseRawLead
           (Doubles.tenant ["tech"] [] []) Doubles.BASE_WEIGHTS enriched
           "Technology");
    [reflexivity | vm_compute; reflexivity].
Defined.

(** *** Scores under weights that are not negative *)

Section DoublesTotals.

Import F64 Doubles.

Variable toLowerCase : string -> string.
Variable input : UniversalLeadInput.
Variable config : TenantScoringConfig.
Variable weights : gmap string float64.
Variable phase : Phase.

#[local] Abbreviation block_of :=
  (fun key =>
     let points := signal_points toLowerCase input config phase key in
     (key, guard_of key points, recorded_value weights key points)).

Lemma signal_key_not_region key :
  key ∈ SIGNAL_KEYS -> String.eqb key "region_penalty" = false.
Proof.
  unfold SIGNAL_KEYS. rewrite !elem_of_cons, elem_of_nil.
  intros H. decompose [or] H; subst; try reflexivity. contradiction.
Qed.

Lemma recorded_value_nonneg key :
  key ∈ SIGNAL_KEYS ->
  guard_of key (signal_points toLowerCase input config phase key) = true ->
  nonneg (weight_of weights key) ->
  nonneg (recorded_value weights key (signal_points toLowerCase input config phase key)).
Proof.
  intros Hkey Hguard Hw.
  pose proof (guard_of_points toLowerCase input config phase key Hguard) as Hp.
  cbv zeta in Hp. unfold recorded_value.
  rewrite (signal_key_not_region key Hkey) in *.
  unfold weighted.
  destruct (of_Z_points_finite
              (signal_points toLowerCase input config phase key))
    as (m & e & ->); [lia |].
  apply Math_round_nonneg, mul_nonneg, Hw.
Qed.

Lemma fold_signals_nonneg keys st :
  (forall key, key ∈ keys -> key ∈ SIGNAL_KEYS /\ nonneg (weight_of weights key)) ->
  nonneg st.2 ->
  nonneg (fold_left step (map block_of keys) st).2.
Proof.
  revert st. induction keys as [| key rest IH]; intros st Hkeys Hst; cbn.
  - exact Hst.
  - apply IH.
    + intros k Hk. apply Hkeys. now right.
    + destruct (Hkeys key) as [Hkey Hw]; [now left |].
      unfold step, record_signal. cbn [fst snd].
      destruct (guard_of key _) eqn:Hg; cbn [snd]; [| exact Hst].
      apply add_nonneg; [exact Hst |].
      now apply recorded_value_nonneg.
Qed.

(** Without a negative weight the running total is never NaN. *)
Lemma accumulate_not_nan :
  (forall key, key ∈ SIGNAL_KEYS -> nonneg (weight_of weights key)) ->
  isNaN (accumulate toLowerCase input config weights phase).2 = false.
Proof.
  intros Hw. rewrite accumulate_blocks. unfold blocks_of, BLOCK_KEYS.
  rewrite map_app, fold_left_app.
  change (map ?f ["region_penalty"]) with [f "region_penalty"]. cbn [fold_left].
  match goal with
  | |- context [fold_left step ?l ?s] => set (st := fold_left step l s)
  end.
  assert (nonneg st.2) as Hst.
  { subst st. apply fold_signals_nonneg; [| reflexivity].
    intros key Hkey. split; [exact Hkey | apply Hw, Hkey]. }
  unfold step, record_signal. cbn [fst snd].
  destruct (guard_of "region_penalty" _) eqn:Hg; cbn [snd].
  - pose proof (guard_of_points toLowerCase input config phase _ Hg) as Hp.
    cbv zeta in Hp. change ("region_penalty" =? "region_penalty") with true in Hp.
    cbv iota in Hp. unfold recorded_value.
    change ("region_penalty" =? "region_penalty") with true. cbv iota.
    rewrite Hp. apply (add_finite_not_nan st.2 true 5629499534213120 (-48)), Hst.
  - apply nonneg_not_nan, Hst.
Qed.

Lemma computeScore_in_range :
  (forall key, key ∈ SIGNAL_KEYS -> nonneg (weight_of weights key)) ->
  let s := cs_score (computeScore toLowerCase input config weights phase) in
  in_range s /\ isNaN s = false /\ (forall b, s <> S754_infinity b).
Proof.
  intros Hw. cbv zeta. unfold computeScore. cbn [cs_score].
  destruct (clamp100_range _ (accumulate_not_nan Hw)) as (H0 & H100 & Hinf & Hnan).
  unfold clamp100 in *. repeat split; assumption.
Qed.

End DoublesTotals.

(** *** Both phases of [scoreLeadDual] *)

Section DoublesDual.

Import F64 Doubles.

Variable toLowerCase : string -> string.

Lemma sub_not_nan x y :
  isNaN x = false -> isNaN y = false ->
  (forall s, x <> S754_infinity s) -> (forall s, y <> S754_infinity s) ->
  isNaN (sub x y) = false.
Proof.
  intros Hx Hy Hxi Hyi.
  destruct x as [s | s | | s m e]; try discriminate; [| now destruct (Hxi s) |];
    (destruct y as [t | t | | t m' e']; try discriminate; [| now destruct (Hyi t) |]).
  - now destruct s, t.
  - reflexivity.
  - reflexivity.
  - cbn. apply binary_normalize_not_nan.
Qed.

Lemma blocks_of_phase input config weights p q :
  blocks_of toLowerCase input config weights p =
  blocks_of toLowerCase input config weights q.
Proof.
  unfold blocks_of. apply map_ext. intros key.
  now rewrite (Doubles_signal_points_phase toLowerCase input config key p q).
Qed.

Lemma Doubles_accumulate_phase input config weights p q :
  accumulate toLowerCase input config weights p =
  accumulate toLowerCase input config weights q.
Proof. now rewrite !accumulate_blocks, (blocks_of_phase input config weights p q). Qed.

(** The scores of [scoreLeadDual] lie between 0 and 100, and the lift is a
    number, for every tenant without a negative weight override, hence
    also when [tenantConfig] is omitted. *)
Lemma scores_clamped_without_negative_weights
    (rawLead enrichedLead : UniversalLeadInput)
    (tenantConfig : opt TenantScoringConfig) :
  let config := match tenantConfig with
                | val c => c
                | _ => getDefaultScoringConfig
                end in
  (forall key w, weight_overrides config !! key = Some w -> nonneg w) ->
  let r := scoreLeadDual toLowerCase rawLead enrichedLead tenantConfig in
  in_range (raw_score r) /\ in_range (enriched_score r) /\
  lift r = sub (enriched_score r) (raw_score r) /\
  isNaN (lift r) = false.
Proof.
  intros config Hw r. subst r. unfold scoreLeadDual. cbn [raw_score enriched_score lift].
  fold config.
  assert (forall key, key ∈ SIGNAL_KEYS ->
            nonneg (weight_of (weight_overrides config ∪ BASE_WEIGHTS) key)) as Hall.
  { intros key Hkey. rewrite (Doubles_merged_weight_of _ key Hkey).
    destruct (weight_overrides config !! key) as [w |] eqn:E; cbn.
    - exact (Hw key w E).
    - reflexivity. }
  destruct (computeScore_in_range toLowerCase rawLead config _ raw Hall)
    as (Hr & Hrn & Hri).
  destruct (computeScore_in_range toLowerCase enrichedLead config _ enriched Hall)
    as (He & Hen & Hei).
  repeat split; try apply Hr; try apply He.
  now apply sub_not_nan.
Qed.

(** Scoring a record against itself gives the same score, tier and
    breakdown in both phases; the lift is [+0] whenever the score is a
    number, and NaN when the score is NaN. *)
Lemma same_record_same_result
    (x : UniversalLeadInput) (tenantConfig : opt TenantScoringConfig) :
  let r := scoreLeadDual toLowerCase x x tenantConfig in
  raw_score r = enriched_score r /\
  raw_tier r = enriched_tier r /\
  raw_breakdown r = score_breakdown r /\
  scoreLead toLowerCase x tenantConfig = r /\
  (isNaN (enriched_score r) = false -> lift r = zero) /\
  (isNaN (enriched_score r) = true -> lift r = nan).
Proof.
  intros r. subst r. unfold scoreLead, scoreLeadDual, computeScore.
  cbn [raw_score enriched_score raw_tier enriched_tier raw_breakdown
       score_breakdown lift cs_score cs_tier cs_breakdown].
  set (config := match tenantConfig with
                 | val c => c
                 | _ => getDefaultScoringConfig
                 end).
  rewrite (Doubles_accumulate_phase x config _ raw enriched).
  set (total := (accumulate toLowerCase x config _ enriched).2).
  repeat split.
  - intros Hn. destruct (isNaN total) eqn:Ht.
    + destruct total; discriminate.
    + destruct (clamp100_range total Ht) as (_ & _ & Hinf & Hnan).
      apply sub_diag; assumption.
  - intros Hn. fold (clamp100 total) in *.
    destruct (clamp100 total); try discriminate. reflexivity.
Qed.

End DoublesDual.

(** C1: the scores are not always between 0 and 100.  With the weight
    overrides [seniority: 1e308] and [company_size: -1e308] the weighted
    seniority of a C-level contact is [Infinity] and the weighted size of
    the largest band is [-Infinity]; their sum is NaN, which
    [Math.max(0, Math.min(100, NaN))] returns as it is.  The raw record
    without a head count scores 100, and the lift is NaN. *)
Theorem scores_escape_the_clamp :
  let r := Doubles.scoreLeadDual toLowerCase baseRawLead maxLead
             (val Doubles.overflow_config) in
  Doubles.get "seniority" (Doubles.score_breakdown r) = Some (S754_infinity false) /\
  Doubles.get "company_size" (Doubles.score_breakdown r) = Some (S754_infinity true) /\
  Doubles.raw_score r = F64.hundred /\
  Doubles.enriched_score r = F64.nan /\
  F64.leb F64.zero (Doubles.enriched_score r) = false /\
  F64.leb (Doubles.enriched_score r) F64.hundred = false /\
  Doubles.lift r = F64.nan.
Proof. vm_compute. repeat split; reflexivity. Qed.

(** C8: scoring a record against itself does not always give a lift of 0.
    Under the same weight overrides both phases of the record score NaN;
    the lift is [NaN - NaN], which is NaN, and [raw_score == enriched_score]
    is false.  [scoreLead] returns the same result. *)
Theorem same_record_lift_is_not_zero :
  let r := Doubles.scoreLeadDual toLowerCase maxLead maxLead
             (val Doubles.overflow_config) in
  Doubles.raw_score r = F64.nan /\
  Doubles.enriched_score r = F64.nan /\
  F64.eqb (Doubles.raw_score r) (Doubles.enriched_score r) = false /\
  Doubles.lift r = F64.nan /\
  F64.eqb (Doubles.lift r) F64.zero = false /\
  Doubles.scoreLead toLowerCase maxLead (val Doubles.overflow_config) = r.
Proof. vm_compute. repeat split; reflexivity. Qed.

(** *** The breakdown accounts for the score *)

Section DoublesAccounting.

Import F64 Doubles.

Variable toLowerCase : string -> string.

Lemma clamp100_of_Z n :
  -200 <= n <= 330 -> clamp100 (of_Z n) = of_Z (Z.max 0 (Z.min 100 n)).
Proof.
  intros Hn. apply same_true.
  apply (range_forallb
           (fun n => same (clamp100 (of_Z n)) (of_Z (Z.max 0 (Z.min 100 n))))
           (-200) 531);
    [vm_compute; reflexivity | lia].
Qed.

(** Left-to-right addition of at most ten signals is exact. *)
Lemma fold_add_exact (ps : list Z) (t : Z) :
  Forall (fun p => -20 <= p <= 30) ps ->
  -200 + 20 * Z.of_nat (length ps) <= t <= 300 - 30 * Z.of_nat (length ps) ->
  fold_left add (map of_Z ps) (of_Z t) = of_Z (t + foldr Z.add 0 ps).
Proof.
  revert t. induction ps as [| p ps IH]; intros t Hps Ht; cbn.
  - now rewrite Z.add_0_r.
  - apply Forall_cons in Hps as [Hp Hps]. cbn [length] in Ht.
    rewrite add_small by lia. rewrite IH by (try assumption; lia).
    f_equal. lia.
Qed.

Lemma exact_sum_of_Z (ps : list Z) :
  Forall (fun p => -20 <= p <= 30) ps ->
  exact_sum (map of_Z ps) = Some (foldr Z.add 0 ps).
Proof.
  induction ps as [| p ps IH]; intros Hps; cbn; [reflexivity |].
  apply Forall_cons in Hps as [Hp Hps].
  rewrite to_Z_of_Z by lia. now rewrite IH.
Qed.

Lemma foldr_add_range (ps : list Z) :
  Forall (fun p => -20 <= p <= 30) ps ->
  -20 * Z.of_nat (length ps) <= foldr Z.add 0 ps <= 30 * Z.of_nat (length ps).
Proof.
  induction ps as [| p ps IH]; intros Hps; cbn [foldr length]; [lia |].
  apply Forall_cons in Hps as [Hp Hps]. specialize (IH Hps). lia.
Qed.

Lemma filter_length_bound {A} (f : A -> bool) (l : list A) :
  (length (List.filter f l) <= length l)%nat.
Proof.
  induction l as [| a l IH]; cbn; [lia |]. destruct (f a); cbn; lia.
Qed.

(** Under the weight 1 the values of a breakdown are the points of the
    signals whose guard passes. *)
Lemma default_values input config weights phase :
  (forall key, key ∈ SIGNAL_KEYS -> weight_of weights key = one) ->
  exists ps,
    map snd (cs_breakdown (computeScore toLowerCase input config weights phase))
      = map of_Z ps /\
    Forall (fun p => -20 <= p <= 30) ps /\ (length ps <= 10)%nat.
Proof.
  intros Hw. rewrite computeScore_breakdown. unfold blocks_of.
  set (points := signal_points toLowerCase input config phase).
  rewrite (recorded_values BLOCK_KEYS (fun k => guard_of k (points k))
             (fun k => recorded_value weights k (points k))).
  exists (map points (List.filter (fun k => guard_of k (points k)) BLOCK_KEYS)).
  assert (forall key, key ∈ BLOCK_KEYS -> guard_of key (points key) = true ->
            -20 <= points key <= 30 /\
            recorded_value weights key (points key) = of_Z (points key)) as Hkey.
  { intros key Hin Hg.
    pose proof (guard_of_points toLowerCase input config phase key Hg) as Hp.
    cbv zeta in Hp. fold points in Hp. unfold recorded_value.
    destruct (String.eqb key "region_penalty") eqn:Hregion;
      [split; [lia | reflexivity] |].
    split; [lia |]. unfold weighted. rewrite Hw; [apply weighted_by_one; lia |].
    revert Hin Hregion. unfold BLOCK_KEYS. rewrite elem_of_app, list_elem_of_singleton.
    intros [H | ->] Hregion; [exact H | discriminate]. }
  split; [| split].
  - rewrite map_map. apply map_ext_in. intros key Hin.
    apply filter_In in Hin as [Hin Hg]. apply Hkey; [now apply list_elem_of_In | exact Hg].
  - apply Forall_forall. intros p Hp.
    apply list_elem_of_In, in_map_iff in Hp as (key & <- & Hin).
    apply filter_In in Hin as [Hin Hg]. apply Hkey; [now apply list_elem_of_In | exact Hg].
  - rewrite length_map.
    etrans; [apply filter_length_bound |]. reflexivity.
Qed.

(** C9, amended: the score is [Math.max(0, Math.min(100, S))] where [S] is
    the sum of the values of the breakdown added from left to right, in
    insertion order, in double precision; every weighted contribution that
    is added to the running total is recorded and nothing else is.  When
    [S] is a number the score lies between 0 and 100.  Under the default
    weights no addition rounds: [S] is the exact sum of the values, and the
    score is that sum clamped to 0..100. *)
Theorem computeScore_breakdown_accounts
    (input : UniversalLeadInput) (config : TenantScoringConfig)
    (weights : gmap string float64) (phase : Phase) :
  let r := computeScore toLowerCase input config weights phase in
  let values := map snd (cs_breakdown r) in
  let S := fold_left add values zero in
  cs_score r = clamp100 S /\
  (isNaN S = false -> in_range (cs_score r)) /\
  ((forall key, key ∈ SIGNAL_KEYS -> weight_of weights key = one) ->
   exists n,
     exact_sum values = Some n /\
     S = of_Z n /\
     cs_score r = of_Z (Z.max 0 (Z.min 100 n))).
Proof.
  cbv zeta. split; [apply computeScore_score |]. split.
  { intros Hn. rewrite computeScore_score.
    destruct (clamp100_range _ Hn) as (H0 & H100 & _). now split. }
  intros Hw. rewrite computeScore_score. unfold sum_in_order.
  destruct (default_values input config weights phase Hw) as (ps & -> & Hps & Hlen).
  pose proof (foldr_add_range ps Hps) as Hsum.
  exists (foldr Z.add 0 ps).
  assert (fold_left add (map of_Z ps) zero = of_Z (foldr Z.add 0 ps)) as Hfold.
  { change zero with (of_Z 0). rewrite fold_add_exact by (try assumption; lia).
    reflexivity. }
  split; [now apply exact_sum_of_Z |]. split; [exact Hfold |].
  rewrite Hfold. apply clamp100_of_Z. lia.
Qed.

End DoublesAccounting.

(** C9, as stated, fails: with the weight overrides [company_size: -1e17]
    and [revenue: 1e17] the breakdown of a lead with a corporate address,
    the largest head count and the largest revenue is
    [{email_domain: 15, company_size: -2.5e18, revenue: 2.5e18}], whose
    values sum to 15, yet the score is 0: the running total absorbs the 15
    when -2.5e18 is added. *)
Lemma breakdown_sum_absorbs_small_values :
  let r := Doubles.computeScore toLowerCase Doubles.three_signal_lead
             Doubles.absorbing_config
             (Doubles.weight_overrides Doubles.absorbing_config ∪ Doubles.BASE_WEIGHTS)
             enriched in
  let values := map snd (Doubles.cs_breakdown r) in
  map F64.to_Z values = [Some 15; Some (-25 * 10 ^ 17); Some (25 * 10 ^ 17)] /\
  F64.exact_sum values = Some 15 /\
  Doubles.clamp100 (F64.of_Z 15) = F64.of_Z 15 /\
  Doubles.cs_score r = F64.zero /\
  Doubles.cs_score r <> F64.of_Z 15.
Proof. vm_compute. repeat split; try reflexivity. discriminate. Qed.
